(** * The pool reconciliation loop of the EC2 spot manager

    A shallow embedding of [server/ec2spotmanager/tasks.py] and of the
    table in [server/ec2spotmanager/common/ec2.py], with the properties of
    the reconciliation tick stated and proved over it.

    Conventions of the embedding:
    - Python integers are [Z]; prices (JSON numbers) are Python floats,
      the binary64 values of [PrimFloat], with their rounding, their
      comparisons and their NaN;
    - a Python [dict] that is iterated is an association list in insertion
      order ([dict_get], [dict_set], [dict_del]); a dict that is only looked
      up is a [gmap];
    - the database, the redis cache, the clock and the log are fields of an
      explicit [World]; every function of the source is a computation in the
      state-and-exception monad [M];
    - the cloud provider is an oracle [Provider], asked with the number of
      the call, so that it may answer differently every time. *)

From Stdlib Require Import Floats.
From Stdlib Require Uint63.
From Stdlib Require Import ZArith String List Bool Lia DecimalString.
From stdpp Require Import gmap strings.

Import ListNotations.
Open Scope string_scope.
Open Scope list_scope.
Open Scope Z_scope.

(* A decimal literal denotes the nearest binary64 value, as in Python. *)
Set Warnings "-inexact-float".

(** ** Exceptions and results *)

Inductive exn : Type :=
  | EC2ResponseError (msg : string)
  | BotoServerError (msg : string)
  | SSLError (msg : string)
  | SocketError (msg : string)
  | RuntimeError (msg : string)
  | KeyError
  | IndexError
  | ValueError
  | AttributeError
  | AssertionError
  | DoesNotExist
  | OtherError (msg : string).

(** [str(msg)] of a caught exception. *)
Definition exn_str (e : exn) : string :=
  match e with
  | EC2ResponseError m | BotoServerError m | SSLError m | SocketError m
  | RuntimeError m | OtherError m => m
  | KeyError => "KeyError"
  | IndexError => "IndexError"
  | ValueError => "ValueError"
  | AttributeError => "AttributeError"
  | AssertionError => "AssertionError"
  | DoesNotExist => "DoesNotExist"
  end.

(** The tuple [(boto.exception.EC2ResponseError, boto.exception.BotoServerError,
    ssl.SSLError, socket.error)] of the [except] clauses. *)
Definition is_boto_error (e : exn) : bool :=
  match e with
  | EC2ResponseError _ | BotoServerError _ | SSLError _ | SocketError _ => true
  | _ => false
  end.

Inductive res (A : Type) : Type :=
  | Ok (a : A)
  | Raise (e : exn).
Arguments Ok {A} a.
Arguments Raise {A} e.

(** ** Python dictionaries in insertion order *)

Section Dict.
Context {V : Type}.

Fixpoint dict_get (d : list (string * V)) (k : string) : option V :=
  match d with
  | [] => None
  | (k', v) :: r => if String.eqb k' k then Some v else dict_get r k
  end.

(** [d[k] = v]: an existing key keeps its place. *)
Fixpoint dict_set (d : list (string * V)) (k : string) (v : V) : list (string * V) :=
  match d with
  | [] => [(k, v)]
  | (k', v') :: r =>
      if String.eqb k' k then (k', v) :: r else (k', v') :: dict_set r k v
  end.

(** [del d[k]] on a key that is present. *)
Fixpoint dict_del (d : list (string * V)) (k : string) : list (string * V) :=
  match d with
  | [] => []
  | (k', v') :: r => if String.eqb k' k then r else (k', v') :: dict_del r k
  end.

Definition dict_has (d : list (string * V)) (k : string) : bool :=
  match dict_get d k with Some _ => true | None => false end.
End Dict.

(** [x in l] for a list of strings. *)
Definition str_in (x : string) (l : list string) : bool :=
  existsb (String.eqb x) l.

(** [needle in haystack] for strings. *)
Fixpoint substring_in (needle haystack : string) : bool :=
  String.prefix needle haystack ||
  match haystack with
  | EmptyString => false
  | String _ rest => substring_in needle rest
  end.

(** ** common/ec2.py *)

Definition INSTANCE_TYPES : list (string * Z) :=
  [
    ("c1.medium", 2); ("c1.xlarge", 8); ("c3.2xlarge", 8); ("c3.4xlarge", 16);
    ("c3.8xlarge", 32); ("c3.large", 2); ("c3.xlarge", 4); ("c4.2xlarge", 8);
    ("c4.4xlarge", 16); ("c4.8xlarge", 36); ("c4.large", 2); ("c4.xlarge", 4);
    ("c5.18xlarge", 72); ("c5.2xlarge", 8); ("c5.4xlarge", 16); ("c5.9xlarge", 36);
    ("c5.large", 2); ("c5.xlarge", 4); ("c5d.18xlarge", 72); ("c5d.2xlarge", 8);
    ("c5d.4xlarge", 16); ("c5d.9xlarge", 36); ("c5d.large", 2); ("c5d.xlarge", 4);
    ("cc2.8xlarge", 32); ("cr1.8xlarge", 32); ("d2.2xlarge", 8); ("d2.4xlarge", 16);
    ("d2.8xlarge", 36); ("d2.xlarge", 4); ("f1.16xlarge", 64); ("f1.2xlarge", 8);
    ("g2.2xlarge", 8); ("g2.8xlarge", 32); ("g3.16xlarge", 64); ("g3.4xlarge", 16);
    ("g3.8xlarge", 32); ("h1.16xlarge", 64); ("h1.2xlarge", 8); ("h1.4xlarge", 16);
    ("h1.8xlarge", 32); ("hs1.8xlarge", 16); ("i2.2xlarge", 8); ("i2.4xlarge", 16);
    ("i2.8xlarge", 32); ("i2.xlarge", 4); ("i3.16xlarge", 64); ("i3.2xlarge", 8);
    ("i3.4xlarge", 16); ("i3.8xlarge", 32); ("i3.large", 2); ("i3.metal", 72);
    ("i3.xlarge", 4); ("m1.large", 2); ("m1.medium", 1); ("m1.small", 1);
    ("m1.xlarge", 4); ("m2.2xlarge", 4); ("m2.4xlarge", 8); ("m2.xlarge", 2);
    ("m3.2xlarge", 8); ("m3.large", 2); ("m3.medium", 1); ("m3.xlarge", 4);
    ("m4.10xlarge", 40); ("m4.16xlarge", 64); ("m4.2xlarge", 8); ("m4.4xlarge", 16);
    ("m4.large", 2); ("m4.xlarge", 4); ("m5.12xlarge", 48); ("m5.24xlarge", 96);
    ("m5.2xlarge", 8); ("m5.4xlarge", 16); ("m5.large", 2); ("m5.xlarge", 4);
    ("m5d.12xlarge", 48); ("m5d.24xlarge", 96); ("m5d.2xlarge", 8); ("m5d.4xlarge", 16);
    ("m5d.large", 2); ("m5d.xlarge", 4); ("p2.16xlarge", 64); ("p2.8xlarge", 32);
    ("p2.xlarge", 4); ("p3.16xlarge", 64); ("p3.2xlarge", 8); ("p3.8xlarge", 32);
    ("r3.2xlarge", 8); ("r3.4xlarge", 16); ("r3.8xlarge", 32); ("r3.large", 2);
    ("r3.xlarge", 4); ("r4.16xlarge", 64); ("r4.2xlarge", 8); ("r4.4xlarge", 16);
    ("r4.8xlarge", 32); ("r4.large", 2); ("r4.xlarge", 4); ("r5.12xlarge", 48);
    ("r5.24xlarge", 96); ("r5.2xlarge", 8); ("r5.4xlarge", 16); ("r5.large", 2);
    ("r5.xlarge", 4); ("r5d.12xlarge", 48); ("r5d.24xlarge", 96); ("r5d.2xlarge", 8);
    ("r5d.4xlarge", 16); ("r5d.large", 2); ("r5d.xlarge", 4); ("t1.micro", 1);
    ("t2.2xlarge", 8); ("t2.large", 2); ("t2.medium", 2); ("t2.micro", 1);
    ("t2.nano", 1); ("t2.small", 1); ("t2.xlarge", 4); ("x1.16xlarge", 64);
    ("x1.32xlarge", 128); ("x1e.16xlarge", 64); ("x1e.2xlarge", 8);
    ("x1e.32xlarge", 128); ("x1e.4xlarge", 16); ("x1e.8xlarge", 32); ("x1e.xlarge", 4);
    ("z1d.12xlarge", 48); ("z1d.2xlarge", 8); ("z1d.3xlarge", 12); ("z1d.6xlarge", 24);
    ("z1d.large", 2); ("z1d.xlarge", 4)
  ].

(** [CORES_PER_INSTANCE = {instance.api_name: instance.vCPUs for ...}] *)
Definition CORES_PER_INSTANCE : gmap string Z := list_to_map INSTANCE_TYPES.

(* The table is looked up by evaluation only; proofs take its entries from
   hypotheses. *)
#[global] Opaque CORES_PER_INSTANCE.

(** ** Prices *)

(** [float(n)] of an integer below 2^63 in magnitude; the numbers of cores
    of the table, from 1 to 128, are converted exactly. *)
Definition float_of_Z (n : Z) : float :=
  if n <? 0 then (- of_uint63 (Uint63.of_Z (- n)))%float
  else of_uint63 (Uint63.of_Z n).

(** [price / cores] of a float by an integer: the quotient rounded to the
    nearest binary64 value. The divisor is a number of cores of the table,
    which is at least 1, so that Python's division does not raise. *)
Definition per_core (price : float) (cores : Z) : float :=
  (price / float_of_Z cores)%float.

(** Python's [min(a, b)]: [b] only when [b < a]. *)
Definition py_min (a b : float) : float := if (b <? a)%float then b else a.

(** The parsed JSON under a price key: region -> zone -> samples, the most
    recent first, both levels in the order of the document. *)
Definition PriceData : Type := list (string * list (string * list float)).

(** A value of the redis cache. *)
Inductive CacheValue : Type :=
  | CPrices (data : PriceData)    (* a JSON document of price samples *)
  | CBytes (s : string).          (* any other string *)

Definition Cache : Type := gmap string (CacheValue * option Z).

Definition cache_get (cache : Cache) (key : string) : option CacheValue :=
  fst <$> cache !! key.

Definition cache_set (cache : Cache) (key : string) (v : CacheValue) (ex : option Z) : Cache :=
  <[key := (v, ex)]> cache.

Definition price_key (instance_type : string) : string :=
  "ec2spot:price:" +:+ instance_type.

Definition blacklist_key (zone instance_type : string) : string :=
  "ec2spot:blacklist:" +:+ zone +:+ ":" +:+ instance_type.

Definition ami_key (region image_name : string) : string :=
  "ec2spot:ami:" +:+ region +:+ ":" +:+ image_name.

(** ** models.py *)

(** Modelled from the spec: [INSTANCE_STATE] of models.py, which is not among
    the sources; the values are those of the instance state code table. *)
Definition INSTANCE_STATE_pending : Z := 0.
Definition INSTANCE_STATE_running : Z := 16.
Definition INSTANCE_STATE_shutting_down : Z := 32.
Definition INSTANCE_STATE_terminated : Z := 48.
Definition INSTANCE_STATE_stopping : Z := 64.
Definition INSTANCE_STATE_stopped : Z := 80.
Definition INSTANCE_STATE_requested : Z := 256.

(** Modelled from the spec: the keys of [POOL_STATUS_ENTRY_TYPE] of models.py,
    a closed set of five entry types. *)
Inductive StatusType : Type :=
  | price_too_low
  | config_error
  | unclassified
  | max_spot_instance_count_exceeded
  | temporary_failure.

#[global] Instance StatusType_eq_dec : EqDecision StatusType.
Proof. solve_decision. Defined.

(** Modelled from the spec: the [Instance] model of models.py, with the
    fields of the data model (primary key, pool, [ec2_instance_id],
    [ec2_region], [ec2_zone], [hostname], [size], [status_code], [created])
    and no other attribute. *)
Record Instance : Type := mkInstance {
  inst_pk : Z;
  inst_pool : Z;
  ec2_instance_id : string;
  ec2_region : string;
  ec2_zone : string;
  hostname : option string;
  inst_size : Z;
  status_code : Z;
  created : Z
}.

Definition set_status_code (i : Instance) (c : Z) : Instance :=
  mkInstance (inst_pk i) (inst_pool i) (ec2_instance_id i) (ec2_region i) (ec2_zone i)
             (hostname i) (inst_size i) c (created i).

Definition set_hostname (i : Instance) (h : option string) : Instance :=
  mkInstance (inst_pk i) (inst_pool i) (ec2_instance_id i) (ec2_region i) (ec2_zone i)
             h (inst_size i) (status_code i) (created i).

Definition set_ec2_instance_id (i : Instance) (id : string) : Instance :=
  mkInstance (inst_pk i) (inst_pool i) id (ec2_region i) (ec2_zone i)
             (hostname i) (inst_size i) (status_code i) (created i).

(** The parts of a status message: literal text, a number formatted with
    [%s], and the text of [traceback.format_exc()]. *)
Inductive MsgPart : Type :=
  | MStr (s : string)
  | MNum (x : float)
  | MTraceback.

(** Modelled from the spec: the [PoolStatusEntry] model of models.py;
    [isCritical] is false unless set. *)
Record PoolStatusEntry : Type := mkEntry {
  entry_pool : Z;
  entry_type : StatusType;
  isCritical : bool;
  entry_msg : list MsgPart;
  entry_created : Z
}.

(** The flattened pool configuration, [instance_pool.config.flatten()];
    of models.py, which is not among the sources, the fields are those of
    the specification, and [ec2_max_price] is a float as the samples of
    the price documents are. *)
Record Config : Type := mkConfig {
  cfg_size : Z;
  cycle_interval : Z;
  ec2_allowed_regions : list string;
  ec2_instance_types : list string;
  ec2_max_price : float;
  ec2_key_name : string;
  ec2_image_name : string;
  ec2_security_groups : string;
  ec2_tags : list (string * string);
  ec2_userdata : string;
  ec2_userdata_macros : list (string * string);
  ec2_raw_config : list (string * string)
}.

Definition set_ec2_instance_types (c : Config) (ts : list string) : Config :=
  mkConfig (cfg_size c) (cycle_interval c) (ec2_allowed_regions c) ts (ec2_max_price c)
           (ec2_key_name c) (ec2_image_name c) (ec2_security_groups c) (ec2_tags c)
           (ec2_userdata c) (ec2_userdata_macros c) (ec2_raw_config c).

Definition set_ec2_tags (c : Config) (tags : list (string * string)) : Config :=
  mkConfig (cfg_size c) (cycle_interval c) (ec2_allowed_regions c) (ec2_instance_types c)
           (ec2_max_price c) (ec2_key_name c) (ec2_image_name c) (ec2_security_groups c)
           tags (ec2_userdata c) (ec2_userdata_macros c) (ec2_raw_config c).

(** Modelled from the spec: the [InstancePool] model of models.py. Its
    configuration is kept as what the reconciler asks of it: [isCyclic()],
    [getMissingParameters()] and [flatten()]. *)
Record InstancePool : Type := mkPool {
  pool_pk : Z;
  isEnabled : bool;
  last_cycled : option Z;
  config_isCyclic : bool;
  config_getMissingParameters : list string;
  config_flatten : Config
}.

Definition set_last_cycled (p : InstancePool) (t : option Z) : InstancePool :=
  mkPool (pool_pk p) (isEnabled p) t (config_isCyclic p)
         (config_getMissingParameters p) (config_flatten p).

(** ** The provider *)

(** A [boto.ec2.instance.Instance]. *)
Record BotoInstance : Type := mkBoto {
  boto_id : string;
  boto_state_code : Z;
  public_dns_name : string;
  boto_tags : list (string * string)
}.

(** What [check_spot_requests] returns for one request. *)
Inductive SpotResult : Type :=
  | SpotInstance (b : BotoInstance)
  | SpotInstanceRequest (state : string) (status : string) (launch_instance_type : string)
  | SpotNone
  | SpotOther.

(** The calls made to laniakea's [EC2Manager] and to boto objects. *)
Inductive ProviderCall : Type :=
  | Pconnect (region : string)
  | Pcheck_spot_requests (region : string) (requested : list string)
                         (tags : list (string * string))
  | Pfind_by_pool (region : string) (pool_pk : string)
  | Pfind_by_ids (region : string) (instance_ids : list string)
  | Pterminate (region : string) (boto_instances : list BotoInstance)
  | Padd_tag (instance_id : string) (key value : string)
  | Presolve_image_name (region : string) (image_name : string)
  | Pcreate_spot_requests (region zone instance_type : string) (count : Z)
                          (price : float) (images : list (string * string)).

(** The answers of the provider; the first argument is the number of
    provider calls made before this one. *)
Record Provider : Type := mkProvider {
  connect : nat -> string -> res unit;
  check_spot_requests : nat -> string -> list string -> res (list SpotResult);
  find_by_pool : nat -> string -> string -> res (list BotoInstance);
  find_by_ids : nat -> string -> list string -> res (list BotoInstance);
  terminate : nat -> string -> list BotoInstance -> res unit;
  add_tag : nat -> string -> res unit;
  resolve_image_name : nat -> string -> string -> res string;
  create_spot_requests : nat -> string -> string -> string -> Z -> res (list string)
}.

(** ** The world *)

Inductive Event : Type :=
  | EvProvider (n : nat) (c : ProviderCall)
  | EvUpdate (pool : Z)                                (* _update_pool_instances entered *)
  | EvStart (pool : Z) (count : Z)                     (* _start_pool_instances entered *)
  | EvTerminate (pool : Z) (instances : list Instance) (* _terminate_pool_instances entered *)
                (terminateByPool : bool).

Record World : Type := mkWorld {
  db_instances : list Instance;       (* the Instance table, in row order *)
  db_next_pk : Z;                     (* the next primary key of the table *)
  db_entries : list PoolStatusEntry;  (* the PoolStatusEntry table *)
  db_pools : list InstancePool;       (* the InstancePool table *)
  redis : Cache;
  locks : list Z;                     (* pools whose lock file is held *)
  now : Z;                            (* timezone.now(), in seconds *)
  calls : nat;                        (* provider calls made so far *)
  trace : list Event                  (* what happened, oldest first *)
}.

Definition with_instances (f : list Instance -> list Instance) (w : World) : World :=
  mkWorld (f (db_instances w)) (db_next_pk w) (db_entries w) (db_pools w) (redis w)
          (locks w) (now w) (calls w) (trace w).

Definition with_entries (f : list PoolStatusEntry -> list PoolStatusEntry) (w : World) : World :=
  mkWorld (db_instances w) (db_next_pk w) (f (db_entries w)) (db_pools w) (redis w)
          (locks w) (now w) (calls w) (trace w).

Definition with_pools (f : list InstancePool -> list InstancePool) (w : World) : World :=
  mkWorld (db_instances w) (db_next_pk w) (db_entries w) (f (db_pools w)) (redis w)
          (locks w) (now w) (calls w) (trace w).

Definition with_redis (f : Cache -> Cache) (w : World) : World :=
  mkWorld (db_instances w) (db_next_pk w) (db_entries w) (db_pools w) (f (redis w))
          (locks w) (now w) (calls w) (trace w).

Definition with_locks (f : list Z -> list Z) (w : World) : World :=
  mkWorld (db_instances w) (db_next_pk w) (db_entries w) (db_pools w) (redis w)
          (f (locks w)) (now w) (calls w) (trace w).

Definition emit (e : Event) (w : World) : World :=
  mkWorld (db_instances w) (db_next_pk w) (db_entries w) (db_pools w) (redis w)
          (locks w) (now w) (calls w) (trace w ++ [e]).

(** ** The monad of the tasks: state and exceptions *)

Definition M (A : Type) : Type := World -> res A * World.

Definition ret {A} (a : A) : M A := fun w => (Ok a, w).

Definition raise {A} (e : exn) : M A := fun w => (Raise e, w).

Definition bind {A B} (m : M A) (k : A -> M B) : M B :=
  fun w => match m w with
           | (Ok a, w') => k a w'
           | (Raise e, w') => (Raise e, w')
           end.

Definition gets {A} (f : World -> A) : M A := fun w => (Ok (f w), w).

Definition modify (f : World -> World) : M unit := fun w => (Ok tt, f w).

(** [try: m except ...: h]: the handler [h e] is [None] for an exception no
    clause matches. *)
Definition try_except {A} (m : M A) (h : exn -> option (M A)) : M A :=
  fun w => match m w with
           | (Raise e, w') => match h e with
                              | Some k => k w'
                              | None => (Raise e, w')
                              end
           | r => r
           end.

(** [try: m finally: c], for a [c] that does not raise. *)
Definition try_finally {A} (m : M A) (c : World -> World) : M A :=
  fun w => let (r, w') := m w in (r, c w').

Definition of_res {A} (r : res A) : M A := fun w => (r, w).

Definition of_option {A} (e : exn) (o : option A) : M A :=
  match o with Some a => ret a | None => raise e end.

Notation "x <- m ;; k" := (bind m (fun x => k))
  (at level 100, m at next level, right associativity).
Notation "m ;;; k" := (bind m (fun _ => k))
  (at level 100, right associativity).

(** How the body of a [for] loop ends: the next iteration ([continue] or
    falling through), or a [return] from the enclosing function. *)
Inductive flow (S R : Type) : Type :=
  | Next (s : S)
  | Return (r : R).
Arguments Next {S R} s.
Arguments Return {S R} r.

(** [for x in l: body], with the local variables [s] the body assigns. The
    result is [inl] of the locals after the loop, or [inr] of the value of a
    [return] inside it. *)
Fixpoint for_each {X S R} (l : list X) (body : X -> S -> M (flow S R)) (s : S)
  : M (S + R) :=
  match l with
  | [] => ret (inl s)
  | x :: rest =>
      f <- body x s ;;
      match f with
      | Next s' => for_each rest body s'
      | Return r => ret (inr r)
      end
  end.

(** A [for] loop whose body neither breaks nor returns. *)
Fixpoint for_fold {X S} (l : list X) (body : X -> S -> M S) (s : S) : M S :=
  match l with
  | [] => ret s
  | x :: rest => s' <- body x s ;; for_fold rest body s'
  end.

(** [str(n)] and [int(s)] for decimal integers. *)
Definition py_str (n : Z) : string := NilZero.string_of_int (Z.to_int n).

Definition py_int (s : string) : res Z :=
  match NilZero.int_of_string s with
  | Some d => Ok (Z.of_int d)
  | None => Raise ValueError
  end.

(** *** The database (Django's ORM) *)

Definition same_pk (i j : Instance) : bool := inst_pk i =? inst_pk j.

(** [Instance.objects.filter(pool=pool)] *)
Definition Instance_filter_pool (pool : Z) : M (list Instance) :=
  gets (fun w => List.filter (fun i => inst_pool i =? pool) (db_instances w)).

(** [Instance.objects.filter(ec2_instance_id=id)] *)
Definition Instance_filter_ec2_id (id : string) : M (list Instance) :=
  gets (fun w => List.filter (fun i => String.eqb (ec2_instance_id i) id) (db_instances w)).

(** [instance.save()] of a loaded instance: the row of its primary key is
    rewritten, and inserted when it is gone. *)
Definition Instance_save (i : Instance) : M unit :=
  modify (with_instances (fun rows =>
    if existsb (same_pk i) rows
    then map (fun r => if same_pk i r then i else r) rows
    else rows ++ [i])).

(** [instance.delete()] *)
Definition Instance_delete (i : Instance) : M unit :=
  modify (with_instances (List.filter (fun r => negb (same_pk i r)))).

(** [instance = Instance(); ...; instance.save()]: a new row, with a fresh
    primary key, created now, [hostname] unset. *)
Definition Instance_create (pool : Z) (id region zone : string) (code size : Z) : M unit :=
  modify (fun w =>
    mkWorld (db_instances w ++
               [mkInstance (db_next_pk w) pool id region zone None size code (now w)])
            (db_next_pk w + 1) (db_entries w) (db_pools w) (redis w)
            (locks w) (now w) (calls w) (trace w)).

(** [entry = PoolStatusEntry(); ...; entry.save()] *)
Definition Entry_create (pool : Z) (type : StatusType) (critical : bool)
    (msg : list MsgPart) : M unit :=
  modify (fun w => with_entries (fun es => es ++ [mkEntry pool type critical msg (now w)]) w).

Definition entry_is (pool : Z) (type : StatusType) (e : PoolStatusEntry) : bool :=
  (entry_pool e =? pool) && bool_decide (entry_type e = type).

(** [PoolStatusEntry.objects.filter(pool=pool, type=type)] *)
Definition Entry_filter_type (pool : Z) (type : StatusType) : M (list PoolStatusEntry) :=
  gets (fun w => List.filter (entry_is pool type) (db_entries w)).

(** [PoolStatusEntry.objects.filter(pool=pool, isCritical=True)] *)
Definition Entry_filter_critical (pool : Z) : M (list PoolStatusEntry) :=
  gets (fun w => List.filter (fun e => (entry_pool e =? pool) && isCritical e) (db_entries w)).

(** [PoolStatusEntry.objects.filter(pool=pool, type=type).delete()] *)
Definition Entry_delete_type (pool : Z) (type : StatusType) : M unit :=
  modify (with_entries (List.filter (fun e => negb (entry_is pool type e)))).

(** [InstancePool.objects.get(pk=pool_pk)] *)
Definition Pool_get (pk : Z) : M InstancePool :=
  rows <- gets (fun w => List.filter (fun p => pool_pk p =? pk) (db_pools w)) ;;
  match rows with
  | p :: _ => ret p
  | [] => raise DoesNotExist
  end.

(** [instance_pool.save()] *)
Definition Pool_save (p : InstancePool) : M unit :=
  modify (with_pools (map (fun r => if pool_pk r =? pool_pk p then p else r))).

(** [timezone.now()] *)
Definition timezone_now : M Z := gets now.

(** One provider call: it is numbered, recorded and answered. *)
Definition provider_call {A} (c : ProviderCall) (answer : nat -> res A) : M A :=
  fun w => (answer (calls w),
            mkWorld (db_instances w) (db_next_pk w) (db_entries w) (db_pools w) (redis w)
                    (locks w) (now w) (Datatypes.S (calls w))
                    (trace w ++ [EvProvider (calls w) c])).

(** Truth of a Python list. *)
Definition nonempty {A} (l : list A) : bool :=
  match l with [] => false | _ :: _ => true end.

(** ** tasks.py *)

Definition SPOTMGR_TAG : string := "SpotManager".

(** The local variables of [_get_best_region_zone]. *)
Record Selection : Type := mkSelection {
  best_zone : option string;
  best_region : option string;
  best_type : option string;
  best_median : option float;
  rejected_prices : list (string * float)
}.

Definition Selection_init : Selection := mkSelection None None None None [].

(** [[price / CORES_PER_INSTANCE[instance_type] for price in series]] *)
Fixpoint prices_per_core (instance_type : string) (series : list float)
  : res (list float) :=
  match series with
  | [] => Ok []
  | price :: rest =>
      match CORES_PER_INSTANCE !! instance_type with
      | None => Raise KeyError
      | Some cores =>
          match prices_per_core instance_type rest with
          | Ok ps => Ok (per_core price cores :: ps)
          | Raise e => Raise e
          end
      end
  end.

Section Tasks.

(** [get_price_median] of common/prices.py and [UserData.handle_tags] of
    laniakea are not among the sources; the provider answers as it likes. *)
Variable get_price_median : list float -> float.
Variable handle_tags : string -> list (string * string) -> string.
Variable P : Provider.

(** The body of [for zone in data[region]]. *)
Definition select_zone (config : Config) (cache : Cache)
    (instance_type region zone : string) (series : list float) (st : Selection)
  : res Selection :=
  match cache_get cache (blacklist_key zone instance_type) with
  | Some _ => Ok st
  | None =>
      match prices_per_core instance_type series with
      | Raise e => Raise e
      | Ok [] => Raise IndexError
      | Ok ((p0 :: _) as prices) =>
          if (ec2_max_price config <? p0)%float then
            (* the default 9999 is an integer, compared by its value *)
            Ok (mkSelection (best_zone st) (best_region st) (best_type st) (best_median st)
                  (dict_set (rejected_prices st) zone
                     (py_min (default 9999%float (dict_get (rejected_prices st) zone)) p0)))
          else
            let median := get_price_median prices in
            if match best_median st with
               | None => true
               | Some bm => (median <? bm)%float
               end
            then Ok (mkSelection (Some zone) (Some region) (Some instance_type)
                                 (Some median) (rejected_prices st))
            else Ok st
      end
  end.

Fixpoint select_zones (config : Config) (cache : Cache) (instance_type region : string)
    (zones : list (string * list float)) (st : Selection) : res Selection :=
  match zones with
  | [] => Ok st
  | (zone, series) :: rest =>
      match select_zone config cache instance_type region zone series st with
      | Ok st' => select_zones config cache instance_type region rest st'
      | Raise e => Raise e
      end
  end.

(** [for region in data], over the items of the parsed document. *)
Fixpoint select_regions (config : Config) (cache : Cache) (instance_type : string)
    (data : PriceData) (st : Selection) : res Selection :=
  match data with
  | [] => Ok st
  | (region, zones) :: rest =>
      if negb (str_in region (ec2_allowed_regions config)) then
        select_regions config cache instance_type rest st
      else
        match select_zones config cache instance_type region zones st with
        | Ok st' => select_regions config cache instance_type rest st'
        | Raise e => Raise e
        end
  end.

(** [for instance_type in config.ec2_instance_types]; a cached value that
    is no price document makes [json.loads] or the loops over it fail. *)
Fixpoint select_types (config : Config) (cache : Cache) (types : list string)
    (st : Selection) : res Selection :=
  match types with
  | [] => Ok st
  | instance_type :: rest =>
      match cache_get cache (price_key instance_type) with
      | None => select_types config cache rest st
      | Some (CBytes _) => Raise ValueError
      | Some (CPrices data) =>
          match select_regions config cache instance_type data st with
          | Ok st' => select_types config cache rest st'
          | Raise e => Raise e
          end
      end
  end.

Definition best_region_zone (config : Config) (cache : Cache)
  : res (option string * option string * option string * list (string * float)) :=
  match select_types config cache (ec2_instance_types config) Selection_init with
  | Ok st => Ok (best_region st, best_zone st, best_type st, rejected_prices st)
  | Raise e => Raise e
  end.

Definition _get_best_region_zone (config : Config)
  : M (option string * option string * option string * list (string * float)) :=
  cache <- gets redis ;;
  of_res (best_region_zone config cache).

(** *** Status entries for provider errors *)

(** The handler of [except (boto.exception.EC2ResponseError,
    boto.exception.BotoServerError, ssl.SSLError, socket.error) as msg], the
    same in [_start_pool_instances] and in [_update_pool_instances]. *)
Definition report_boto_error (pool : Z) (e : exn) : M unit :=
  if substring_in "MaxSpotInstanceCountExceeded" (exn_str e) then
    existing <- Entry_filter_type pool max_spot_instance_count_exceeded ;;
    if nonempty existing then ret tt
    else Entry_create pool max_spot_instance_count_exceeded false
           [MStr "Auto-selected region exceeded its maximum spot instance count."]
  else if substring_in "Service Unavailable" (exn_str e) then
    Entry_create pool temporary_failure false
      [MStr ("Temporary failure occurred: " +:+ exn_str e)]
  else
    Entry_create pool unclassified true
      [MStr ("Unclassified error occurred: " +:+ exn_str e)].

(** [cluster.connect(...)] under [except Exception as msg]: an unclassified
    critical entry is written, and [false] tells the caller to return. *)
Definition connect_or_report (pool : Z) (region : string) : M bool :=
  try_except
    (provider_call (Pconnect region) (fun n => connect P n region) ;;; ret true)
    (fun e => Some (Entry_create pool unclassified true [MStr (exn_str e)] ;;; ret false)).

(** *** _get_instance_ids_by_region, _get_instances_by_ids *)

Fixpoint ids_by_region_loop (instances : list Instance)
    (instance_ids_by_region : list (string * list string)) : list (string * list string) :=
  match instances with
  | [] => instance_ids_by_region
  | instance :: rest =>
      let d := if dict_has instance_ids_by_region (ec2_region instance)
               then instance_ids_by_region
               else dict_set instance_ids_by_region (ec2_region instance) [] in
      ids_by_region_loop rest
        (dict_set d (ec2_region instance)
           (default [] (dict_get d (ec2_region instance)) ++ [ec2_instance_id instance]))
  end.

Definition _get_instance_ids_by_region (instances : list Instance)
  : list (string * list string) :=
  ids_by_region_loop instances [].

Definition _get_instances_by_ids (instances : list Instance) : list (string * Instance) :=
  fold_left (fun d instance => dict_set d (ec2_instance_id instance) instance) instances [].

(** *** _create_laniakea_images: the dictionary [images["default"]] *)

Definition _create_laniakea_images (config : Config) : list (string * string) :=
  let images := [("key_name", ec2_key_name config);
                 ("image_name", ec2_image_name config);
                 ("security_groups", ec2_security_groups config)] in
  fold_left (fun d kv => dict_set d (fst kv) (snd kv)) (ec2_raw_config config) images.

(** *** _start_pool_instances *)

(** The local variables of the filter of machine sizes. *)
Record Sizes : Type := mkSizes {
  smallest : list string;
  smallest_size : option Z;
  acceptable_types : list string
}.

Fixpoint filter_sizes (types : list string) (count : Z) (st : Sizes) : res Sizes :=
  match types with
  | [] => Ok st
  | instance_type :: rest =>
      match CORES_PER_INSTANCE !! instance_type with
      | None => Raise KeyError
      | Some instance_size =>
          let acceptable := if instance_size <=? count
                            then acceptable_types st ++ [instance_type]
                            else acceptable_types st in
          if negb (nonempty (smallest st))
             || match smallest_size st with Some s => instance_size <? s | None => false end
          then filter_sizes rest count (mkSizes [instance_type] (Some instance_size) acceptable)
          else if match smallest_size st with Some s => instance_size =? s | None => false end
          then filter_sizes rest count
                 (mkSizes (smallest st ++ [instance_type]) (smallest_size st) acceptable)
          else filter_sizes rest count (mkSizes (smallest st) (smallest_size st) acceptable)
      end
  end.

(** Truth of a region: [None] and the empty string are false. *)
Definition truthy (s : option string) : bool :=
  match s with
  | None => false
  | Some x => negb (String.eqb x "")
  end.

Definition price_too_low_msg (rejected : list (string * float)) : list MsgPart :=
  MStr "No allowed region was cheap enough to spawn instances."
  :: flat_map (fun zp => [MStr "
"; MStr (fst zp); MStr " at "; MNum (snd zp)]) rejected.

Definition cache_text (v : CacheValue) : string :=
  match v with
  | CBytes s => s
  | CPrices _ => ""
  end.

(** Lines 317 to 354: connect and resolve the image, under
    [except ssl.SSLError] and [except Exception]; [None] tells the caller
    to return. *)
Definition connect_and_resolve (pool : Z) (region : string)
    (images : list (string * string)) : M (option (list (string * string))) :=
  try_except
    (provider_call (Pconnect region) (fun n => connect P n region) ;;;
     image_name <- of_option KeyError (dict_get images "image_name") ;;
     let ami_cache_key := ami_key region image_name in
     cached <- gets (fun w => cache_get (redis w) ami_cache_key) ;;
     ami <- match cached with
            | Some v => ret (cache_text v)
            | None =>
                ami <- provider_call (Presolve_image_name region image_name)
                         (fun n => resolve_image_name P n region image_name) ;;
                modify (with_redis (fun c =>
                  cache_set c ami_cache_key (CBytes ami) (Some (24 * 3600)))) ;;;
                ret ami
            end ;;
     ret (Some (dict_del (dict_set images "image_id" ami) "image_name")))
    (fun e =>
       match e with
       | SSLError msg =>
           Some (Entry_create pool temporary_failure false
                   [MStr ("Temporary failure occurred: " +:+ msg)] ;;;
                 ret None)
       | _ =>
           Some (Entry_create pool unclassified true [MStr (exn_str e)] ;;;
                 ret None)
       end).

(** Lines 356 to 397: the spot requests are made, and an instance is saved
    for every request the provider returns. *)
Definition request_spot_instances (pool : InstancePool) (config : Config)
    (region zone instance_type : string) (count cores : Z)
    (images : list (string * string)) : M unit :=
  try_except
    (requests <- provider_call
       (Pcreate_spot_requests region zone instance_type count
          (ec2_max_price config * float_of_Z cores)%float images)
       (fun n => create_spot_requests P n region zone instance_type count) ;;
     for_fold requests
       (fun ec2_request _ =>
          Instance_create (pool_pk pool) ec2_request region zone
            INSTANCE_STATE_requested cores)
       tt)
    (fun e => if is_boto_error e
              then Some (report_boto_error (pool_pk pool) e)
              else None).

Definition _start_pool_instances (pool : InstancePool) (config : Config) (count : Z)
  : M unit :=
  modify (emit (EvStart (pool_pk pool) count)) ;;;
  let images := _create_laniakea_images config in
  sizes <- of_res (filter_sizes (ec2_instance_types config) count (mkSizes [] None [])) ;;
  let config := set_ec2_instance_types config
                  (if nonempty (acceptable_types sizes)
                   then acceptable_types sizes else smallest sizes) in
  chosen <- try_except
              (r <- _get_best_region_zone config ;; ret (Some r))
              (fun e =>
                 if is_boto_error e then Some (ret None)
                 else match e with
                      | RuntimeError _ =>
                          Some (Entry_create (pool_pk pool) config_error true
                                  [MStr "Configuration error: "; MTraceback] ;;;
                                ret None)
                      | _ => None
                      end) ;;
  match chosen with
  | None => ret tt
  | Some (region, zone, instance_type, rejected) =>
      (* count = max(1, count // CORES_PER_INSTANCE[instance_type]) *)
      cores <- of_option KeyError
                 (match instance_type with
                  | Some t => CORES_PER_INSTANCE !! t
                  | None => None
                  end) ;;
      let count := Z.max 1 (count / cores) in
      priceLowEntries <- Entry_filter_type (pool_pk pool) price_too_low ;;
      if negb (truthy region) then
        if negb (nonempty priceLowEntries)
        then Entry_create (pool_pk pool) price_too_low false (price_too_low_msg rejected)
        else ret tt
      else
        (if nonempty priceLowEntries
         then Entry_delete_type (pool_pk pool) price_too_low
         else ret tt) ;;;
        let region := default "" region in
        let zone := default "" zone in
        let instance_type := default "" instance_type in
        let ec2_userdata_macros :=
          dict_set (dict_set (ec2_userdata_macros config)
                      "EC2SPOTMANAGER_POOLID" (py_str (pool_pk pool)))
                   "EC2SPOTMANAGER_CYCLETIME" (py_str (cycle_interval config)) in
        let userdata := handle_tags (ec2_userdata config) ec2_userdata_macros in
        (if String.eqb userdata ""
         then Entry_create (pool_pk pool) config_error true
                [MStr "Configuration error: Failed to compile userdata"] ;;;
              raise (RuntimeError "start_pool_instances: Failed to compile userdata")
         else ret tt) ;;;
        let images :=
          dict_set (dict_set (dict_set (dict_set images
            "user_data" userdata) "placement" zone) "count" (py_str count))
            "instance_type" instance_type in
        cluster <- connect_and_resolve (pool_pk pool) region images ;;
        match cluster with
        | None => ret tt
        | Some images =>
            request_spot_instances pool config region zone instance_type count cores images
        end
  end.

(** *** _terminate_pool_instances *)

Definition terminate_region (pool : InstancePool)
    (instance_ids_by_region : list (string * list string)) (terminateByPool : bool)
    (region : string) (_ : unit) : M (flow unit unit) :=
  connected <- connect_or_report (pool_pk pool) region ;;
  if negb connected then ret (Return tt)
  else
    try_except
      (if terminateByPool then
         boto_instances <- provider_call (Pfind_by_pool region (py_str (pool_pk pool)))
                             (fun n => find_by_pool P n region (py_str (pool_pk pool))) ;;
         provider_call (Pterminate region boto_instances)
           (fun n => terminate P n region boto_instances) ;;;
         ret (Next tt)
       else
         ids <- of_option KeyError (dict_get instance_ids_by_region region) ;;
         boto_instances <- provider_call (Pfind_by_ids region ids)
                             (fun n => find_by_ids P n region ids) ;;
         provider_call (Pterminate region boto_instances)
           (fun n => terminate P n region boto_instances) ;;;
         ret (Next tt))
      (fun e => if is_boto_error e then Some (ret (Return tt)) else None).

Definition _terminate_pool_instances (pool : InstancePool) (instances : list Instance)
    (terminateByPool : bool) : M unit :=
  modify (emit (EvTerminate (pool_pk pool) instances terminateByPool)) ;;;
  let instance_ids_by_region := _get_instance_ids_by_region instances in
  for_each (map fst instance_ids_by_region)
    (terminate_region pool instance_ids_by_region terminateByPool) tt ;;;
  ret tt.

(** *** _update_pool_instances *)

Record UpdateLocals : Type := mkLocals {
  instance_ids_by_region : list (string * list string);
  instances_by_ids : list (string * Instance);
  instances_left : list Instance;
  instances_created : bool
}.

(** [x in l] and [l.remove(x)] for model instances, which compare by
    primary key. *)
Definition instance_in (x : Instance) (l : list Instance) : bool :=
  existsb (same_pk x) l.

Fixpoint list_remove (x : Instance) (l : list Instance) : res (list Instance) :=
  match l with
  | [] => Raise ValueError
  | y :: r =>
      if same_pk y x then Ok r
      else match list_remove x r with
           | Ok r' => Ok (y :: r')
           | Raise e => Raise e
           end
  end.

(** The requests of a region that are still open:
    [instances_by_ids[instance_id].status_code == INSTANCE_STATE['requested']]. *)
Fixpoint requested_ids (instances_by_ids : list (string * Instance)) (ids : list string)
  : res (list string) :=
  match ids with
  | [] => Ok []
  | instance_id :: rest =>
      match dict_get instances_by_ids instance_id with
      | None => Raise KeyError
      | Some instance =>
          match requested_ids instances_by_ids rest with
          | Raise e => Raise e
          | Ok r => if status_code instance =? INSTANCE_STATE_requested
                    then Ok (instance_id :: r) else Ok r
          end
      end
  end.

(** The body of [for req_id, result in zip(requested, boto_results)]. *)
Definition update_spot_result (pool : InstancePool) (region : string)
    (rr : string * SpotResult) (L : UpdateLocals) : M UpdateLocals :=
  let (req_id, result) := rr in
  instance <- of_option KeyError (dict_get (instances_by_ids L) req_id) ;;
  match result with
  | SpotInstance b =>
      (* the spot request has been fulfilled *)
      let instance :=
        set_status_code
          (set_ec2_instance_id (set_hostname instance (Some (public_dns_name b)))
                               (boto_id b))
          (Z.land (boto_state_code b) 255) in
      Instance_save instance ;;;
      let by_ids := dict_set (dict_del (instances_by_ids L) req_id) (boto_id b) instance in
      ids <- of_option KeyError (dict_get (instance_ids_by_region L) region) ;;
      let by_region := dict_set (instance_ids_by_region L) region (ids ++ [boto_id b]) in
      provider_call (Padd_tag (boto_id b) (SPOTMGR_TAG +:+ "-Updatable") "1")
        (fun n => add_tag P n (boto_id b)) ;;;
      ret (mkLocals by_region by_ids (instances_left L) true)
  | SpotInstanceRequest state status launch_instance_type =>
      if str_in state ["cancelled"; "closed"] then
        (* the request was not fulfilled: blacklist this type and zone *)
        inst <- of_option KeyError (dict_get (instances_by_ids L) req_id) ;;
        modify (with_redis (fun c =>
          cache_set c (blacklist_key (ec2_zone inst) launch_instance_type)
                    (CBytes "") (Some (12 * 3600)))) ;;;
        Instance_delete inst ;;;
        ret L
      else if str_in state ["open"; "active"] then
        ret L
      else
        Entry_create (pool_pk pool) unclassified true
          [MStr ("Request " +:+ req_id +:+ " is " +:+ status +:+ " and "
                 +:+ state +:+ ".")] ;;;
        inst <- of_option KeyError (dict_get (instances_by_ids L) req_id) ;;
        Instance_delete inst ;;;
        ret L
  | SpotNone => ret L
  | SpotOther => ret L
  end.

(** [SPOTMGR_TAG + "-Updatable" not in boto_instance.tags or
    int(boto_instance.tags[SPOTMGR_TAG + "-Updatable"]) <= 0] *)
Definition not_updatable (b : BotoInstance) : res bool :=
  match dict_get (boto_tags b) (SPOTMGR_TAG +:+ "-Updatable") with
  | None => Ok true
  | Some v => match py_int v with
              | Ok n => Ok (n <=? 0)
              | Raise e => Raise e
              end
  end.

(** Truth of a hostname: unset and empty are false. *)
Definition has_hostname (i : Instance) : bool :=
  match hostname i with
  | None => false
  | Some h => negb (String.eqb h "")
  end.

(** The body of [for boto_instance in boto_instances]. *)
Definition update_boto_instance (pool : InstancePool) (region : string)
    (boto_instance : BotoInstance) (L : UpdateLocals) : M UpdateLocals :=
  let state_code := Z.land (boto_state_code boto_instance) 255 in
  skip <- of_res (not_updatable boto_instance) ;;
  ids <- of_option KeyError (dict_get (instance_ids_by_region L) region) ;;
  if (skip : bool) then
    (* not marked as updatable: a spawning thread still manages it *)
    if str_in (boto_id boto_instance) ids then
      instance <- of_option KeyError
                    (dict_get (instances_by_ids L) (boto_id boto_instance)) ;;
      left <- of_res (list_remove instance (instances_left L)) ;;
      ret (mkLocals (instance_ids_by_region L) (instances_by_ids L) left
                    (instances_created L))
    else ret L
  else if negb (str_in (boto_id boto_instance) ids) then
    if negb (existsb (Z.eqb state_code)
               [INSTANCE_STATE_shutting_down; INSTANCE_STATE_terminated])
    then
      q <- Instance_filter_ec2_id (boto_id boto_instance) ;;
      if nonempty q then ret L
      else raise AssertionError   (* assert(False) *)
    else ret L
  else
    instance <- of_option KeyError
                  (dict_get (instances_by_ids L) (boto_id boto_instance)) ;;
    left <- (if instance_in instance (instances_left L)
             then of_res (list_remove instance (instances_left L))
             else ret (instances_left L)) ;;
    (* check the status code and update if necessary *)
    instance <- (if negb (status_code instance =? state_code)
                 then let instance := set_status_code instance state_code in
                      Instance_save instance ;;; ret instance
                 else ret instance) ;;
    (* if we don't have a hostname yet, update it *)
    instance <- (if negb (has_hostname instance)
                 then let instance :=
                        set_hostname instance (Some (public_dns_name boto_instance)) in
                      Instance_save instance ;;; ret instance
                 else ret instance) ;;
    ret (mkLocals (instance_ids_by_region L)
                  (dict_set (instances_by_ids L) (boto_id boto_instance) instance)
                  left (instances_created L)).

(** The body of [for region in instance_ids_by_region]; [Return] is the
    [return] after a failure. *)
Definition update_region (pool : InstancePool) (config : Config) (region : string)
    (L : UpdateLocals) : M (flow UpdateLocals unit) :=
  connected <- connect_or_report (pool_pk pool) region ;;
  if negb connected then ret (Return tt)
  else
    try_except
      ((* first check the status of pending spot requests *)
       ids <- of_option KeyError (dict_get (instance_ids_by_region L) region) ;;
       requested <- of_res (requested_ids (instances_by_ids L) ids) ;;
       L <- (if nonempty requested then
               boto_results <- provider_call
                 (Pcheck_spot_requests region requested (ec2_tags config))
                 (fun n => check_spot_requests P n region requested) ;;
               for_fold (combine requested boto_results)
                        (update_spot_result pool region) L
             else ret L) ;;
       boto_instances <- provider_call (Pfind_by_pool region (py_str (pool_pk pool)))
                           (fun n => find_by_pool P n region (py_str (pool_pk pool))) ;;
       L <- for_fold boto_instances (update_boto_instance pool region) L ;;
       ret (Next L))
      (fun e => if is_boto_error e
                then Some (report_boto_error (pool_pk pool) e ;;; ret (Return tt))
                else None).

(** The loop over the regions, from the entry of the function. *)
Definition update_regions (pool : InstancePool) (config : Config)
  : M (UpdateLocals + unit) :=
  instances <- Instance_filter_pool (pool_pk pool) ;;
  let instance_ids_by_region := _get_instance_ids_by_region instances in
  let instances_by_ids := _get_instances_by_ids instances in
  let instances_left :=
    List.filter (fun instance =>
                   negb (status_code instance =? INSTANCE_STATE_requested))
                (map snd instances_by_ids) in
  (* set the pool tag in case we set tags on fulfilled spot requests *)
  let config := set_ec2_tags config
                  (dict_set (ec2_tags config) (SPOTMGR_TAG +:+ "-PoolId")
                            (py_str (pool_pk pool))) in
  for_each (map fst instance_ids_by_region) (update_region pool config)
    (mkLocals instance_ids_by_region instances_by_ids instances_left false).

(** The end of the function, reached when no region failed: the instances
    left over are deleted, and the warnings a fulfilled request makes
    stale are cleared. *)
Definition update_finish (pool : InstancePool) (L : UpdateLocals) : M unit :=
  for_fold (instances_left L) (fun instance _ => Instance_delete instance) tt ;;;
  if instances_created L then
    Entry_delete_type (pool_pk pool) max_spot_instance_count_exceeded ;;;
    Entry_delete_type (pool_pk pool) temporary_failure
  else ret tt.

(** The function returns nothing; the model returns whether it ran to its
    end ([true]) or returned after a failure in a region ([false]). *)
Definition _update_pool_instances (pool : InstancePool) (config : Config) : M bool :=
  modify (emit (EvUpdate (pool_pk pool))) ;;;
  r <- update_regions pool config ;;
  match r with
  | inr _ => ret false
  | inl L => update_finish pool L ;;; ret true
  end.

(** *** check_instance_pool *)

Record CountLocals : Type := mkCount {
  instance_cores_missing : Z;
  running_instances : list Instance
}.

(** The body of [for instance in instances], lines 63 to 93. *)
Definition count_instance (instance : Instance) (L : CountLocals) : M CountLocals :=
  let instance_status_code_fixed := 256 <=? status_code instance in
  let instance := if instance_status_code_fixed
                  then set_status_code instance (status_code instance - 256)
                  else instance in
  if existsb (Z.eqb (status_code instance))
       [INSTANCE_STATE_running; INSTANCE_STATE_pending; INSTANCE_STATE_requested]
  then
    ret (mkCount (instance_cores_missing L - inst_size instance)
                 (running_instances L ++ [instance]))
  else if existsb (Z.eqb (status_code instance))
            [INSTANCE_STATE_shutting_down; INSTANCE_STATE_terminated]
  then
    (* the instance is no longer running, delete it from our database *)
    Instance_delete instance ;;;
    ret L
  else
    (* restore the original status code for error reporting *)
    let instance := if instance_status_code_fixed
                    then set_status_code instance (status_code instance + 256)
                    else instance in
    (* reset the status code to 0, consider the instance still present *)
    let instance := set_status_code instance 0 in
    Instance_save instance ;;;
    ret (mkCount (instance_cores_missing L - inst_size instance)
                 (running_instances L ++ [instance])).

(** [.order_by('created')]: the rows sorted by [created], rows created at
    the same time in table order. *)
Fixpoint insert_by_created (x : Instance) (l : list Instance) : list Instance :=
  match l with
  | [] => [x]
  | y :: r => if created x <=? created y then x :: y :: r
              else y :: insert_by_created x r
  end.

Definition order_by_created (l : list Instance) : list Instance :=
  fold_right insert_by_created [] l.

(** Lines 120 to 129: the oldest instances whose sizes fit the excess. *)
Fixpoint select_oldest (ordered : list Instance) (instance_cores_missing : Z)
    (instances : list Instance) : list Instance * Z :=
  match ordered with
  | [] => (instances, instance_cores_missing)
  | instance :: rest =>
      if 0 <? instance_cores_missing + inst_size instance then
        (* this instance would leave us short of cores, let it run *)
        select_oldest rest instance_cores_missing instances
      else
        let instances := instances ++ [instance] in
        let instance_cores_missing := instance_cores_missing + inst_size instance in
        if instance_cores_missing =? 0 then (instances, instance_cores_missing)
        else select_oldest rest instance_cores_missing instances
  end.

(** [instance.count]: the model [Instance] has no such attribute. *)
Definition getattr_count (instance : Instance) : res Z := Raise AttributeError.

(** [sum(instance.count for instance in instances)] *)
Fixpoint sum_counts (instances : list Instance) : res Z :=
  match instances with
  | [] => Ok 0
  | instance :: rest =>
      match getattr_count instance with
      | Raise e => Raise e
      | Ok c => match sum_counts rest with
                | Ok s => Ok (c + s)
                | Raise e => Raise e
                end
      end
  end.

(** Lines 113 to 136: scale up or down by the cores missing. *)
Definition scale_pool (instance_pool : InstancePool) (config : Config)
    (instance_cores_missing : Z) : M unit :=
  if 0 <? instance_cores_missing then
    _start_pool_instances instance_pool config instance_cores_missing
  else if instance_cores_missing <? 0 then
    (* select the oldest instances we have running and terminate them *)
    rows <- Instance_filter_pool (pool_pk instance_pool) ;;
    let instances := fst (select_oldest (order_by_created rows) instance_cores_missing []) in
    if nonempty instances then
      of_res (sum_counts instances) ;;;
      _terminate_pool_instances instance_pool instances false
    else ret tt
  else ret tt.

(** Lines 56 to 93: the instances are refreshed from the provider and the
    cores of those that run are counted. *)
Definition count_pool (instance_pool : InstancePool) (config : Config) : M CountLocals :=
  _update_pool_instances instance_pool config ;;;
  instances <- Instance_filter_pool (pool_pk instance_pool) ;;
  for_fold instances count_instance (mkCount (cfg_size config) []).

(** The test of line 104, at the time [t]. *)
Definition needs_cycle (instance_pool : InstancePool) (config : Config) (t : Z) : bool :=
  match last_cycled instance_pool with
  | None => true
  | Some lc => lc <? t - cycle_interval config
  end.

(** Lines 104 to 111: a pool that needs to be cycled has all its instances
    terminated; there is no [return] here. *)
Definition cycle_pool (instance_pool : InstancePool) (config : Config)
    (instances : list Instance) : M InstancePool :=
  t <- timezone_now ;;
  if needs_cycle instance_pool config t then
    t <- timezone_now ;;
    let instance_pool := set_last_cycled instance_pool (Some t) in
    _terminate_pool_instances instance_pool instances true ;;;
    Pool_save instance_pool ;;;
    ret instance_pool
  else ret instance_pool.

(** The body of the [try] of [check_instance_pool]. *)
Definition check_instance_pool_locked (pool_id : Z) : M unit :=
  instance_pool <- Pool_get pool_id ;;
  criticalPoolStatusEntries <- Entry_filter_critical (pool_pk instance_pool) ;;
  if nonempty criticalPoolStatusEntries then ret tt
  else if config_isCyclic instance_pool
          || nonempty (config_getMissingParameters instance_pool)
  then Entry_create (pool_pk instance_pool) config_error true
         [MStr "Configuration error."]
  else
    let config := config_flatten instance_pool in
    counted <- count_pool instance_pool config ;;
    (* continue working with the instances we have running *)
    let instances := running_instances counted in
    if negb (isEnabled instance_pool) then
      if nonempty instances
      then _terminate_pool_instances instance_pool instances true
      else ret tt
    else
      instance_pool <- cycle_pool instance_pool config instances ;;
      scale_pool instance_pool config (instance_cores_missing counted).

(** The lock file of the pool: a check that finds it held gives up, and
    the lock taken is released however the check ends. *)
Definition check_instance_pool (pool_id : Z) : M unit :=
  held <- gets (fun w => existsb (Z.eqb pool_id) (locks w)) ;;
  if (held : bool) then ret tt
  else
    modify (with_locks (cons pool_id)) ;;;
    try_finally (check_instance_pool_locked pool_id)
                (with_locks (List.filter (fun l => negb (l =? pool_id)))).

End Tasks.


(** Modelled from the spec: [get_price_median] of common/prices.py, which is
    not among the sources, as the median of the series: the middle sample
    of the sorted series, or the mean of the two middle ones. It is used
    where a concrete run needs a median; the theorems hold for any. *)
Fixpoint insert_sorted (x : float) (l : list float) : list float :=
  match l with
  | [] => [x]
  | y :: r => if (x <=? y)%float then x :: y :: r else y :: insert_sorted x r
  end.

Definition sort_prices (l : list float) : list float := fold_right insert_sorted [] l.

Definition price_median (data : list float) : float :=
  let sdata := sort_prices data in
  let n := length sdata in
  if Nat.even n
  then PrimFloat.div (PrimFloat.add (nth (n / 2) sdata 0%float)
                                    (nth (n / 2 - 1) sdata 0%float)) 2%float
  else nth (n / 2) sdata 0%float.

(** ** The region selector in the words of the specification *)

(** A combination the selector considers: an instance type, a region and a
    zone of its price document, with the per-core price series. *)
Record Candidate : Type := mkCandidate {
  cand_type : string;
  cand_region : string;
  cand_zone : string;
  cand_prices : list float
}.

Definition zone_candidates (cache : Cache) (instance_type region : string)
    (zones : list (string * list float)) : list Candidate :=
  flat_map (fun zs =>
              match cache_get cache (blacklist_key (fst zs) instance_type) with
              | Some _ => []
              | None =>
                  [mkCandidate instance_type region (fst zs)
                     (map (fun price =>
                             per_core price (default 0 (CORES_PER_INSTANCE !! instance_type)))
                          (snd zs))]
              end) zones.

Definition region_candidates (config : Config) (cache : Cache) (instance_type : string)
    (data : PriceData) : list Candidate :=
  flat_map (fun rz =>
              if str_in (fst rz) (ec2_allowed_regions config)
              then zone_candidates cache instance_type (fst rz) (snd rz)
              else []) data.

(** All non-blacklisted combinations in allowed regions, instance types in
    configuration order, regions and zones in the order of the documents. *)
Definition candidates (config : Config) (cache : Cache) : list Candidate :=
  flat_map (fun instance_type =>
              match cache_get cache (price_key instance_type) with
              | Some (CPrices data) => region_candidates config cache instance_type data
              | _ => []
              end) (ec2_instance_types config).

(** The most recent per-core price. *)
Definition current_price (c : Candidate) : float := hd 0%float (cand_prices c).

(** The most recent per-core price does not exceed [ec2_max_price]: the
    test [prices[0] > config.ec2_max_price] is false. *)
Definition qualifies (config : Config) (c : Candidate) : bool :=
  negb (ec2_max_price config <? current_price c)%float.

(** The most recent per-core prices rejected for a zone. *)
Definition rejected_for (config : Config) (zone : string) (cs : list Candidate)
  : list float :=
  map current_price
    (List.filter (fun c => negb (qualifies config c) && String.eqb (cand_zone c) zone) cs).

(** [m] is a least element of [l], in the order of the floats. *)
Definition is_minimum (m : float) (l : list float) : Prop :=
  In m l /\ forall p, In p l -> (m <=? p)%float = true.

(** [c] is the first of [l] at the least median. *)
Definition first_at_least_median (median : list float -> float) (c : Candidate)
    (l : list Candidate) : Prop :=
  exists before after,
    l = before ++ c :: after /\
    (forall y, In y before ->
               (median (cand_prices c) <? median (cand_prices y))%float = true) /\
    (forall y, In y after ->
               (median (cand_prices c) <=? median (cand_prices y))%float = true).

(** What the selector needs of its input to return: the cached values under
    the price keys are price documents, every series considered has a sample
    and every instance type considered is in the table. *)
Definition selector_input_ok (config : Config) (cache : Cache) : Prop :=
  (forall t s, In t (ec2_instance_types config) ->
               cache_get cache (price_key t) <> Some (CBytes s)) /\
  Forall (fun c => cand_prices c <> [] /\ is_Some (CORES_PER_INSTANCE !! cand_type c))
         (candidates config cache).

(** The medians that the selector compares are numbers: the median of no
    combination that qualifies is a NaN, which compares with nothing. *)
Definition medians_ordered (median : list float -> float) (config : Config)
    (cache : Cache) : Prop :=
  Forall (fun c => is_nan (median (cand_prices c)) = false)
         (List.filter (qualifies config) (candidates config cache)).

(** One step of the selector on a candidate. *)
Definition pick (median : list float -> float) (config : Config) (st : Selection) (c : Candidate)
  : Selection :=
  if qualifies config c then
    if match best_median st with
       | None => true
       | Some bm => (median (cand_prices c) <? bm)%float
       end
    then mkSelection (Some (cand_zone c)) (Some (cand_region c)) (Some (cand_type c))
                     (Some (median (cand_prices c))) (rejected_prices st)
    else st
  else
    mkSelection (best_zone st) (best_region st) (best_type st) (best_median st)
      (dict_set (rejected_prices st) (cand_zone c)
         (py_min (default 9999%float (dict_get (rejected_prices st) (cand_zone c)))
                 (current_price c))).

(** The selection holds the candidate [c], or nothing. *)
Definition selection_is (median : list float -> float) (st : Selection) (c : option Candidate)
  : Prop :=
  match c with
  | None => best_region st = None /\ best_zone st = None /\ best_type st = None
            /\ best_median st = None
  | Some c => best_region st = Some (cand_region c) /\ best_zone st = Some (cand_zone c)
              /\ best_type st = Some (cand_type c)
              /\ best_median st = Some (median (cand_prices c))
  end.

(** ** Status codes in the store *)

(** The low byte of the stored status code is neither [shutting-down] nor
    [terminated]. *)
Definition not_terminated (i : Instance) : Prop :=
  Z.land (status_code i) 255 <> INSTANCE_STATE_shutting_down /\
  Z.land (status_code i) 255 <> INSTANCE_STATE_terminated.

(** ** Status entries of a pool *)

(** The number of entries of a type that a pool holds. *)
Definition count_entries (pool : Z) (type : StatusType) (w : World) : nat :=
  length (List.filter (entry_is pool type) (db_entries w)).

(** A pool with a critical entry is frozen. *)
Definition is_frozen (pool : Z) (w : World) : bool :=
  nonempty (List.filter (fun e => (entry_pool e =? pool) && isCritical e) (db_entries w)).

(** The pool has a row in the database. *)
Definition pool_row (pool : Z) (w : World) : option InstancePool :=
  hd_error (List.filter (fun p => pool_pk p =? pool) (db_pools w)).

(** ** Sizes of instances *)

Definition total_size (l : list Instance) : Z :=
  fold_right (fun i acc => inst_size i + acc) 0 l.

(** ** What a task does to the world *)

(** The writes of the tasks: every change of the world is one of these. *)
Inductive Step : Type :=
  | SEmit (e : Event)
  | SCall (c : ProviderCall)
  | SInstanceSave (i : Instance)
  | SInstanceDelete (i : Instance)
  | SInstanceCreate (pool : Z) (id region zone : string) (code size : Z)
  | SEntryCreate (pool : Z) (type : StatusType) (critical : bool) (msg : list MsgPart)
  | SEntryDelete (pool : Z) (type : StatusType)
  | SPoolSave (p : InstancePool)
  | SCacheSet (key : string) (v : CacheValue) (ex : option Z)
  | SLock (pool : Z)
  | SUnlock (pool : Z).

Definition step (s : Step) (w : World) : World :=
  match s with
  | SEmit e => emit e w
  | SCall c => snd (provider_call c (fun _ => Ok tt) w)
  | SInstanceSave i => snd (Instance_save i w)
  | SInstanceDelete i => snd (Instance_delete i w)
  | SInstanceCreate pool id region zone code size =>
      snd (Instance_create pool id region zone code size w)
  | SEntryCreate pool type critical msg => snd (Entry_create pool type critical msg w)
  | SEntryDelete pool type => snd (Entry_delete_type pool type w)
  | SPoolSave p => snd (Pool_save p w)
  | SCacheSet key v ex => with_redis (fun c => cache_set c key v ex) w
  | SLock pool => with_locks (cons pool) w
  | SUnlock pool => with_locks (List.filter (fun l => negb (l =? pool))) w
  end.

Definition steps (l : list Step) (w : World) : World :=
  fold_left (fun w s => step s w) l w.

(** From every world, the task [m] makes a list of writes that, with the
    result, satisfies [Q]. *)
Definition effects {A} (m : M A) (Q : res A -> list Step -> Prop) : Prop :=
  forall w, exists l, snd (m w) = steps l w /\ Q (fst (m w)) l.

(** The events a list of writes adds to the trace, the provider calls
    numbered from [n]. *)
Fixpoint events (l : list Step) (n : nat) : list Event :=
  match l with
  | [] => []
  | SEmit e :: r => e :: events r n
  | SCall c :: r => EvProvider n c :: events r (Datatypes.S n)
  | _ :: r => events r n
  end.

Definition is_call (s : Step) : bool :=
  match s with
  | SCall _ => true
  | _ => false
  end.

(** Provider calls, tagging apart, and new status entries: the writes of a
    task that only talks to the provider and reports. *)
Definition is_report (s : Step) : Prop :=
  match s with
  | SCall (Padd_tag _ _ _) => False
  | SCall _ | SEntryCreate _ _ _ _ => True
  | _ => False
  end.

(** The writes of the refresh from the provider: calls, instance rows,
    new entries and blacklist keys. *)
Definition is_refresh (s : Step) : Prop :=
  match s with
  | SCall _ | SInstanceSave _ | SInstanceDelete _ | SEntryCreate _ _ _ _
  | SCacheSet _ _ _ => True
  | _ => False
  end.

(** The writes of a scale-up after its entry. *)
Definition is_start (s : Step) : Prop :=
  match s with
  | SCall _ | SInstanceCreate _ _ _ _ _ _ | SEntryCreate _ _ _ _ | SEntryDelete _ _
  | SCacheSet _ _ _ => True
  | _ => False
  end.

(** Not an event of the trace other than a provider call. *)
Definition is_silent (s : Step) : Prop :=
  match s with
  | SEmit _ => False
  | _ => True
  end.

Definition is_add_tag (s : Step) : bool :=
  match s with
  | SCall (Padd_tag _ _ _) => true
  | _ => false
  end.

(** A request was fulfilled: the provider was asked to tag its instance. *)
Definition fulfilled (l : list Step) : bool := existsb is_add_tag l.

Definition is_add_tag_event (e : Event) : bool :=
  match e with
  | EvProvider _ (Padd_tag _ _ _) => true
  | _ => false
  end.

Definition is_start_event (e : Event) : bool :=
  match e with
  | EvStart _ _ => true
  | _ => false
  end.

(** The postcondition of a step of the refresh that starts with the locals
    [L]: the writes are those of a refresh, and a result [L'] has the flag
    [instances_created] of [L], raised when a request was fulfilled. *)
Definition refreshed (L : UpdateLocals) (L' : option UpdateLocals) (l : list Step) : Prop :=
  Forall is_refresh l /\
  match L' with
  | Some L' => instances_created L' = instances_created L || fulfilled l
  | None => True
  end.

(** The value of a task that did not raise. *)
Definition ok_locals {A} (r : res A) : option A :=
  match r with
  | Ok a => Some a
  | Raise _ => None
  end.


(** The locals with which the body of the loop over the regions goes on. *)
Definition flow_locals (r : res (flow UpdateLocals unit)) : option UpdateLocals :=
  match r with
  | Ok (Next L') => Some L'
  | _ => None
  end.

Definition is_instance_delete (s : Step) : Prop :=
  match s with
  | SInstanceDelete _ => True
  | _ => False
  end.

(** The deletions at the end of a refresh in which a request was fulfilled. *)
Definition clear_stale (pool : Z) (created : bool) : list Step :=
  if created
  then [SEntryDelete pool max_spot_instance_count_exceeded;
        SEntryDelete pool temporary_failure]
  else [].

(** Writes to the instances, the entries, the cache and the trace: all
    but those to the pools and the locks. *)
Definition is_data (s : Step) : Prop :=
  match s with
  | SPoolSave _ | SLock _ | SUnlock _ => False
  | _ => True
  end.

(** The writes of a scale-down: nothing, or the entry into
    [_terminate_pool_instances] for the instances selected and what this
    asks and reports. *)
Definition scale_down_writes (pool : Z) (l : list Step) : Prop :=
  l = [] \/
  exists instances l', l = SEmit (EvTerminate pool instances false) :: l' /\
                       Forall is_report l'.

(** The write is the entry into a scale-up. *)
Definition emits_start (s : Step) : bool :=
  match s with
  | SEmit e => is_start_event e
  | _ => false
  end.

(** ** Cores in the store *)

Definition no_instance_write (s : Step) : Prop :=
  match s with
  | SInstanceSave _ | SInstanceDelete _ | SInstanceCreate _ _ _ _ _ _ => False
  | _ => True
  end.

(** The rows saved for the requests a provider returns. *)
Definition requested_rows (pool : Z) (region zone : string) (cores : Z)
    (ids : list string) : list Step :=
  map (fun id => SInstanceCreate pool id region zone INSTANCE_STATE_requested cores) ids.

(** The instance is requested, pending or running. *)
Definition is_active (i : Instance) : bool :=
  existsb (Z.eqb (status_code i))
    [INSTANCE_STATE_requested; INSTANCE_STATE_pending; INSTANCE_STATE_running].

(** The sum of [size] over the stored instances of a pool that are
    requested, pending or running. *)
Definition active_size (pool : Z) (w : World) : Z :=
  total_size (List.filter (fun i => (inst_pool i =? pool) && is_active i) (db_instances w)).

(** The provider returns as many requests as it is asked for. *)
Definition grants_in_full (P : Provider) : Prop :=
  forall n region zone instance_type count ids,
    0 < count ->
    create_spot_requests P n region zone instance_type count = Ok ids ->
    Z.of_nat (length ids) = count.

(** The types a scale-up of [count] cores chooses from: those of at most
    [count] cores, or the smallest when there is none. *)
Definition eligible_types (sizes : Sizes) : list string :=
  if nonempty (acceptable_types sizes) then acceptable_types sizes else smallest sizes.

(** What the spot requests write: no instance row, or the rows of the
    requests that the provider returned. *)
Definition request_writes (P : Provider) (pool : Z) (region zone instance_type : string)
    (count cores : Z) (l : list Step) : Prop :=
  Forall no_instance_write l \/
  exists n ids pre post,
    create_spot_requests P n region zone instance_type count = Ok ids /\
    l = pre ++ requested_rows pool region zone cores ids ++ post /\
    Forall no_instance_write pre /\ Forall no_instance_write post.

(** What a scale-up of [count] cores writes after its entry: no instance
    row, or the rows of the requests returned for [max(1, count // cores)]
    instances of an eligible type. *)
Definition scale_up_writes (P : Provider) (pool : Z) (config : Config) (count : Z)
    (l : list Step) : Prop :=
  Forall no_instance_write l \/
  exists sizes t c region zone,
    filter_sizes (ec2_instance_types config) count (mkSizes [] None []) = Ok sizes /\
    In t (eligible_types sizes) /\
    CORES_PER_INSTANCE !! t = Some c /\
    request_writes P pool region zone t (Z.max 1 (count / c)) c l.

(** ** Instances of a region *)

Definition in_region (region : string) (i : Instance) : bool :=
  String.eqb (ec2_region i) region.

Definition has_id (id : string) (i : Instance) : bool :=
  String.eqb (ec2_instance_id i) id.

(** ** Instance types by their cores *)

(** The type is in the table and has at most [count] cores. *)
Definition cores_at_most (count : Z) (t : string) : bool :=
  match CORES_PER_INSTANCE !! t with
  | Some c => c <=? count
  | None => false
  end.

(** The type is in the table and has [m] cores. *)
Definition cores_are (m : Z) (t : string) : bool :=
  match CORES_PER_INSTANCE !! t with
  | Some c => c =? m
  | None => false
  end.

(** ** The writes of a tick *)

(** The entry types that the tasks write as critical. *)
Definition critical_type (t : StatusType) : bool :=
  match t with
  | config_error | unclassified => true
  | _ => false
  end.

(** What a tick on the pool [pool] may write under its lock: new rows and
    entries of this pool only, entries critical by their type, deletions of
    entries of the types that are not critical, and the row of the pool. *)
Definition tick_write (pool : Z) (s : Step) : Prop :=
  match s with
  | SInstanceCreate q _ _ _ code _ => q = pool /\ code = INSTANCE_STATE_requested
  | SEntryCreate q t c _ => q = pool /\ c = critical_type t
  | SEntryDelete q t => q = pool /\ critical_type t = false
  | SPoolSave r => pool_pk r = pool
  | SLock _ | SUnlock _ => False
  | _ => True
  end.

(** The entries and the pools of the other pools. *)
Definition other_entries (pool : Z) (w : World) : list PoolStatusEntry :=
  List.filter (fun e => negb (entry_pool e =? pool)) (db_entries w).

Definition other_pools (pool : Z) (w : World) : list InstancePool :=
  List.filter (fun r => negb (pool_pk r =? pool)) (db_pools w).

(** The entry of lines 46 to 51, made at the time [t]. *)
Definition config_error_entry (pool t : Z) : PoolStatusEntry :=
  mkEntry pool config_error true [MStr "Configuration error."] t.

(** ** The instances of the other pools *)

Definition other_instances (pool : Z) (rows : list Instance) : list Instance :=
  List.filter (fun r => negb (inst_pool r =? pool)) rows.

(** An instance of the pool whose primary key no row of [others] has. *)
Definition own_instance (pool : Z) (others : list Instance) (i : Instance) : Prop :=
  inst_pool i = pool /\ ~ In (inst_pk i) (map inst_pk others).

(** The rows of the other pools are [others]. *)
Definition others_kept (pool : Z) (others : list Instance) (w : World) : Prop :=
  other_instances pool (db_instances w) = others.

(** The rows of the other pools are [others], and no row of the pool
    shares a primary key with one of them. *)
Definition rows_owned (pool : Z) (others : list Instance) (w : World) : Prop :=
  others_kept pool others w /\
  forall r, In r (db_instances w) -> inst_pool r = pool -> own_instance pool others r.

(** The writes of the refresh and of the count: no row is made, and the
    rows saved and deleted are instances of the pool. *)
Definition own_write (pool : Z) (others : list Instance) (s : Step) : Prop :=
  match s with
  | SInstanceSave i | SInstanceDelete i => own_instance pool others i
  | SInstanceCreate _ _ _ _ _ _ => False
  | _ => True
  end.

(** The writes after the count: no row is saved or deleted, and the rows
    made are rows of the pool. *)
Definition new_write (pool : Z) (s : Step) : Prop :=
  match s with
  | SInstanceSave _ | SInstanceDelete _ => False
  | SInstanceCreate q _ _ _ _ _ => q = pool
  | _ => True
  end.

(** The task [m], run in the world [w], ends with a result and in a world
    that satisfy [Q]. *)
Definition wp {A} (m : M A) (Q : res A -> World -> Prop) (w : World) : Prop :=
  Q (fst (m w)) (snd (m w)).

(** The locals of the refresh hold instances of the pool only. *)
Definition locals_owned (pool : Z) (others : list Instance) (L : UpdateLocals) : Prop :=
  Forall (own_instance pool others) (map snd (instances_by_ids L)) /\
  Forall (own_instance pool others) (instances_left L).

(** ** Concrete configurations, caches and providers *)

(** A pool of eight cores over two instance types, at most 0.10 per core. *)
Definition config_eight : Config :=
  mkConfig 8 3600 ["us-east-1"] ["c4.large"; "c4.xlarge"] 0.1
           "key" "image" "default" [] "#!/bin/sh" [] [].

(** c4.xlarge at 0.05, 0.06, 0.05 and c4.large at 0.03, 0.04 in us-east-1a. *)
Definition cache_cheap : Cache :=
  cache_set
    (cache_set ∅ (price_key "c4.xlarge")
       (CPrices [("us-east-1", [("us-east-1a", [0.05; 0.06; 0.05]%float)])]) None)
    (price_key "c4.large")
    (CPrices [("us-east-1", [("us-east-1a", [0.03; 0.04]%float)])]) None.

(** c4.xlarge at 0.50, 0.51 in us-east-1a, and no data for c4.large. *)
Definition cache_dear : Cache :=
  cache_set ∅ (price_key "c4.xlarge")
    (CPrices [("us-east-1", [("us-east-1a", [0.50; 0.51]%float)])]) None.

(** One single-core type, whose only zone is at 10000 per hour. *)
Definition config_small : Config :=
  mkConfig 1 3600 ["us-east-1"] ["m1.small"] 0.1
           "key" "image" "default" [] "#!/bin/sh" [] [].

Definition cache_huge : Cache :=
  cache_set ∅ (price_key "m1.small")
    (CPrices [("us-east-1", [("us-east-1a", [10000]%float)])]) None.

(** One type of twelve cores at 1.08 per hour, under a ceiling of 0.09 per
    core. *)
Definition config_twelve : Config :=
  mkConfig 12 3600 ["us-east-1"] ["z1d.3xlarge"] 0.09
           "key" "image" "default" [] "#!/bin/sh" [] [].

Definition cache_twelve : Cache :=
  cache_set ∅ (price_key "z1d.3xlarge")
    (CPrices [("us-east-1", [("us-east-1a", [1.08]%float)])]) None.

(** [UserData.handle_tags] that leaves the userdata as it is. *)
Definition handle_tags_plain (userdata : string) (macros : list (string * string)) : string :=
  userdata.

(** A provider on which every call succeeds: it knows the instances [found],
    leaves spot requests open, and grants as many requests as are asked. *)
Definition provider_with (found : list BotoInstance) : Provider :=
  mkProvider
    (fun _ _ => Ok tt)
    (fun _ _ requested => Ok (map (fun _ => SpotNone) requested))
    (fun _ _ _ => Ok found)
    (fun _ _ ids => Ok (List.filter (fun b => str_in (boto_id b) ids) found))
    (fun _ _ _ => Ok tt)
    (fun _ _ => Ok tt)
    (fun _ _ _ => Ok "ami-1")
    (fun _ _ _ _ count =>
       Ok (map (fun k => "sir-" +:+ py_str (Z.of_nat k)) (seq 0 (Z.to_nat count)))).

(** The pool of eight cores, cycled at 1000; the clock is at 2000. *)
Definition pool_eight : InstancePool := mkPool 1 true (Some 1000) false [] config_eight.

Definition world_dear : World := mkWorld [] 1 [] [pool_eight] cache_dear [] 2000 0 [].

Definition world_cheap : World := mkWorld [] 1 [] [pool_eight] cache_cheap [] 2000 0 [].

(** An instance that runs with a status code stored as 16 + 256. *)
Definition instance_272 : Instance :=
  mkInstance 1 1 "i-1" "us-east-1" "us-east-1a" (Some "host-1") 4 272 1500.

(** An instance with an undocumented status code, stored as 7 + 256. *)
Definition instance_263 : Instance :=
  mkInstance 2 1 "i-2" "us-east-1" "us-east-1a" (Some "host-2") 4 263 1500.

(** A running instance, and the provider's view of it shutting down. *)
Definition instance_running : Instance :=
  mkInstance 1 1 "i-1" "us-east-1" "us-east-1a" (Some "host-1") 4 16 1500.

Definition boto_shutting_down : BotoInstance :=
  mkBoto "i-1" 32 "host-1" [("SpotManager-PoolId", "1"); ("SpotManager-Updatable", "1")].

Definition world_running : World :=
  mkWorld [instance_running] 2 [] [pool_eight] cache_cheap [] 2000 0 [].

(** A provider that is unavailable when spot requests are made. *)
Definition provider_unavailable : Provider :=
  mkProvider
    (fun _ _ => Ok tt)
    (fun _ _ requested => Ok (map (fun _ => SpotNone) requested))
    (fun _ _ _ => Ok [])
    (fun _ _ _ => Ok [])
    (fun _ _ _ => Ok tt)
    (fun _ _ => Ok tt)
    (fun _ _ _ => Ok "ami-1")
    (fun _ _ _ _ _ => Raise (BotoServerError "BotoServerError: 503 Service Unavailable")).

(** The pool already holds a temporary-failure entry. *)
Definition entry_temporary : PoolStatusEntry :=
  mkEntry 1 temporary_failure false
          [MStr "Temporary failure occurred: BotoServerError: 503 Service Unavailable"] 1900.

Definition world_failed_before : World :=
  mkWorld [] 1 [entry_temporary] [pool_eight] cache_cheap [] 2000 0 [].

(** A pool of two cores that holds two running instances of two cores. *)
Definition config_two : Config :=
  mkConfig 2 3600 ["us-east-1"] ["c4.large"] 0.1
           "key" "image" "default" [] "#!/bin/sh" [] [].

Definition pool_two : InstancePool := mkPool 1 true (Some 1000) false [] config_two.

Definition instance_old : Instance :=
  mkInstance 1 1 "i-1" "us-east-1" "us-east-1a" (Some "host-1") 2 16 1500.

Definition instance_new : Instance :=
  mkInstance 2 1 "i-2" "us-east-1" "us-east-1a" (Some "host-2") 2 16 1600.

Definition boto_running (id host : string) : BotoInstance :=
  mkBoto id 16 host [("SpotManager-PoolId", "1"); ("SpotManager-Updatable", "1")].

Definition world_over : World :=
  mkWorld [instance_old; instance_new] 3 [] [pool_two] cache_cheap [] 2000 0 [].

(** The pool of eight cores, frozen by a critical entry, with an instance
    that the provider has terminated. *)
Definition entry_critical : PoolStatusEntry :=
  mkEntry 1 unclassified true [MStr "Unclassified error occurred: boom"] 1900.

Definition boto_terminated : BotoInstance :=
  mkBoto "i-1" 48 "host-1" [("SpotManager-PoolId", "1"); ("SpotManager-Updatable", "1")].

Definition world_frozen : World :=
  mkWorld [instance_running] 2 [entry_critical] [pool_eight] cache_cheap [] 2000 0 [].

(** A request in eu-west-1 that the provider fulfils, an instance in
    us-east-1 where the provider cannot be reached, and a pool that holds a
    temporary-failure entry. *)
Definition instance_requested : Instance :=
  mkInstance 1 1 "sir-01" "eu-west-1" "eu-west-1a" None 4 256 1500.

Definition instance_elsewhere : Instance :=
  mkInstance 2 1 "i-2" "us-east-1" "us-east-1a" (Some "host-2") 4 16 1500.

Definition boto_fulfilled : BotoInstance :=
  mkBoto "i-abc" 16 "x.example" [("SpotManager-PoolId", "1")].

Definition provider_split : Provider :=
  mkProvider
    (fun _ region => if String.eqb region "us-east-1"
                     then Raise (OtherError "cannot connect") else Ok tt)
    (fun _ _ requested => Ok (map (fun _ => SpotInstance boto_fulfilled) requested))
    (fun _ _ _ => Ok [])
    (fun _ _ _ => Ok [])
    (fun _ _ _ => Ok tt)
    (fun _ _ => Ok tt)
    (fun _ _ _ => Ok "ami-1")
    (fun _ _ _ _ _ => Ok []).

Definition world_split : World :=
  mkWorld [instance_requested; instance_elsewhere] 3 [entry_temporary] [pool_eight]
          cache_cheap [] 2000 0 [].

(** The third scenario of the specification: one request, fulfilled. *)
Definition world_requested : World :=
  mkWorld [instance_requested] 2 [entry_temporary] [pool_eight] cache_cheap [] 2000 0 [].

(** The pool of eight cores, last cycled at 100 with the clock at 5000 and
    an interval of 3600 seconds, with one running instance of four cores. *)
Definition pool_stale : InstancePool := mkPool 1 true (Some 100) false [] config_eight.

Definition world_stale : World :=
  mkWorld [instance_running] 2 [] [pool_stale] cache_cheap [] 5000 0 [].

(** A pool of three cores whose only instance type has four. *)
Definition config_three : Config :=
  mkConfig 3 3600 ["us-east-1"] ["c4.xlarge"] 0.1
           "key" "image" "default" [] "#!/bin/sh" [] [].

Definition pool_three : InstancePool := mkPool 1 true (Some 1000) false [] config_three.

Definition world_three : World := mkWorld [] 1 [] [pool_three] cache_cheap [] 2000 0 [].

(** ** Further instances, pools and providers *)

(** An instance of four cores, older than [instance_old]. *)
Definition instance_big : Instance :=
  mkInstance 3 1 "i-3" "us-east-1" "us-east-1a" (Some "host-3") 4 16 1400.


(** A second pool beside the pool of eight cores, which is frozen. *)
Definition pool_second : InstancePool := mkPool 2 true (Some 1000) false [] config_eight.

Definition world_two_pools : World :=
  mkWorld [] 1 [entry_critical] [pool_eight; pool_second] cache_cheap [] 2000 0 [].

(** A pool whose configuration lacks a parameter. *)
Definition pool_incomplete : InstancePool :=
  mkPool 1 true None false ["ec2_image_name"] config_eight.

Definition world_incomplete : World :=
  mkWorld [] 1 [] [pool_incomplete] cache_cheap [] 2000 0 [].

(** The pool of eight cores, disabled, with one running instance. *)
Definition pool_disabled : InstancePool := mkPool 1 false (Some 1000) false [] config_eight.

Definition world_disabled : World :=
  mkWorld [instance_running] 2 [] [pool_disabled] cache_cheap [] 2000 0 [].

(** The image of the pool of eight cores is in the cache for us-east-1. *)
Definition world_ami : World :=
  mkWorld [] 1 [] [pool_eight]
          (cache_set cache_cheap (ami_key "us-east-1" "image") (CBytes "ami-7")
                     (Some (24 * 3600)))
          [] 2000 0 [].

(** [UserData.handle_tags] on userdata that does not compile. *)
Definition handle_tags_fails (userdata : string) (macros : list (string * string)) : string :=
  "".

(** An instance of the second pool, and a store in which the pool of eight
    cores has [instance_running] beside it. *)
Definition instance_of_second : Instance :=
  mkInstance 2 2 "i-9" "us-east-1" "us-east-1a" (Some "host-9") 4 16 1500.

Definition world_shared : World :=
  mkWorld [instance_running; instance_of_second] 3 [] [pool_eight; pool_second]
          cache_cheap [] 2000 0 [].

(** ** Dictionaries *)

Lemma dict_get_set {V} (d : list (string * V)) k v k' :
  dict_get (dict_set d k v) k' = if String.eqb k k' then Some v else dict_get d k'.
Proof.
  induction d as [|[k0 v0] r IH]; simpl.
  - destruct (String.eqb_spec k k'); reflexivity.
  - destruct (String.eqb_spec k0 k) as [->|Hne]; simpl.
    + destruct (String.eqb_spec k k'); reflexivity.
    + rewrite IH. destruct (String.eqb_spec k0 k') as [->|Hne'].
      * destruct (String.eqb_spec k k'); [congruence|reflexivity].
      * reflexivity.
Qed.

(** ** The order of Python's floats *)

(** The comparison of two binary64 values that are no NaN. *)
Lemma SFcompare_refl (x : spec_float) :
  x <> S754_nan -> SFcompare x x = Some Eq.
Proof.
  destruct x as [s|s| |s m e]; simpl; try congruence; intros _.
  - now destruct s.
  - destruct s; rewrite Z.compare_refl;
      change (Pos.compare_cont Eq m m) with (Pos.compare m m);
      now rewrite Pos.compare_refl.
Qed.

Lemma SFcompare_antisym (x y : spec_float) :
  SFcompare y x = option_map CompOpp (SFcompare x y).
Proof.
  destruct x as [sx|sx| |sx mx ex], y as [sy|sy| |sy my ey]; simpl; try reflexivity;
    try (destruct sx; reflexivity); try (destruct sy; reflexivity);
    try (destruct sx, sy; reflexivity).
  change (Pos.compare_cont Eq my mx) with (Pos.compare my mx).
  change (Pos.compare_cont Eq mx my) with (Pos.compare mx my).
  rewrite (Z.compare_antisym ex ey), (Pos.compare_antisym mx my).
  destruct sx, sy; try reflexivity; destruct (ex ?= ey); simpl; reflexivity.
Qed.

(** The cases of the comparisons of exponents and mantissas. *)
Ltac cmp_cases :=
  repeat match goal with
         | H : context [Z.compare ?a ?b] |- _ =>
             destruct (Z.compare_spec a b); cbn [CompOpp] in H
         | |- context [Z.compare ?a ?b] => destruct (Z.compare_spec a b); cbn [CompOpp]
         | H : context [Pos.compare ?a ?b] |- _ =>
             destruct (Pos.compare_spec a b); cbn [CompOpp] in H
         | |- context [Pos.compare ?a ?b] => destruct (Pos.compare_spec a b); cbn [CompOpp]
         end.

Lemma SFleb_trans (x y z : spec_float) :
  SFleb x y = true -> SFleb y z = true -> SFleb x z = true.
Proof.
  unfold SFleb.
  destruct x as [sx|sx| |sx mx ex], y as [sy|sy| |sy my ey], z as [sz|sz| |sz mz ez];
    simpl; try discriminate; try reflexivity;
    try (destruct sx; simpl; try discriminate; try reflexivity);
    try (destruct sy; simpl; try discriminate; try reflexivity);
    try (destruct sz; simpl; try discriminate; try reflexivity);
    change (Pos.compare_cont Eq ?a ?b) with (Pos.compare a b);
    intros H1 H2; cmp_cases; subst; try discriminate; try reflexivity; lia.
Qed.

Lemma SFltb_leb_trans (x y z : spec_float) :
  SFltb x y = true -> SFleb y z = true -> SFltb x z = true.
Proof.
  unfold SFleb, SFltb.
  destruct x as [sx|sx| |sx mx ex], y as [sy|sy| |sy my ey], z as [sz|sz| |sz mz ez];
    simpl; try discriminate; try reflexivity;
    try (destruct sx; simpl; try discriminate; try reflexivity);
    try (destruct sy; simpl; try discriminate; try reflexivity);
    try (destruct sz; simpl; try discriminate; try reflexivity);
    change (Pos.compare_cont Eq ?a ?b) with (Pos.compare a b);
    intros H1 H2; cmp_cases; subst; try discriminate; try reflexivity; lia.
Qed.

Lemma SFcompare_total (x y : spec_float) :
  x <> S754_nan -> y <> S754_nan -> exists c, SFcompare x y = Some c.
Proof.
  destruct x, y; simpl; try congruence; eauto.
Qed.

(** ** Python's floats *)

Lemma float_not_nan (x : float) :
  is_nan x = false <-> Prim2SF x <> S754_nan.
Proof.
  unfold is_nan. rewrite negb_false_iff, FloatAxioms.eqb_spec. unfold SFeqb. split.
  - intros H E. rewrite E in H. discriminate.
  - intros H. now rewrite (SFcompare_refl _ H).
Qed.

Lemma float_ltb_leb (a b : float) : (a <? b)%float = true -> (a <=? b)%float = true.
Proof.
  rewrite FloatAxioms.ltb_spec, FloatAxioms.leb_spec. unfold SFltb, SFleb.
  now destruct (SFcompare _ _) as [[]|].
Qed.

Lemma float_ltb_not_nan (a b : float) :
  (a <? b)%float = true -> is_nan a = false /\ is_nan b = false.
Proof.
  rewrite FloatAxioms.ltb_spec, !float_not_nan. unfold SFltb.
  destruct (Prim2SF a), (Prim2SF b); simpl; try discriminate; split; discriminate.
Qed.

Lemma float_ltb_false (a b : float) :
  is_nan a = false -> is_nan b = false -> (a <? b)%float = false -> (b <=? a)%float = true.
Proof.
  rewrite FloatAxioms.ltb_spec, FloatAxioms.leb_spec, !float_not_nan.
  unfold SFltb, SFleb. intros Ha Hb.
  rewrite (SFcompare_antisym (Prim2SF a) (Prim2SF b)).
  destruct (SFcompare_total _ _ Ha Hb) as [c ->]. now destruct c.
Qed.

Lemma float_leb_refl (a : float) : is_nan a = false -> (a <=? a)%float = true.
Proof.
  rewrite FloatAxioms.leb_spec, float_not_nan. unfold SFleb. intros Ha.
  now rewrite (SFcompare_refl _ Ha).
Qed.

Lemma float_leb_trans (a b c : float) :
  (a <=? b)%float = true -> (b <=? c)%float = true -> (a <=? c)%float = true.
Proof. rewrite !FloatAxioms.leb_spec. apply SFleb_trans. Qed.

Lemma float_ltb_leb_trans (a b c : float) :
  (a <? b)%float = true -> (b <=? c)%float = true -> (a <? c)%float = true.
Proof. rewrite !FloatAxioms.ltb_spec, !FloatAxioms.leb_spec. apply SFltb_leb_trans. Qed.


(** ** Order on prices *)

Lemma py_min_cases a b :
  (py_min a b = b /\ (b <? a)%float = true) \/
  (py_min a b = a /\ (b <? a)%float = false).
Proof. unfold py_min. destruct (b <? a)%float; auto. Qed.

(** The least of numbers, taken with Python's [min] from the left. *)
Lemma fold_py_min_minimum (ps : list float) (a : float) :
  Forall (fun p => is_nan p = false) (a :: ps) ->
  is_minimum (fold_left py_min ps a) (a :: ps).
Proof.
  revert a. induction ps as [|p ps IH]; intros a Hnum; simpl.
  - apply Forall_cons_iff in Hnum as [Ha _]. split; [now left|].
    intros q [<-|[]]. now apply float_leb_refl.
  - apply Forall_cons_iff in Hnum as [Ha Hnum].
    apply Forall_cons_iff in Hnum as [Hp Hnum].
    assert (Hmin : is_nan (py_min a p) = false)
      by (destruct (py_min_cases a p) as [[-> _]|[-> _]]; assumption).
    destruct (IH (py_min a p)) as [Hin Hle]; [now constructor|]. split.
    + destruct Hin as [Hin|Hin]; [|now right; right].
      rewrite <- Hin. destruct (py_min_cases a p) as [[-> _]|[-> _]]; simpl; auto.
    + intros q Hq.
      assert (Hm : (fold_left py_min ps (py_min a p) <=? py_min a p)%float = true)
        by (apply Hle; now left).
      destruct Hq as [<-|[<-|Hq]].
      * eapply float_leb_trans; [exact Hm|].
        destruct (py_min_cases a p) as [[-> H]|[-> H]];
          [now apply float_ltb_leb|now apply float_leb_refl].
      * eapply float_leb_trans; [exact Hm|].
        destruct (py_min_cases a p) as [[-> H]|[-> H]];
          [now apply float_leb_refl|now apply float_ltb_false].
      * apply Hle. now right.
Qed.

(** ** The selector is a fold of [pick] over the candidates *)

Section Selector.

Variable median : list float -> float.

Lemma prices_per_core_ok instance_type cores series :
  CORES_PER_INSTANCE !! instance_type = Some cores ->
  prices_per_core instance_type series
  = Ok (map (fun price => per_core price cores) series).
Proof.
  intros Hc. induction series as [|p r IH]; simpl; [reflexivity|].
  rewrite Hc, IH. reflexivity.
Qed.

Lemma select_zones_fold config cache instance_type region zones st :
  Forall (fun c => cand_prices c <> [] /\ is_Some (CORES_PER_INSTANCE !! cand_type c))
         (zone_candidates cache instance_type region zones) ->
  select_zones median config cache instance_type region zones st
  = Ok (fold_left (pick median config)
                  (zone_candidates cache instance_type region zones) st).
Proof.
  revert st. induction zones as [|[zone series] rest IH]; intros st Hok;
    [reflexivity|].
  unfold zone_candidates in *. simpl in *. unfold select_zone.
  destruct (cache_get cache (blacklist_key zone instance_type)) as [v|] eqn:Hb.
  - simpl in Hok. apply IH. exact Hok.
  - simpl in Hok. apply Forall_cons_iff in Hok as [[Hne [cores Hc]] Hok].
    simpl in Hne, Hc. rewrite fold_left_app.
    rewrite (prices_per_core_ok _ _ _ Hc). rewrite Hc in *. simpl in *.
    destruct (map (fun price => per_core price cores) series) as [|p0 ps] eqn:Hs;
      [congruence|].
    unfold pick at 2. unfold qualifies, current_price. simpl.
    destruct (ec2_max_price config <? p0)%float; simpl.
    + now apply IH.
    + destruct (match best_median st with
                | Some bm => (median (p0 :: ps) <? bm)%float
                | None => true
                end); now apply IH.
Qed.

Lemma select_regions_fold config cache instance_type data st :
  Forall (fun c => cand_prices c <> [] /\ is_Some (CORES_PER_INSTANCE !! cand_type c))
         (region_candidates config cache instance_type data) ->
  select_regions median config cache instance_type data st
  = Ok (fold_left (pick median config)
                  (region_candidates config cache instance_type data) st).
Proof.
  revert st. induction data as [|[region zones] rest IH]; intros st Hok;
    [reflexivity|].
  unfold region_candidates in *. simpl in *.
  destruct (str_in region (ec2_allowed_regions config)); simpl.
  - apply Forall_app in Hok as [Hz Hr].
    rewrite (select_zones_fold _ _ _ _ _ _ Hz), fold_left_app. now apply IH.
  - now apply IH.
Qed.

Lemma select_types_fold config cache types st :
  (forall t s, In t types -> cache_get cache (price_key t) <> Some (CBytes s)) ->
  Forall (fun c => cand_prices c <> [] /\ is_Some (CORES_PER_INSTANCE !! cand_type c))
         (flat_map (fun instance_type =>
                      match cache_get cache (price_key instance_type) with
                      | Some (CPrices data) =>
                          region_candidates config cache instance_type data
                      | _ => []
                      end) types) ->
  select_types median config cache types st
  = Ok (fold_left (pick median config)
          (flat_map (fun instance_type =>
                       match cache_get cache (price_key instance_type) with
                       | Some (CPrices data) =>
                           region_candidates config cache instance_type data
                       | _ => []
                       end) types) st).
Proof.
  revert st. induction types as [|t rest IH]; intros st Hdoc Hok; [reflexivity|].
  simpl in *.
  assert (Hrest : forall t' s, In t' rest ->
                               cache_get cache (price_key t') <> Some (CBytes s))
    by (intros; apply Hdoc; now right).
  destruct (cache_get cache (price_key t)) as [[data|s]|] eqn:Hp.
  - apply Forall_app in Hok as [Hd Hr].
    rewrite (select_regions_fold _ _ _ _ _ Hd), fold_left_app. now apply IH.
  - exfalso. apply (Hdoc t s); auto.
  - now apply IH.
Qed.

(** ** What the fold selects *)

Lemma pick_rejected config st c zone :
  dict_get (rejected_prices (pick median config st c)) zone
  = if negb (qualifies config c) && String.eqb (cand_zone c) zone
    then Some (py_min (default 9999%float (dict_get (rejected_prices st) zone))
                      (current_price c))
    else dict_get (rejected_prices st) zone.
Proof.
  unfold pick. destruct (qualifies config c); simpl.
  - destruct (match best_median st with
              | Some bm => (median (cand_prices c) <? bm)%float
              | None => true
              end); reflexivity.
  - rewrite dict_get_set. destruct (String.eqb_spec (cand_zone c) zone) as [->|];
      reflexivity.
Qed.

Lemma fold_pick_rejected config cs st zone :
  dict_get (rejected_prices (fold_left (pick median config) cs st)) zone
  = match rejected_for config zone cs with
    | [] => dict_get (rejected_prices st) zone
    | ps => Some (fold_left py_min ps
                    (default 9999%float (dict_get (rejected_prices st) zone)))
    end.
Proof.
  revert st. induction cs as [|c cs IH]; intros st; [reflexivity|].
  simpl. rewrite IH, pick_rejected. unfold rejected_for. simpl.
  destruct (negb (qualifies config c) && String.eqb (cand_zone c) zone); simpl.
  - destruct (map current_price _); reflexivity.
  - reflexivity.
Qed.

Lemma first_at_least_median_le c l y :
  is_nan (median (cand_prices c)) = false ->
  first_at_least_median median c l -> In y l ->
  (median (cand_prices c) <=? median (cand_prices y))%float = true.
Proof.
  intros Hc (before & after & -> & Hb & Ha) Hy.
  apply in_app_or in Hy as [Hy|[<-|Hy]].
  - apply float_ltb_leb. now apply Hb.
  - now apply float_leb_refl.
  - now apply Ha.
Qed.

Lemma fold_pick_best config cs st seen b :
  Forall (fun c => is_nan (median (cand_prices c)) = false)
         (List.filter (qualifies config) cs) ->
  selection_is median st b ->
  match b with
  | None => seen = []
  | Some c => first_at_least_median median c seen /\
              is_nan (median (cand_prices c)) = false
  end ->
  exists b',
    selection_is median (fold_left (pick median config) cs st) b' /\
    match b' with
    | None => seen ++ List.filter (qualifies config) cs = []
    | Some c =>
        first_at_least_median median c (seen ++ List.filter (qualifies config) cs)
    end.
Proof.
  revert st seen b. induction cs as [|c cs IH]; intros st seen b Hnum Hsel Hseen.
  - simpl. rewrite app_nil_r. exists b. split; [exact Hsel|].
    destruct b; [apply Hseen|exact Hseen].
  - simpl in Hnum |- *. unfold pick at 2. destruct (qualifies config c) eqn:Hq.
    + apply Forall_cons_iff in Hnum as [Hc Hnum].
      replace (seen ++ c :: List.filter (qualifies config) cs)
        with ((seen ++ [c]) ++ List.filter (qualifies config) cs)
        by (rewrite <- app_assoc; reflexivity).
      destruct b as [b|].
      * destruct Hsel as (Hr & Hz & Ht & Hm). rewrite Hm. destruct Hseen as [Hseen Hb].
        destruct (median (cand_prices c) <? median (cand_prices b))%float eqn:Hlt.
        -- apply IH with (b := Some c); [exact Hnum|simpl; auto|]. split; [|exact Hc].
           exists seen, []. split; [reflexivity|]. split; [|intros y []].
           intros y Hy. eapply float_ltb_leb_trans; [exact Hlt|].
           now apply first_at_least_median_le with (l := seen).
        -- apply IH with (b := Some b); [exact Hnum|simpl; auto|]. split; [|exact Hb].
           destruct Hseen as (before & after & -> & Hbefore & Hafter).
           exists before, (after ++ [c]). split; [now rewrite <- app_assoc|].
           split; [exact Hbefore|]. intros y Hy. apply in_app_or in Hy as [Hy|[<-|[]]].
           ++ now apply Hafter.
           ++ now apply float_ltb_false.
      * destruct Hsel as (Hr & Hz & Ht & Hm). rewrite Hm. subst seen.
        apply IH with (b := Some c); [exact Hnum|simpl; auto|]. split; [|exact Hc].
        exists [], []. split; [reflexivity|]. split; intros y [].
    + apply IH with (b := b); [exact Hnum| |exact Hseen].
      destruct b; simpl in *; exact Hsel.
Qed.

(** A price that is rejected is a number. *)
Lemma rejected_for_numbers config zone cs :
  Forall (fun p => is_nan p = false) (rejected_for config zone cs).
Proof.
  unfold rejected_for. apply List.Forall_forall. intros p Hp.
  apply in_map_iff in Hp as (c & <- & Hc). apply filter_In in Hc as [_ Hc].
  apply andb_true_iff in Hc as [Hc _]. unfold qualifies in Hc.
  rewrite negb_involutive in Hc. now apply float_ltb_not_nan in Hc.
Qed.

End Selector.

(** ** C5: the region selector *)

(** C5, as amended. On an input on which the selector can run (price
    documents under the price keys, no empty series, every type in the
    table) and on which no median of a qualifying combination is a NaN,
    [_get_best_region_zone] returns. Prices per core are the binary64
    quotients the code computes. Its triple is the first, in iteration
    order, at the least median among the non-blacklisted combinations in
    allowed regions whose most recent per-core price is not greater than
    [ec2_max_price], and three nulls when there is none. The rejected
    mapping holds, for every zone with a rejected combination, the least of
    9999 and the rejected most recent per-core prices of the zone, and
    nothing for the other zones. *)
Theorem best_region_zone_selects (median : list float -> float) (config : Config)
    (cache : Cache) :
  selector_input_ok config cache ->
  medians_ordered median config cache ->
  exists region zone instance_type rejected,
    best_region_zone median config cache = Ok (region, zone, instance_type, rejected) /\
    match List.filter (qualifies config) (candidates config cache) with
    | [] => region = None /\ zone = None /\ instance_type = None
    | qualifying =>
        exists c, first_at_least_median median c qualifying /\
                  region = Some (cand_region c) /\ zone = Some (cand_zone c) /\
                  instance_type = Some (cand_type c)
    end /\
    forall z, match rejected_for config z (candidates config cache) with
              | [] => dict_get rejected z = None
              | ps => exists m, dict_get rejected z = Some m /\
                                is_minimum m (9999%float :: ps)
              end.
Proof.
  intros [Hdoc Hok] Hnum. unfold medians_ordered, best_region_zone, candidates in *.
  rewrite (select_types_fold median config cache _ Selection_init Hdoc Hok).
  set (cs := flat_map _ (ec2_instance_types config)) in *.
  set (st := fold_left (pick median config) cs Selection_init).
  exists (best_region st), (best_zone st), (best_type st), (rejected_prices st).
  split; [reflexivity|]. split.
  - destruct (fold_pick_best median config cs Selection_init [] None Hnum)
      as (b & Hb & Hfirst); [simpl; auto | reflexivity |].
    fold st in Hb. simpl in Hfirst.
    destruct b as [c|].
    + destruct (List.filter (qualifies config) cs) as [|q qs] eqn:Hq.
      * destruct Hfirst as (before & after & Habs & _). now destruct before.
      * exists c. destruct Hb as (Hr & Hz & Ht & _). auto.
    + rewrite Hfirst. destruct Hb as (Hr & Hz & Ht & _). auto.
  - intros z. subst st. rewrite fold_pick_rejected.
    pose proof (rejected_for_numbers config z cs) as Hrej.
    destruct (rejected_for config z cs) as [|p ps]; [reflexivity|].
    eexists. split; [reflexivity|]. apply fold_py_min_minimum.
    constructor; [reflexivity|exact Hrej].
Qed.

Lemma best_region_zone_selects_witness :
  selector_input_ok config_eight cache_cheap /\
  medians_ordered price_median config_eight cache_cheap /\
  exists region zone instance_type rejected,
    best_region_zone price_median config_eight cache_cheap
    = Ok (region, zone, instance_type, rejected) /\
    match List.filter (qualifies config_eight) (candidates config_eight cache_cheap) with
    | [] => region = None /\ zone = None /\ instance_type = None
    | qualifying =>
        exists c, first_at_least_median price_median c qualifying /\
                  region = Some (cand_region c) /\ zone = Some (cand_zone c) /\
                  instance_type = Some (cand_type c)
    end /\
    forall z, match rejected_for config_eight z (candidates config_eight cache_cheap) with
              | [] => dict_get rejected z = None
              | ps => exists m, dict_get rejected z = Some m /\
                                is_minimum m (9999%float :: ps)
              end.
Proof.
  assert (H : selector_input_ok config_eight cache_cheap).
  { split.
    - intros t s [<-|[<-|[]]]; vm_compute; discriminate.
    - vm_compute. repeat constructor; try discriminate; eexists; reflexivity. }
  assert (Hnum : medians_ordered price_median config_eight cache_cheap).
  { vm_compute. repeat constructor. }
  split; [exact H|]. split; [exact Hnum|].
  exact (best_region_zone_selects price_median config_eight cache_cheap H Hnum).
Defined.

(** The selector on the first scenario of the specification: c4.xlarge at
    a median of 0.0125 per core beats c4.large at 0.0175. *)
Example best_region_zone_cheap :
  best_region_zone price_median config_eight cache_cheap
  = Ok (Some "us-east-1", Some "us-east-1a", Some "c4.xlarge", []).
Proof. vm_compute. reflexivity. Qed.

(** The quotient is rounded as Python rounds it: 1.08 for the twelve cores
    of z1d.3xlarge is 0.09000000000000001 per core, which is above a
    ceiling of 0.09, and the zone is rejected at that price. *)
Example best_region_zone_rounds :
  per_core 1.08 12 = 0.09000000000000001%float /\
  best_region_zone price_median config_twelve cache_twelve
  = Ok (None, None, None, [("us-east-1a", 0.09000000000000001%float)]).
Proof. split; vm_compute; reflexivity. Qed.

(** C5 as stated fails: a zone whose only rejected price is 10000 per core is
    recorded at 9999, the default of the lookup, which is no rejected price. *)
Lemma rejected_price_is_capped :
  best_region_zone price_median config_small cache_huge
  = Ok (None, None, None, [("us-east-1a", 9999%float)]) /\
  rejected_for config_small "us-east-1a" (candidates config_small cache_huge)
  = [10000%float] /\
  ~ is_minimum 9999%float [10000%float].
Proof.
  split; [vm_compute; reflexivity|]. split; [vm_compute; reflexivity|].
  intros [[H|[]] _]. apply (f_equal (fun x => (x <=? 9999)%float)) in H.
  vm_compute in H. discriminate H.
Qed.

(** ** The capacity count *)

Lemma existsb_Zeqb_In (c : Z) (l : list Z) : existsb (Z.eqb c) l = true <-> In c l.
Proof.
  rewrite existsb_exists. split.
  - intros (x & Hin & Heq). apply Z.eqb_eq in Heq. now subst.
  - intros Hin. exists c. split; [exact Hin|apply Z.eqb_refl].
Qed.

Lemma existsb_Zeqb_not_In (c : Z) (l : list Z) : existsb (Z.eqb c) l = false <-> ~ In c l.
Proof.
  rewrite <- existsb_Zeqb_In. destruct (existsb (Z.eqb c) l); split; congruence.
Qed.

(** C10. In the capacity count, an instance stored with a status code of at
    least 256 whose code less 256 is running, pending or requested is counted
    with the corrected code and the world, so the stored row, stays as it
    is; when the corrected code is shutting-down or terminated the row is
    deleted; only when the corrected code is none of these is a row written,
    with a status code of 0. *)
Theorem count_instance_fixed_code (instance : Instance) (L : CountLocals) (w : World) :
  256 <= status_code instance ->
  (In (status_code instance - 256)
      [INSTANCE_STATE_running; INSTANCE_STATE_pending; INSTANCE_STATE_requested] ->
   count_instance instance L w
   = (Ok (mkCount (instance_cores_missing L - inst_size instance)
                  (running_instances L
                   ++ [set_status_code instance (status_code instance - 256)])),
      w)) /\
  (In (status_code instance - 256)
      [INSTANCE_STATE_shutting_down; INSTANCE_STATE_terminated] ->
   count_instance instance L w
   = (Ok L, with_instances (List.filter (fun r => negb (same_pk instance r))) w)) /\
  (~ In (status_code instance - 256)
        [INSTANCE_STATE_running; INSTANCE_STATE_pending; INSTANCE_STATE_requested;
         INSTANCE_STATE_shutting_down; INSTANCE_STATE_terminated] ->
   count_instance instance L w
   = (Ok (mkCount (instance_cores_missing L - inst_size instance)
                  (running_instances L ++ [set_status_code instance 0])),
      snd (Instance_save (set_status_code instance 0) w))).
Proof.
  intros Hfix. apply Z.leb_le in Hfix.
  unfold count_instance. rewrite Hfix. cbn [status_code set_status_code].
  repeat split.
  - intros Hin. apply existsb_Zeqb_In in Hin. rewrite Hin. reflexivity.
  - intros Hin.
    assert (Hno : existsb (Z.eqb (status_code instance - 256))
                    [INSTANCE_STATE_running; INSTANCE_STATE_pending;
                     INSTANCE_STATE_requested] = false).
    { apply existsb_Zeqb_not_In. intros H. simpl in Hin, H.
      unfold INSTANCE_STATE_running, INSTANCE_STATE_pending, INSTANCE_STATE_requested,
        INSTANCE_STATE_shutting_down, INSTANCE_STATE_terminated in *. lia. }
    apply existsb_Zeqb_In in Hin. rewrite Hno, Hin. reflexivity.
  - intros Hnot.
    assert (Hno1 : existsb (Z.eqb (status_code instance - 256))
                     [INSTANCE_STATE_running; INSTANCE_STATE_pending;
                      INSTANCE_STATE_requested] = false).
    { apply existsb_Zeqb_not_In. intros H. apply Hnot. simpl in *. tauto. }
    assert (Hno2 : existsb (Z.eqb (status_code instance - 256))
                     [INSTANCE_STATE_shutting_down; INSTANCE_STATE_terminated] = false).
    { apply existsb_Zeqb_not_In. intros H. apply Hnot. simpl in *. tauto. }
    rewrite Hno1, Hno2. reflexivity.
Qed.

Lemma count_instance_fixed_code_witness :
  256 <= status_code instance_272 /\
  (In (status_code instance_272 - 256)
      [INSTANCE_STATE_running; INSTANCE_STATE_pending; INSTANCE_STATE_requested] ->
   count_instance instance_272 (mkCount 8 []) world_cheap
   = (Ok (mkCount (8 - inst_size instance_272)
                  ([] ++ [set_status_code instance_272 (status_code instance_272 - 256)])),
      world_cheap)) /\
  In (status_code instance_272 - 256)
     [INSTANCE_STATE_running; INSTANCE_STATE_pending; INSTANCE_STATE_requested].
Proof.
  assert (H : 256 <= status_code instance_272) by (vm_compute; discriminate).
  split; [exact H|]. split.
  - exact (proj1 (count_instance_fixed_code instance_272 (mkCount 8 []) world_cheap H)).
  - left. reflexivity.
Defined.

(** The count on the two instances with codes above 256: the first is counted
    as running and its row keeps 272, the second is saved with 0. *)
Example count_instance_272_263 :
  let w := mkWorld [instance_272; instance_263] 3 [] [pool_eight] cache_cheap [] 2000 0 [] in
  let r := for_fold [instance_272; instance_263] count_instance (mkCount 8 []) w in
  fst r = Ok (mkCount 0 [set_status_code instance_272 16; set_status_code instance_263 0]) /\
  db_instances (snd r) = [instance_272; set_status_code instance_263 0].
Proof. vm_compute. split; reflexivity. Qed.

(** The count never fails, and afterwards the rows of the pool that were not
    yet counted are the only ones that may be shutting down or terminated. *)
Lemma count_instance_keeps (pool : Z) (instance : Instance) (todo : list Instance)
    (L : CountLocals) (w : World) :
  (forall r, In r (db_instances w) -> inst_pool r = pool ->
             not_terminated r \/ In r (instance :: todo)) ->
  exists L' w',
    count_instance instance L w = (Ok L', w') /\
    forall r, In r (db_instances w') -> inst_pool r = pool ->
              not_terminated r \/ In r todo.
Proof.
  intros Hinv. unfold count_instance.
  set (fixed := 256 <=? status_code instance).
  set (i1 := if fixed then set_status_code instance (status_code instance - 256)
             else instance).
  destruct (existsb (Z.eqb (status_code i1))
              [INSTANCE_STATE_running; INSTANCE_STATE_pending; INSTANCE_STATE_requested])
    eqn:Hrun.
  - (* counted: the row is as it was *)
    eexists _, w. split; [reflexivity|]. intros r Hr Hp.
    destruct (Hinv r Hr Hp) as [Hg|[<-|Hin]]; auto. left.
    apply existsb_Zeqb_In in Hrun. subst i1 fixed.
    unfold not_terminated, INSTANCE_STATE_running, INSTANCE_STATE_pending,
      INSTANCE_STATE_requested, INSTANCE_STATE_shutting_down,
      INSTANCE_STATE_terminated in *.
    destruct (256 <=? status_code instance) eqn:Hfix; simpl in Hrun.
    + assert (Hs : status_code instance = 272 \/ status_code instance = 256
                   \/ status_code instance = 512) by lia.
      destruct Hs as [-> | [-> | ->]]; vm_compute; split; discriminate.
    + apply Z.leb_gt in Hfix.
      assert (Hs : status_code instance = 16 \/ status_code instance = 0) by lia.
      destruct Hs as [-> | ->]; vm_compute; split; discriminate.
  - destruct (existsb (Z.eqb (status_code i1))
                [INSTANCE_STATE_shutting_down; INSTANCE_STATE_terminated]) eqn:Hterm.
    + (* deleted *)
      eexists _, _. split; [reflexivity|]. cbn [db_instances with_instances].
      intros r Hr Hp. apply filter_In in Hr as [Hr Hpk].
      destruct (Hinv r Hr Hp) as [Hg|[<-|Hin]]; auto.
      exfalso. apply negb_true_iff in Hpk. unfold same_pk in Hpk.
      assert (Heq : inst_pk i1 = inst_pk instance) by (subst i1; destruct fixed; reflexivity).
      rewrite Heq, Z.eqb_refl in Hpk. discriminate.
    + (* saved with a status code of 0 *)
      eexists _, _. split; [reflexivity|]. cbn [db_instances with_instances].
      set (saved := set_status_code _ 0).
      assert (Hsaved : not_terminated saved)
        by (subst saved; vm_compute; split; discriminate).
      assert (Hpk : inst_pk saved = inst_pk instance)
        by (subst saved i1; destruct fixed; reflexivity).
      intros r Hr Hp.
      destruct (existsb (same_pk saved) (db_instances w)) eqn:Hex.
      * apply in_map_iff in Hr as (r0 & Hr0 & Hin0).
        destruct (same_pk saved r0) eqn:Hsame; [left; now subst r|].
        subst r0. destruct (Hinv r Hin0 Hp) as [Hg|[<-|Hin]]; auto.
        exfalso. unfold same_pk in Hsame. rewrite Hpk, Z.eqb_refl in Hsame. discriminate.
      * apply in_app_or in Hr as [Hr|[<-|[]]]; [|now left].
        destruct (Hinv r Hr Hp) as [Hg|[<-|Hin]]; auto.
        exfalso. (* the row of [instance] would have been found by its key *)
        assert (Hfound : existsb (same_pk saved) (db_instances w) = true).
        { apply existsb_exists. exists instance. split; [exact Hr|].
          unfold same_pk. rewrite Hpk. apply Z.eqb_refl. }
        congruence.
Qed.

(** C7, as amended. The capacity count of a tick, which follows
    [_update_pool_instances], never fails, and after it no instance of the
    pool is left in the store whose stripped status code is shutting-down or
    terminated. *)
Theorem count_removes_terminated (pool : Z) (L : CountLocals) (w : World) :
  exists L' w',
    for_fold (List.filter (fun i => inst_pool i =? pool) (db_instances w))
             count_instance L w = (Ok L', w') /\
    forall r, In r (db_instances w') -> inst_pool r = pool -> not_terminated r.
Proof.
  assert (Hloop : forall todo L w,
             (forall r, In r (db_instances w) -> inst_pool r = pool ->
                        not_terminated r \/ In r todo) ->
             exists L' w',
               for_fold todo count_instance L w = (Ok L', w') /\
               forall r, In r (db_instances w') -> inst_pool r = pool ->
                         not_terminated r).
  { clear L w. induction todo as [|instance todo IH]; intros L w Hinv.
    - exists L, w. split; [reflexivity|]. intros r Hr Hp.
      destruct (Hinv r Hr Hp) as [Hg|[]]. exact Hg.
    - destruct (count_instance_keeps pool instance todo L w Hinv)
        as (L1 & w1 & Hstep & Hinv1).
      destruct (IH L1 w1 Hinv1) as (L' & w' & Hrest & Hall).
      exists L', w'. split; [|exact Hall].
      simpl. unfold bind. rewrite Hstep. exact Hrest. }
  apply Hloop. intros r Hr Hp. right. apply filter_In. split; [exact Hr|].
  now apply Z.eqb_eq.
Qed.

(** C7 as stated fails: [_update_pool_instances] runs to its end and leaves
    the instance in the store with the status code the provider reports,
    shutting-down; only the count of the tick deletes it. *)
Lemma update_keeps_shutting_down :
  let r := _update_pool_instances (provider_with [boto_shutting_down])
             pool_eight config_eight world_running in
  fst r = Ok true /\
  db_instances (snd r) = [set_status_code instance_running 32] /\
  ~ not_terminated (set_status_code instance_running 32).
Proof.
  split; [vm_compute; reflexivity|]. split; [vm_compute; reflexivity|].
  intros [H _]. apply H. reflexivity.
Qed.

(** ** Scale-up without a region *)

(** C2: the code fails where the claim promises a price-too-low entry. On
    the second scenario of the specification the selector finds no region,
    and [_start_pool_instances] raises [KeyError] at
    [CORES_PER_INSTANCE[instance_type]] before it looks at the region: no
    entry is recorded, no request is issued and the function does not
    return normally. *)
Theorem start_without_region_raises :
  best_region_zone price_median config_eight cache_dear
  = Ok (None, None, None, [("us-east-1a", 0.125%float)]) /\
  fst (_start_pool_instances price_median handle_tags_plain (provider_with [])
         pool_eight config_eight 8 world_dear) = Raise KeyError /\
  db_entries (snd (_start_pool_instances price_median handle_tags_plain (provider_with [])
                     pool_eight config_eight 8 world_dear)) = [] /\
  trace (snd (_start_pool_instances price_median handle_tags_plain (provider_with [])
                pool_eight config_eight 8 world_dear)) = [EvStart 1 8].
Proof. vm_compute. repeat split; reflexivity. Qed.

(** The same on every input: whenever the selector returns no instance
    type, the conversion of the count raises [KeyError], and all that has
    happened is the entry into the function. *)
Lemma start_without_type_raises (median : list float -> float)
    (handle_tags : string -> list (string * string) -> string) (P : Provider)
    (pool : InstancePool) (config : Config) (count : Z) (w : World) sizes region zone rejected :
  filter_sizes (ec2_instance_types config) count (mkSizes [] None []) = Ok sizes ->
  best_region_zone median
    (set_ec2_instance_types config
       (if nonempty (acceptable_types sizes) then acceptable_types sizes else smallest sizes))
    (redis w) = Ok (region, zone, None, rejected) ->
  _start_pool_instances median handle_tags P pool config count w
  = (Raise KeyError, emit (EvStart (pool_pk pool) count) w).
Proof.
  intros Hsizes Hsel.
  unfold _start_pool_instances, bind, modify, of_res, try_except, _get_best_region_zone,
    gets, ret. cbn [redis emit].
  rewrite Hsizes. unfold bind, gets, of_res. cbn [redis emit].
  rewrite Hsel. reflexivity.
Qed.

(** With a region, the price-too-low entries of the pool are deleted and the
    requests are made: the first scenario of the specification. *)
Example start_with_region_requests :
  let r := _start_pool_instances price_median handle_tags_plain (provider_with [])
             pool_eight config_eight 8 world_cheap in
  fst r = Ok tt /\
  map (fun i => (ec2_instance_id i, inst_size i, status_code i)) (db_instances (snd r))
  = [("sir-0", 4, 256); ("sir-1", 4, 256)].
Proof. vm_compute. split; reflexivity. Qed.

(** ** Entries for provider errors *)

Lemma filter_app_length {A} (f : A -> bool) (l l' : list A) :
  length (List.filter f (l ++ l')) = (length (List.filter f l) + length (List.filter f l'))%nat.
Proof. rewrite List.filter_app, List.length_app. reflexivity. Qed.

(** C4, as amended. When a provider error is reported, an entry for
    [MaxSpotInstanceCountExceeded] is suppressed if the pool holds one
    already, so that afterwards the pool holds one, or as many as before;
    a temporary-failure entry is written for every [Service Unavailable]
    error, whether the pool holds one or not, so that each report adds one. *)
Theorem report_boto_error_entries (pool : Z) (e : exn) (w : World) :
  (substring_in "MaxSpotInstanceCountExceeded" (exn_str e) = true ->
   count_entries pool max_spot_instance_count_exceeded (snd (report_boto_error pool e w))
   = Nat.max 1 (count_entries pool max_spot_instance_count_exceeded w) /\
   count_entries pool temporary_failure (snd (report_boto_error pool e w))
   = count_entries pool temporary_failure w) /\
  (substring_in "MaxSpotInstanceCountExceeded" (exn_str e) = false ->
   substring_in "Service Unavailable" (exn_str e) = true ->
   count_entries pool temporary_failure (snd (report_boto_error pool e w))
   = Datatypes.S (count_entries pool temporary_failure w)).
Proof.
  unfold report_boto_error, count_entries. split.
  - intros ->. unfold bind, Entry_filter_type, gets.
    destruct (List.filter (entry_is pool max_spot_instance_count_exceeded) (db_entries w))
      as [|x l] eqn:Hf; cbn [nonempty].
    + unfold Entry_create, modify. cbn [snd db_entries with_entries].
      rewrite !filter_app_length, Hf. unfold entry_is. simpl.
      rewrite Z.eqb_refl. simpl. split; [reflexivity|]. lia.
    + unfold ret. cbn [snd]. rewrite Hf. split; reflexivity.
  - intros -> ->. unfold Entry_create, modify. cbn [snd db_entries with_entries].
    rewrite filter_app_length. unfold entry_is. simpl.
    rewrite Z.eqb_refl. simpl. lia.
Qed.

Lemma report_boto_error_entries_witness :
  substring_in "MaxSpotInstanceCountExceeded"
    (exn_str (BotoServerError "BotoServerError: 503 Service Unavailable")) = false /\
  substring_in "Service Unavailable"
    (exn_str (BotoServerError "BotoServerError: 503 Service Unavailable")) = true /\
  count_entries 1 temporary_failure
    (snd (report_boto_error 1 (BotoServerError "BotoServerError: 503 Service Unavailable")
            world_failed_before))
  = Datatypes.S (count_entries 1 temporary_failure world_failed_before).
Proof.
  split; [reflexivity|]. split; [reflexivity|].
  apply (proj2 (report_boto_error_entries 1
                  (BotoServerError "BotoServerError: 503 Service Unavailable")
                  world_failed_before)); reflexivity.
Defined.

(** C4 as stated fails: a pool that holds a temporary-failure entry holds two
    after a scale-up that meets an unavailable provider. *)
Lemma temporary_failure_is_repeated :
  count_entries 1 temporary_failure world_failed_before = 1%nat /\
  fst (_start_pool_instances price_median handle_tags_plain provider_unavailable
         pool_eight config_eight 8 world_failed_before) = Ok tt /\
  count_entries 1 temporary_failure
    (snd (_start_pool_instances price_median handle_tags_plain provider_unavailable
            pool_eight config_eight 8 world_failed_before)) = 2%nat.
Proof. vm_compute. repeat split; reflexivity. Qed.

(** ** Scale-down *)

(** The selection of the oldest instances never exceeds the excess: the
    cores still missing stay at or below zero, and grow by the sizes of the
    instances selected. *)
Lemma select_oldest_sum (ordered : list Instance) (missing : Z) (selected : list Instance) :
  missing <= 0 ->
  let r := select_oldest ordered missing selected in
  snd r <= 0 /\
  snd r - missing = total_size (fst r) - total_size selected /\
  exists added, fst r = selected ++ added.
Proof.
  revert missing selected.
  assert (Hsnoc : forall l i, total_size (l ++ [i]) = total_size l + inst_size i).
  { induction l as [|x l IH]; intros i; simpl; [lia|]. rewrite IH. lia. }
  induction ordered as [|instance rest IH]; intros missing selected Hneg; simpl.
  - repeat split; [exact Hneg|lia|]. exists []. now rewrite app_nil_r.
  - destruct (0 <? missing + inst_size instance) eqn:Hover.
    + now apply IH.
    + apply Z.ltb_ge in Hover.
      destruct (missing + inst_size instance =? 0) eqn:Hzero; simpl.
      * apply Z.eqb_eq in Hzero. rewrite Hsnoc. repeat split; [lia|lia|].
        now exists [instance].
      * destruct (IH (missing + inst_size instance) (selected ++ [instance]) Hover)
          as (Hle & Hsum & added & Hadd).
        simpl in *. rewrite Hsnoc in Hsum. repeat split; [exact Hle|lia|].
        exists (instance :: added). rewrite Hadd, <- app_assoc. reflexivity.
Qed.

(** C6: the code fails where the claim promises the termination of the
    selected instances. In a pool of two cores that holds two running
    instances of two cores, the oldest is selected for an excess of two; the
    tick then raises [AttributeError] at [instance.count], an attribute the
    instances do not have, before [_terminate_pool_instances] is entered:
    the provider is asked to connect and to find, never to terminate. *)
Theorem scale_down_raises_AttributeError :
  select_oldest (order_by_created (db_instances world_over)) (-2) [] = ([instance_old], 0) /\
  fst (check_instance_pool price_median handle_tags_plain
         (provider_with [boto_running "i-1" "host-1"; boto_running "i-2" "host-2"])
         1 world_over) = Raise AttributeError /\
  trace (snd (check_instance_pool price_median handle_tags_plain
                (provider_with [boto_running "i-1" "host-1"; boto_running "i-2" "host-2"])
                1 world_over))
  = [EvUpdate 1; EvProvider 0 (Pconnect "us-east-1");
     EvProvider 1 (Pfind_by_pool "us-east-1" "1")].
Proof. vm_compute. repeat split; reflexivity. Qed.

(** ** Frozen pools *)

Lemma filter_not_held (pool_id : Z) (l : list Z) :
  existsb (Z.eqb pool_id) l = false ->
  List.filter (fun x => negb (x =? pool_id)) l = l.
Proof.
  induction l as [|x l IH]; simpl; [reflexivity|].
  intros H. apply orb_false_iff in H as [Hx Hl].
  rewrite Z.eqb_sym, Hx. simpl. now rewrite IH.
Qed.

Lemma frozen_pool_locked (median : list float -> float)
    (handle_tags : string -> list (string * string) -> string) (P : Provider)
    (pool_id : Z) (instance_pool : InstancePool) (w : World) :
  pool_row pool_id w = Some instance_pool ->
  is_frozen (pool_pk instance_pool) w = true ->
  check_instance_pool_locked median handle_tags P pool_id w = (Ok tt, w).
Proof.
  unfold pool_row, is_frozen. intros Hrow Hfrozen.
  unfold check_instance_pool_locked, Pool_get, bind, gets.
  destruct (List.filter (fun p => pool_pk p =? pool_id) (db_pools w)) as [|p rest];
    [discriminate|].
  injection Hrow as ->. unfold ret, Entry_filter_critical, bind, gets.
  rewrite Hfrozen. reflexivity.
Qed.

(** C3, as amended. A tick on a pool that is frozen, that is, holds a
    critical status entry, returns at once and leaves the world as it
    found it: [_update_pool_instances] is not entered, the provider is not
    asked, no instance and no entry is touched. *)
Theorem frozen_pool_is_skipped (median : list float -> float)
    (handle_tags : string -> list (string * string) -> string) (P : Provider)
    (pool_id : Z) (instance_pool : InstancePool) (w : World) :
  pool_row pool_id w = Some instance_pool ->
  is_frozen (pool_pk instance_pool) w = true ->
  check_instance_pool median handle_tags P pool_id w = (Ok tt, w).
Proof.
  intros Hrow Hfrozen.
  unfold check_instance_pool, bind, gets.
  destruct (existsb (Z.eqb pool_id) (locks w)) eqn:Hheld; [reflexivity|].
  unfold modify, try_finally.
  rewrite (frozen_pool_locked median handle_tags P pool_id instance_pool
             (with_locks (cons pool_id) w) Hrow Hfrozen).
  unfold with_locks. cbn [locks List.filter db_instances db_next_pk db_entries db_pools
                          redis now calls trace].
  rewrite Z.eqb_refl. cbn [negb]. rewrite (filter_not_held _ _ Hheld).
  destruct w; reflexivity.
Qed.

Lemma frozen_pool_is_skipped_witness :
  pool_row 1 world_frozen = Some pool_eight /\
  is_frozen (pool_pk pool_eight) world_frozen = true /\
  check_instance_pool price_median handle_tags_plain (provider_with [boto_terminated])
    1 world_frozen = (Ok tt, world_frozen).
Proof.
  split; [reflexivity|]. split; [reflexivity|].
  apply (frozen_pool_is_skipped price_median handle_tags_plain
           (provider_with [boto_terminated]) 1 pool_eight world_frozen); reflexivity.
Defined.

(** C3 as stated fails: on a frozen pool whose instance the provider has
    terminated, the tick leaves the instance stored as running and asks the
    provider nothing, where [_update_pool_instances] would have stored the
    status the provider reports. *)
Lemma frozen_pool_is_not_refreshed :
  is_frozen 1 world_frozen = true /\
  map status_code
      (db_instances (snd (check_instance_pool price_median handle_tags_plain
                            (provider_with [boto_terminated]) 1 world_frozen)))
  = [16] /\
  trace (snd (check_instance_pool price_median handle_tags_plain
                (provider_with [boto_terminated]) 1 world_frozen)) = [] /\
  map status_code
      (db_instances (snd (_update_pool_instances (provider_with [boto_terminated])
                            pool_eight config_eight world_frozen)))
  = [48].
Proof. vm_compute. repeat split; reflexivity. Qed.

(** ** Rules for the writes of a task *)

Lemma steps_app (l1 l2 : list Step) (w : World) :
  steps (l1 ++ l2) w = steps l2 (steps l1 w).
Proof. unfold steps. apply fold_left_app. Qed.

Lemma effects_conseq {A} (m : M A) (Q Q' : res A -> list Step -> Prop) :
  effects m Q -> (forall r l, Q r l -> Q' r l) -> effects m Q'.
Proof.
  intros Hm Himp w. destruct (Hm w) as (l & Hw & Hq). exists l. auto.
Qed.

Lemma effects_ret {A} (a : A) (Q : res A -> list Step -> Prop) :
  Q (Ok a) [] -> effects (ret a) Q.
Proof. intros H w. exists []. auto. Qed.

Lemma effects_raise {A} (e : exn) (Q : res A -> list Step -> Prop) :
  Q (Raise e) [] -> effects (raise e) Q.
Proof. intros H w. exists []. auto. Qed.

Lemma effects_gets {A} (f : World -> A) (Q : res A -> list Step -> Prop) :
  (forall a, Q (Ok a) []) -> effects (gets f) Q.
Proof. intros H w. exists []. split; [reflexivity|apply H]. Qed.

Lemma effects_of_res {A} (r : res A) (Q : res A -> list Step -> Prop) :
  Q r [] -> effects (of_res r) Q.
Proof. intros H w. exists []. auto. Qed.

Lemma effects_of_option {A} (e : exn) (o : option A) (Q : res A -> list Step -> Prop) :
  match o with
  | Some a => Q (Ok a) []
  | None => Q (Raise e) []
  end ->
  effects (of_option e o) Q.
Proof. intros H w. exists []. destruct o; simpl; auto. Qed.

Lemma effects_modify (f : World -> World) (s : Step) (Q : res unit -> list Step -> Prop) :
  (forall w, f w = step s w) -> Q (Ok tt) [s] -> effects (modify f) Q.
Proof. intros Hf H w. exists [s]. split; [apply Hf|exact H]. Qed.

(** The result of a provider call is the answer of the provider at some
    number. *)
Lemma effects_provider_call {A} (c : ProviderCall) (answer : nat -> res A)
    (Q : res A -> list Step -> Prop) :
  (forall n, Q (answer n) [SCall c]) -> effects (provider_call c answer) Q.
Proof. intros H w. exists [SCall c]. split; [reflexivity|apply H]. Qed.

Lemma effects_bind {A B} (m : M A) (k : A -> M B) (Q : res B -> list Step -> Prop) :
  effects m (fun r l1 =>
               match r with
               | Ok a => effects (k a) (fun r' l2 => Q r' (l1 ++ l2))
               | Raise e => Q (Raise e) l1
               end) ->
  effects (bind m k) Q.
Proof.
  intros Hm w. unfold bind. destruct (Hm w) as (l1 & Hw & Hq).
  destruct (m w) as [[a|e] w1]; simpl in *.
  - destruct (Hq w1) as (l2 & Hw2 & Hq2). exists (l1 ++ l2).
    rewrite steps_app, <- Hw. auto.
  - exists l1. auto.
Qed.

Lemma effects_try_except {A} (m : M A) (h : exn -> option (M A))
    (Q : res A -> list Step -> Prop) :
  effects m (fun r l1 =>
               match r with
               | Ok a => Q (Ok a) l1
               | Raise e => match h e with
                            | Some k => effects k (fun r' l2 => Q r' (l1 ++ l2))
                            | None => Q (Raise e) l1
                            end
               end) ->
  effects (try_except m h) Q.
Proof.
  intros Hm w. unfold try_except. destruct (Hm w) as (l1 & Hw & Hq).
  destruct (m w) as [[a|e] w1]; simpl in *.
  - exists l1. auto.
  - destruct (h e) as [k|].
    + destruct (Hq w1) as (l2 & Hw2 & Hq2). exists (l1 ++ l2).
      rewrite steps_app, <- Hw. auto.
    + exists l1. auto.
Qed.

Lemma effects_try_finally {A} (m : M A) (c : World -> World) (s : Step)
    (Q : res A -> list Step -> Prop) :
  (forall w, c w = step s w) ->
  effects m (fun r l => Q r (l ++ [s])) ->
  effects (try_finally m c) Q.
Proof.
  intros Hc Hm w. unfold try_finally. destruct (Hm w) as (l & Hw & Hq).
  destruct (m w) as [r w1]; simpl in *. exists (l ++ [s]).
  rewrite steps_app, <- Hw, Hc. auto.
Qed.

(** A loop keeps an invariant [J] of its locals and of the writes so far. *)
Lemma effects_for_fold {X S} (J : S -> list Step -> Prop) (body : X -> S -> M S)
    (l : list X) (s0 : S) (Q : res S -> list Step -> Prop) :
  J s0 [] ->
  (forall x s l1, J s l1 ->
     effects (body x s) (fun r l2 => match r with
                                     | Ok s' => J s' (l1 ++ l2)
                                     | Raise e => Q (Raise e) (l1 ++ l2)
                                     end)) ->
  (forall s l1, J s l1 -> Q (Ok s) l1) ->
  effects (for_fold l body s0) Q.
Proof.
  intros H0 Hbody Hend.
  assert (Hgen : forall s l1, J s l1 ->
                   effects (for_fold l body s) (fun r l2 => Q r (l1 ++ l2))).
  { induction l as [|x rest IH]; intros s l1 Hj.
    - simpl. apply effects_ret. rewrite app_nil_r. now apply Hend.
    - simpl. apply effects_bind.
      eapply effects_conseq; [apply (Hbody x s l1 Hj)|].
      intros [s'|e] l2 H; cbv beta iota in *.
      + eapply effects_conseq; [apply (IH s' (l1 ++ l2) H)|].
        intros r l3 H3. cbv beta in H3. now rewrite app_assoc.
      + exact H. }
  eapply effects_conseq; [apply (Hgen s0 [] H0)|]. intros r l2 H. exact H.
Qed.

Lemma effects_for_each {X S R} (J : S -> list Step -> Prop)
    (body : X -> S -> M (flow S R)) (l : list X) (s0 : S)
    (Q : res (S + R) -> list Step -> Prop) :
  J s0 [] ->
  (forall x s l1, J s l1 ->
     effects (body x s) (fun r l2 => match r with
                                     | Ok (Next s') => J s' (l1 ++ l2)
                                     | Ok (Return v) => Q (Ok (inr v)) (l1 ++ l2)
                                     | Raise e => Q (Raise e) (l1 ++ l2)
                                     end)) ->
  (forall s l1, J s l1 -> Q (Ok (inl s)) l1) ->
  effects (for_each l body s0) Q.
Proof.
  intros H0 Hbody Hend.
  assert (Hgen : forall s l1, J s l1 ->
                   effects (for_each l body s) (fun r l2 => Q r (l1 ++ l2))).
  { induction l as [|x rest IH]; intros s l1 Hj.
    - simpl. apply effects_ret. rewrite app_nil_r. now apply Hend.
    - simpl. apply effects_bind.
      eapply effects_conseq; [apply (Hbody x s l1 Hj)|].
      intros [[s'|v]|e] l2 H; cbv beta iota in *.
      + eapply effects_conseq; [apply (IH s' (l1 ++ l2) H)|].
        intros r l3 H3. cbv beta in H3. now rewrite app_assoc.
      + apply effects_ret. now rewrite app_nil_r.
      + exact H. }
  eapply effects_conseq; [apply (Hgen s0 [] H0)|]. intros r l2 H. exact H.
Qed.

(** ** What the writes leave alone *)

Lemma events_app (l1 l2 : list Step) (n : nat) :
  events (l1 ++ l2) n
  = events l1 n ++ events l2 (n + length (List.filter is_call l1))%nat.
Proof.
  revert n. induction l1 as [|s l1 IH]; intros n; simpl.
  - now rewrite Nat.add_0_r.
  - destruct s; simpl; rewrite ?IH; try reflexivity.
    now rewrite Nat.add_succ_r.
Qed.

Lemma steps_keep {T} (proj : World -> T) (C : Step -> Prop) :
  (forall s w, C s -> proj (step s w) = proj w) ->
  forall l w, Forall C l -> proj (steps l w) = proj w.
Proof.
  intros Hstep l. induction l as [|s l IH]; intros w Hl; [reflexivity|].
  apply Forall_cons_iff in Hl as [Hs Hl]. simpl. rewrite (IH _ Hl). now apply Hstep.
Qed.

Lemma now_steps (l : list Step) (w : World) : now (steps l w) = now w.
Proof.
  apply (steps_keep now (fun _ => True)); [|now apply Forall_forall].
  intros [] w' _; reflexivity.
Qed.

Lemma calls_steps (l : list Step) (w : World) :
  calls (steps l w) = (calls w + length (List.filter is_call l))%nat.
Proof.
  revert w. induction l as [|s l IH]; intros w; simpl; [lia|].
  rewrite IH. destruct s; simpl; lia.
Qed.

Lemma trace_steps (l : list Step) (w : World) :
  trace (steps l w) = trace w ++ events l (calls w).
Proof.
  revert w. induction l as [|s l IH]; intros w; simpl.
  - now rewrite app_nil_r.
  - rewrite IH. destruct s; simpl; rewrite <- ?app_assoc; reflexivity.
Qed.

Lemma pools_steps (l : list Step) (w : World) :
  Forall (fun s => match s with SPoolSave _ => False | _ => True end) l ->
  db_pools (steps l w) = db_pools w.
Proof.
  apply (steps_keep db_pools). intros [] w' H; try reflexivity. destruct H.
Qed.

Lemma instances_steps (l : list Step) (w : World) :
  Forall (fun s => match s with
                   | SInstanceSave _ | SInstanceDelete _
                   | SInstanceCreate _ _ _ _ _ _ => False
                   | _ => True
                   end) l ->
  db_instances (steps l w) = db_instances w.
Proof.
  apply (steps_keep db_instances). intros [] w' H; try reflexivity; destruct H.
Qed.

Lemma locks_steps (l : list Step) (w : World) :
  Forall (fun s => match s with SLock _ | SUnlock _ => False | _ => True end) l ->
  locks (steps l w) = locks w.
Proof.
  apply (steps_keep locks). intros [] w' H; try reflexivity; destruct H.
Qed.

(** Without a deletion, the entries are those before and new ones. *)
Lemma entries_steps (l : list Step) (w : World) :
  Forall (fun s => match s with SEntryDelete _ _ => False | _ => True end) l ->
  exists es, db_entries (steps l w) = db_entries w ++ es.
Proof.
  revert w. induction l as [|s l IH]; intros w Hl.
  - exists []. simpl. now rewrite app_nil_r.
  - apply Forall_cons_iff in Hl as [Hs Hl]. simpl.
    destruct (IH (step s w) Hl) as (es & Hes). rewrite Hes.
    destruct s; try (exists es; reflexivity); try destruct Hs.
    simpl. eexists. rewrite <- app_assoc. reflexivity.
Qed.

(** The deletions of a task reach only the entries of the types it names. *)
Lemma entries_kept (keep : PoolStatusEntry -> bool) (l : list Step) (w : World)
    (e : PoolStatusEntry) :
  Forall (fun s => match s with
                   | SEntryDelete pool type =>
                       forall x, keep x = true -> entry_is pool type x = false
                   | _ => True
                   end) l ->
  keep e = true -> In e (db_entries w) -> In e (db_entries (steps l w)).
Proof.
  intros Hl Hkeep. revert w. induction l as [|s l IH]; intros w Hin; [exact Hin|].
  apply Forall_cons_iff in Hl as [Hs Hl]. simpl. apply (IH Hl).
  destruct s; try exact Hin.
  - simpl. apply in_or_app. now left.
  - simpl. apply filter_In. split; [exact Hin|]. now rewrite (Hs e Hkeep).
Qed.

Lemma fulfilled_app (l1 l2 : list Step) : fulfilled (l1 ++ l2) = fulfilled l1 || fulfilled l2.
Proof. apply existsb_app. Qed.

Lemma fulfilled_events (l : list Step) (n : nat) :
  Forall (fun s => match s with
                   | SEmit e => is_add_tag_event e = false
                   | _ => True
                   end) l ->
  existsb is_add_tag_event (events l n) = fulfilled l.
Proof.
  revert n. induction l as [|s l IH]; intros n Hl; [reflexivity|].
  apply Forall_cons_iff in Hl as [Hs Hl].
  destruct s; simpl; rewrite ?(IH _ Hl); try reflexivity.
  now rewrite Hs.
Qed.

Lemma Forall_impl_steps (C C' : Step -> Prop) (l : list Step) :
  (forall s, C s -> C' s) -> Forall C l -> Forall C' l.
Proof. intros H. apply List.Forall_impl. exact H. Qed.

(** One rule of the calculus, by the shape of the task. *)
Ltac eff_step :=
  lazymatch goal with
  | |- effects (bind _ _) _ => apply effects_bind
  | |- effects (ret _) _ => apply effects_ret
  | |- effects (raise _) _ => apply effects_raise
  | |- effects (gets _) _ => apply effects_gets; intros
  | |- effects timezone_now _ => apply effects_gets; intros
  | |- effects (Instance_filter_pool _) _ => apply effects_gets; intros
  | |- effects (Instance_filter_ec2_id _) _ => apply effects_gets; intros
  | |- effects (Entry_filter_type _ _) _ => apply effects_gets; intros
  | |- effects (Entry_filter_critical _) _ => apply effects_gets; intros
  | |- effects (of_res _) _ => apply effects_of_res
  | |- effects (of_option _ _) _ => apply effects_of_option
  | |- effects (provider_call _ _) _ => apply effects_provider_call; intros
  | |- effects (try_except _ _) _ => apply effects_try_except
  | |- effects (Instance_save ?i) _ =>
      apply (effects_modify _ (SInstanceSave i)); [reflexivity|]
  | |- effects (Instance_delete ?i) _ =>
      apply (effects_modify _ (SInstanceDelete i)); [reflexivity|]
  | |- effects (Instance_create ?p ?i ?r ?z ?c ?s) _ =>
      apply (effects_modify _ (SInstanceCreate p i r z c s)); [reflexivity|]
  | |- effects (Entry_create ?p ?t ?c ?m) _ =>
      apply (effects_modify _ (SEntryCreate p t c m)); [reflexivity|]
  | |- effects (Entry_delete_type ?p ?t) _ =>
      apply (effects_modify _ (SEntryDelete p t)); [reflexivity|]
  | |- effects (Pool_save ?p) _ =>
      apply (effects_modify _ (SPoolSave p)); [reflexivity|]
  | |- effects (modify (emit ?e)) _ =>
      apply (effects_modify _ (SEmit e)); [reflexivity|]
  | |- effects (modify (with_redis (fun c => cache_set c ?k ?v ?x))) _ =>
      apply (effects_modify _ (SCacheSet k v x)); [reflexivity|]
  | |- effects (if ?b then _ else _) _ => destruct b
  | |- effects (match ?x with _ => _ end) _ => destruct x
  | |- effects (let (_, _) := ?x in _) _ => destruct x
  | |- effects (let _ := _ in _) _ => cbv zeta
  | |- match (if ?b then _ else _) with _ => _ end => destruct b
  | |- match (match ?e with RuntimeError _ => _ | _ => _ end) with _ => _ end =>
      destruct e
  | |- match ?r with Ok _ => _ | Raise _ => _ end => destruct r eqn:?
  | |- match ?o with Some _ => _ | None => _ end => destruct o eqn:?
  | |- forall _, _ => intros
  end; cbv beta iota.

Ltac eff := repeat eff_step.

Lemma Forall_app_intro (C : Step -> Prop) (l1 l2 : list Step) :
  Forall C l1 -> Forall C l2 -> Forall C (l1 ++ l2).
Proof. intros H1 H2. apply Forall_app. auto. Qed.

Lemma Forall_cons_intro (C : Step -> Prop) (s : Step) (l : list Step) :
  C s -> Forall C l -> Forall C (s :: l).
Proof. intros H1 H2. constructor; auto. Qed.

(** The leaves: every write made is of the class asked for. *)
Ltac steps_ok :=
  cbn [app];
  repeat first [ apply Forall_app_intro
               | apply Forall_cons_intro; [exact I|]
               | apply Forall_nil ];
  auto.

(** ** The writes of the refresh from the provider *)

(** Use the lemma of a task that is called, and go on with what follows. *)
Ltac eff_use H := eapply effects_conseq; [apply H | intros ? ? ?; cbv beta iota].

Lemma report_boto_error_effects (pool : Z) (e : exn) :
  effects (report_boto_error pool e) (fun _ l => Forall is_report l).
Proof. unfold report_boto_error. eff; steps_ok. Qed.

Lemma connect_or_report_effects (P : Provider) (pool : Z) (region : string) :
  effects (connect_or_report P pool region) (fun _ l => Forall is_report l).
Proof. unfold connect_or_report. eff; steps_ok. Qed.

Lemma is_report_refresh (s : Step) : is_report s -> is_refresh s.
Proof. destruct s as [|c| | | | | | | | |]; simpl; auto. Qed.

Lemma is_report_quiet (l : list Step) :
  Forall is_report l -> Forall is_refresh l /\ fulfilled l = false.
Proof.
  intros H. split; [revert H; apply Forall_impl_steps, is_report_refresh|].
  induction H as [|s l Hs Hl IH]; [reflexivity|].
  simpl. rewrite IH. destruct s as [|c| | | | | | | | |]; try reflexivity.
  destruct c; simpl in *; try reflexivity. destruct Hs.
Qed.

Lemma refreshed_refl (L : UpdateLocals) : refreshed L (Some L) [].
Proof. split; [constructor|]. simpl. now rewrite orb_false_r. Qed.

Lemma refreshed_trans (L L1 : UpdateLocals) (L2 : option UpdateLocals) (l1 l2 : list Step) :
  refreshed L (Some L1) l1 -> refreshed L1 L2 l2 -> refreshed L L2 (l1 ++ l2).
Proof.
  intros [H1 E1] [H2 E2]. split; [apply Forall_app; auto|].
  destruct L2 as [L2|]; [|exact I].
  rewrite E2, E1, fulfilled_app. now rewrite orb_assoc.
Qed.

Lemma refreshed_quiet (L : UpdateLocals) (L' : option UpdateLocals) (l : list Step) :
  Forall is_refresh l -> fulfilled l = false ->
  match L' with
  | Some L' => instances_created L' = instances_created L
  | None => True
  end ->
  refreshed L L' l.
Proof.
  intros Hl Hf HL. split; [exact Hl|]. destruct L'; [|exact I].
  now rewrite Hf, orb_false_r.
Qed.

Lemma update_spot_result_effects (P : Provider) (pool : InstancePool) (region : string)
    (rr : string * SpotResult) (L : UpdateLocals) :
  effects (update_spot_result P pool region rr L)
          (fun r l => refreshed L (ok_locals r) l).
Proof.
  unfold update_spot_result. destruct rr as [req_id result].
  eff; (split; [steps_ok | cbn; rewrite ?orb_false_r, ?orb_true_r; auto]).
Qed.

Lemma update_boto_instance_effects (pool : InstancePool) (region : string)
    (b : BotoInstance) (L : UpdateLocals) :
  effects (update_boto_instance pool region b L)
          (fun r l => refreshed L (ok_locals r) l).
Proof.
  unfold update_boto_instance.
  eff; (split; [steps_ok | cbn; rewrite ?orb_false_r, ?orb_true_r; auto]).
Qed.

Lemma refreshed_bind {B} (m : M UpdateLocals) (k : UpdateLocals -> M B)
    (L : UpdateLocals) (f : res B -> option UpdateLocals) :
  (forall e, f (Raise e) = None) ->
  effects m (fun r l => refreshed L (ok_locals r) l) ->
  (forall L1, effects (k L1) (fun r l => refreshed L1 (f r) l)) ->
  effects (bind m k) (fun r l => refreshed L (f r) l).
Proof.
  intros Hf Hm Hk. apply effects_bind. eapply effects_conseq; [exact Hm|].
  intros [L1|e] l H; cbv beta iota.
  - eapply effects_conseq; [apply Hk|]. intros r' l2 H2.
    exact (refreshed_trans _ _ _ _ _ H H2).
  - rewrite Hf. exact H.
Qed.

Lemma refreshed_bind_quiet {A B} (m : M A) (k : A -> M B)
    (L : UpdateLocals) (f : res B -> option UpdateLocals) :
  (forall e, f (Raise e) = None) ->
  effects m (fun r l => Forall is_refresh l /\ fulfilled l = false) ->
  (forall a, effects (k a) (fun r l => refreshed L (f r) l)) ->
  effects (bind m k) (fun r l => refreshed L (f r) l).
Proof.
  intros Hf Hm Hk. apply effects_bind. eapply effects_conseq; [exact Hm|].
  intros [a|e] l [Hl Hq]; cbv beta iota.
  - eapply effects_conseq; [apply Hk|]. intros r' l2 H2.
    apply (refreshed_trans L L (f r') l l2); [|exact H2].
    apply (refreshed_quiet L (Some L)); auto.
  - rewrite Hf. split; [exact Hl|exact I].
Qed.

Lemma refreshed_for_fold {X} (body : X -> UpdateLocals -> M UpdateLocals)
    (xs : list X) (L : UpdateLocals) :
  (forall x L1, effects (body x L1) (fun r l => refreshed L1 (ok_locals r) l)) ->
  effects (for_fold xs body L) (fun r l => refreshed L (ok_locals r) l).
Proof.
  intros Hbody.
  apply effects_for_fold with (J := fun L' l => refreshed L (Some L') l).
  - apply refreshed_refl.
  - intros x L1 l1 HJ. eapply effects_conseq; [apply Hbody|].
    intros [L2|e] l2 H; simpl in H.
    + exact (refreshed_trans _ _ _ _ _ HJ H).
    + exact (refreshed_trans _ _ None _ _ HJ H).
  - intros L1 l1 HJ. exact HJ.
Qed.


Lemma refreshed_try_report (pool : Z) (m : M (flow UpdateLocals unit)) (L : UpdateLocals) :
  effects m (fun r l => refreshed L (flow_locals r) l) ->
  effects (try_except m
             (fun e => if is_boto_error e
                       then Some (report_boto_error pool e ;;; ret (Return tt))
                       else None))
          (fun r l => refreshed L (flow_locals r) l).
Proof.
  intros Hm. apply effects_try_except. eapply effects_conseq; [exact Hm|].
  intros [a|e] l H; cbv beta iota; [exact H|].
  destruct (is_boto_error e); [|exact H].
  apply effects_bind. eff_use report_boto_error_effects.
  destruct H as [Hl _]. apply is_report_quiet in H0 as [H0 _].
  destruct r; [apply effects_ret|]; (split; [steps_ok|exact I]).
Qed.

Lemma update_region_effects (P : Provider) (pool : InstancePool) (config : Config)
    (region : string) (L : UpdateLocals) :
  effects (update_region P pool config region L)
          (fun r l => refreshed L (flow_locals r) l).
Proof.
  unfold update_region. apply effects_bind.
  eff_use connect_or_report_effects. apply is_report_quiet in H as [H Hq].
  destruct r as [connected|e]; [|split; [exact H|exact I]].
  assert (Hrest : forall m : M (flow UpdateLocals unit),
             effects m (fun r l => refreshed L (flow_locals r) l) ->
             effects m (fun r l2 => refreshed L (flow_locals r) (l ++ l2))).
  { intros m Hm. eapply effects_conseq; [exact Hm|]. intros r l2 [Hl2 E].
    split; [steps_ok|]. destruct (flow_locals r); [|exact I].
    rewrite E, fulfilled_app. now rewrite Hq. }
  destruct connected; cbn [negb]; apply Hrest;
    [|apply effects_ret; split; [constructor|exact I]].
  apply refreshed_try_report.
  apply refreshed_bind_quiet; [reflexivity| |intros ids].
  { eff; split; constructor. }
  apply refreshed_bind_quiet; [reflexivity| |intros requested].
  { eff; split; constructor. }
  apply refreshed_bind; [reflexivity| |intros L1].
  { destruct (nonempty requested); [|apply effects_ret, refreshed_refl].
    apply effects_bind, effects_provider_call. intros n.
    destruct (check_spot_requests P n region requested) as [boto_results|e];
      cbv beta iota.
    - eapply effects_conseq;
        [apply refreshed_for_fold; intros; apply update_spot_result_effects|].
      intros r l2 H2. apply (refreshed_trans L L (ok_locals r) _ l2); [|exact H2].
      apply refreshed_quiet; [steps_ok|reflexivity|reflexivity].
    - split; [steps_ok|exact I]. }
  apply refreshed_bind_quiet; [reflexivity| |intros boto_instances].
  { eff; split; steps_ok. }
  apply refreshed_bind with (f := flow_locals); [reflexivity| |intros L2].
  { apply refreshed_for_fold; intros; apply update_boto_instance_effects. }
  apply effects_ret, refreshed_refl.
Qed.

Lemma update_regions_effects (P : Provider) (pool : InstancePool) (config : Config) :
  effects (update_regions P pool config)
          (fun r l => Forall is_refresh l /\
                      match r with
                      | Ok (inl L) => instances_created L = fulfilled l
                      | _ => True
                      end).
Proof.
  unfold update_regions. apply effects_bind, effects_gets. intros instances.
  cbv beta iota zeta.
  set (L0 := mkLocals _ _ _ false).
  apply effects_for_each with (J := fun L' l => refreshed L0 (Some L') ([] ++ l)).
  - apply refreshed_refl.
  - intros region L1 l1 HJ. eff_use update_region_effects.
    destruct r as [[L2|v]|e]; simpl in *.
    + exact (refreshed_trans _ _ _ _ _ HJ H).
    + split; [|exact I]. apply (refreshed_trans _ _ None _ _ HJ H).
    + split; [|exact I]. apply (refreshed_trans _ _ None _ _ HJ H).
  - intros L1 l1 [Hl E]. split; [exact Hl|]. exact E.
Qed.

Lemma update_finish_effects (pool : InstancePool) (L : UpdateLocals) :
  effects (update_finish pool L)
          (fun r l => r = Ok tt /\
                      exists deleted, Forall is_instance_delete deleted /\
                        l = deleted ++ clear_stale (pool_pk pool) (instances_created L)).
Proof.
  unfold update_finish. apply effects_bind.
  apply effects_for_fold with (J := fun _ l => Forall is_instance_delete ([] ++ l)).
  - constructor.
  - intros instance [] l1 HJ. eff. simpl in *. apply Forall_app. split; [exact HJ|].
    repeat constructor.
  - intros [] l1 HJ. cbv beta iota. unfold clear_stale.
    destruct (instances_created L); eff; (split; [reflexivity|]);
      exists l1; (split; [exact HJ|]); rewrite <- ?app_assoc; reflexivity.
Qed.

Lemma is_instance_delete_quiet (l : list Step) :
  Forall is_instance_delete l -> Forall is_refresh l /\ fulfilled l = false.
Proof.
  induction 1 as [|s l Hs Hl [IH1 IH2]]; [split; [constructor|reflexivity]|].
  destruct s; try destruct Hs. split; [constructor; [exact I|exact IH1]|exact IH2].
Qed.

(** The writes of [_update_pool_instances]: its entry, a refresh, and at
    the end of a run that reaches it and fulfilled a request, the deletion
    of the stale entries. *)
Lemma update_pool_instances_effects (P : Provider) (pool : InstancePool) (config : Config) :
  effects (_update_pool_instances P pool config)
          (fun r l =>
             exists refresh,
               Forall is_refresh refresh /\
               l = SEmit (EvUpdate (pool_pk pool))
                   :: refresh
                      ++ clear_stale (pool_pk pool)
                           (fulfilled refresh
                            && match r with Ok true => true | _ => false end)).
Proof.
  unfold _update_pool_instances. apply effects_bind.
  apply (effects_modify _ (SEmit (EvUpdate (pool_pk pool)))); [reflexivity|].
  cbv beta iota. apply effects_bind. eff_use update_regions_effects.
  destruct H as [Hl E]. destruct r as [[L|v]|e]; cbv beta iota.
  - apply effects_bind. eff_use update_finish_effects.
    destruct H as (-> & deleted & Hdel & ->). apply effects_ret.
    destruct (is_instance_delete_quiet deleted Hdel) as [Hd Hq].
    exists (l ++ deleted). split; [now apply Forall_app|].
    rewrite fulfilled_app, Hq, orb_false_r, andb_true_r, E.
    simpl. now rewrite app_nil_r, <- app_assoc.
  - apply effects_ret. exists l. split; [exact Hl|].
    rewrite andb_false_r. simpl. now rewrite !app_nil_r.
  - exists l. split; [exact Hl|]. rewrite andb_false_r. simpl. now rewrite !app_nil_r.
Qed.

(** ** C9: the warnings a fulfilled request makes stale *)

Lemma count_entries_deleted (pool : Z) (type : StatusType) (w : World) :
  count_entries pool type (step (SEntryDelete pool type) w) = 0%nat.
Proof.
  unfold count_entries. simpl.
  induction (db_entries w) as [|e es IH]; [reflexivity|].
  simpl. destruct (entry_is pool type e) eqn:He; simpl; [exact IH|].
  rewrite He. exact IH.
Qed.

Lemma count_entries_delete_other (pool : Z) (type type' : StatusType) (w : World) :
  count_entries pool type w = 0%nat ->
  count_entries pool type (step (SEntryDelete pool type') w) = 0%nat.
Proof.
  unfold count_entries. simpl.
  induction (db_entries w) as [|e es IH]; [reflexivity|].
  simpl. destruct (entry_is pool type e) eqn:He; simpl; [discriminate|].
  intros H. destruct (entry_is pool type' e); simpl; rewrite ?He; auto.
Qed.

Lemma is_refresh_silent (l : list Step) : Forall is_refresh l -> Forall is_silent l.
Proof. apply Forall_impl_steps. intros []; simpl; auto. Qed.

Lemma is_refresh_no_delete (l : list Step) :
  Forall is_refresh l ->
  Forall (fun s => match s with SEntryDelete _ _ => False | _ => True end) l.
Proof. apply Forall_impl_steps. intros []; simpl; auto. Qed.

(** C9, as amended. A run of [_update_pool_instances] adds to the trace its
    entry and what it asks of the provider. When the run reaches its end
    (the model returns [true]: no region failed to connect and no provider
    error cut the run short) and a request was fulfilled in it (the
    provider was asked to tag an instance), the pool holds no
    max-spot-instance-count-exceeded and no temporary-failure entry
    afterwards. When no request was fulfilled, or when the run does not
    reach its end, no entry is deleted: the entries are those before, and
    new ones. In every run the entries other than those two types of the
    pool stay, unclassified ones among them. *)
Theorem update_clears_stale_entries (P : Provider) (pool : InstancePool) (config : Config)
    (w : World) :
  exists t,
    trace (snd (_update_pool_instances P pool config w))
    = trace w ++ EvUpdate (pool_pk pool) :: t /\
    (fst (_update_pool_instances P pool config w) = Ok true ->
     existsb is_add_tag_event t = true ->
     count_entries (pool_pk pool) max_spot_instance_count_exceeded
                   (snd (_update_pool_instances P pool config w)) = 0%nat /\
     count_entries (pool_pk pool) temporary_failure
                   (snd (_update_pool_instances P pool config w)) = 0%nat) /\
    (existsb is_add_tag_event t = false ->
     exists es, db_entries (snd (_update_pool_instances P pool config w))
                = db_entries w ++ es) /\
    (fst (_update_pool_instances P pool config w) <> Ok true ->
     exists es, db_entries (snd (_update_pool_instances P pool config w))
                = db_entries w ++ es) /\
    (forall e, In e (db_entries w) ->
               entry_is (pool_pk pool) max_spot_instance_count_exceeded e = false ->
               entry_is (pool_pk pool) temporary_failure e = false ->
               In e (db_entries (snd (_update_pool_instances P pool config w)))).
Proof.
  destruct (update_pool_instances_effects P pool config w)
    as (l & Hw & refresh & Hrefresh & ->).
  rewrite Hw. clear Hw.
  set (r := fst (_update_pool_instances P pool config w)) in *.
  set (ended := match r with Ok true => true | _ => false end).
  exists (events (refresh ++ clear_stale (pool_pk pool) (fulfilled refresh && ended))
                 (calls w)).
  assert (Htag : existsb is_add_tag_event
                   (events (refresh
                            ++ clear_stale (pool_pk pool) (fulfilled refresh && ended))
                           (calls w))
                 = fulfilled refresh).
  { rewrite fulfilled_events.
    - rewrite fulfilled_app. unfold clear_stale.
      destruct (fulfilled refresh && ended); simpl; now rewrite orb_false_r.
    - apply Forall_app. split.
      + apply is_refresh_silent in Hrefresh. revert Hrefresh.
        apply Forall_impl_steps. intros []; simpl; auto. intros [].
      + unfold clear_stale. destruct (fulfilled refresh && ended); repeat constructor. }
  assert (Hkeep : fulfilled refresh && ended = false ->
                  exists es,
                    db_entries
                      (steps (SEmit (EvUpdate (pool_pk pool))
                              :: refresh
                                 ++ clear_stale (pool_pk pool)
                                      (fulfilled refresh && ended)) w)
                    = db_entries w ++ es).
  { intros ->. apply entries_steps. constructor; [exact I|].
    simpl. rewrite app_nil_r. now apply is_refresh_no_delete. }
  split; [rewrite trace_steps; reflexivity|]. rewrite Htag.
  split; [|split; [|split]].
  - intros Hr Hf. subst ended. rewrite Hr, Hf. unfold clear_stale.
    cbn [andb].
    change (SEmit (EvUpdate (pool_pk pool))
            :: refresh
               ++ [SEntryDelete (pool_pk pool) max_spot_instance_count_exceeded;
                   SEntryDelete (pool_pk pool) temporary_failure])
      with ((SEmit (EvUpdate (pool_pk pool)) :: refresh)
            ++ [SEntryDelete (pool_pk pool) max_spot_instance_count_exceeded;
                SEntryDelete (pool_pk pool) temporary_failure]).
    rewrite steps_app. cbn [steps fold_left]. split.
    + apply count_entries_delete_other, count_entries_deleted.
    + apply count_entries_deleted.
  - intros Hf. apply Hkeep. now rewrite Hf.
  - intros Hr. apply Hkeep. subst ended. destruct r as [[|]|]; try congruence;
      apply andb_false_r.
  - intros e Hin Hmax Htemp.
    apply (entries_kept
             (fun x => negb (entry_is (pool_pk pool) max_spot_instance_count_exceeded x)
                       && negb (entry_is (pool_pk pool) temporary_failure x)));
      [| now rewrite Hmax, Htemp | exact Hin].
    constructor; [exact I|]. apply Forall_app. split.
    + apply is_refresh_no_delete in Hrefresh. revert Hrefresh.
      apply Forall_impl_steps. intros []; simpl; auto. intros [].
    + unfold clear_stale. destruct (fulfilled refresh && ended); repeat constructor.
      * intros x Hx. apply andb_true_iff in Hx as [Hx _].
        now apply negb_true_iff in Hx.
      * intros x Hx. apply andb_true_iff in Hx as [_ Hx].
        now apply negb_true_iff in Hx.
Qed.

(** The third scenario of the specification: the request sir-01 is
    fulfilled as i-abc, and the temporary-failure entry of the pool is
    deleted. *)
Example update_fulfilled_clears :
  let r := _update_pool_instances provider_split pool_eight config_eight world_requested in
  fst r = Ok true /\
  map (fun i => (ec2_instance_id i, status_code i, hostname i)) (db_instances (snd r))
  = [("i-abc", 16, Some "x.example")] /\
  db_entries (snd r) = [].
Proof. vm_compute. repeat split; reflexivity. Qed.

(** C9 as stated fails: a request is fulfilled in the first region, the
    second region cannot be reached, and the run returns there: the
    temporary-failure entry of the pool is still held, next to the new
    unclassified one. *)
Lemma fulfilled_but_not_cleared :
  fst (_update_pool_instances provider_split pool_eight config_eight world_split)
  = Ok false /\
  existsb is_add_tag_event
    (trace (snd (_update_pool_instances provider_split pool_eight config_eight world_split)))
  = true /\
  map (fun i => (ec2_instance_id i, status_code i))
      (db_instances
         (snd (_update_pool_instances provider_split pool_eight config_eight world_split)))
  = [("i-abc", 16); ("i-2", 16)] /\
  count_entries 1 temporary_failure
    (snd (_update_pool_instances provider_split pool_eight config_eight world_split))
  = 1%nat.
Proof. vm_compute. repeat split; reflexivity. Qed.

(** ** The writes of termination and of scale-up *)

Lemma terminate_region_effects (P : Provider) (pool : InstancePool)
    (ids : list (string * list string)) (terminateByPool : bool) (region : string) :
  effects (terminate_region P pool ids terminateByPool region tt)
          (fun _ l => Forall is_report l).
Proof.
  unfold terminate_region. apply effects_bind.
  eff_use connect_or_report_effects.
  destruct r as [connected|e]; [|exact H].
  destruct connected; cbn [negb]; [|apply effects_ret; steps_ok].
  eff; steps_ok.
Qed.

Lemma terminate_pool_instances_effects (P : Provider) (pool : InstancePool)
    (instances : list Instance) (terminateByPool : bool) :
  effects (_terminate_pool_instances P pool instances terminateByPool)
          (fun _ l => exists l',
                        l = SEmit (EvTerminate (pool_pk pool) instances terminateByPool) :: l'
                        /\ Forall is_report l').
Proof.
  unfold _terminate_pool_instances. apply effects_bind.
  apply (effects_modify _ (SEmit (EvTerminate (pool_pk pool) instances terminateByPool)));
    [reflexivity|].
  cbv beta iota zeta. apply effects_bind.
  apply effects_conseq with (Q := fun _ l => Forall is_report l).
  - apply effects_for_each with (J := fun _ l => Forall is_report l).
    + constructor.
    + intros region [] l1 HJ. eff_use terminate_region_effects.
      destruct r as [[[]|[]]|e]; now apply Forall_app.
    + intros [] l1 HJ. exact HJ.
  - intros r l H. destruct r; cbv beta iota; [apply effects_ret|]; exists l;
      (split; [simpl; now rewrite ?app_nil_r|exact H]).
Qed.

Lemma is_report_start (l : list Step) : Forall is_report l -> Forall is_start l.
Proof.
  apply Forall_impl_steps. intros [|c| | | | | | | | |]; simpl; auto.
Qed.

Lemma connect_and_resolve_effects (P : Provider) (pool : Z) (region : string)
    (images : list (string * string)) :
  effects (connect_and_resolve P pool region images) (fun _ l => Forall is_start l).
Proof. unfold connect_and_resolve. eff; steps_ok. Qed.

Lemma persist_requests_effects (pool : Z) (region zone : string) (code cores : Z)
    (requests : list string) :
  effects (for_fold requests
             (fun ec2_request _ => Instance_create pool ec2_request region zone code cores)
             tt)
          (fun _ l => Forall is_start l).
Proof.
  apply effects_for_fold with (J := fun _ l => Forall is_start l).
  - constructor.
  - intros x [] l1 HJ. eff. apply Forall_app. split; [exact HJ|repeat constructor].
  - intros [] l1 HJ. exact HJ.
Qed.

(** The leaves of a scale-up: the writes made and those of the tasks
    called are of the class. *)
Ltac start_ok := steps_ok; auto using is_report_start.

Lemma request_spot_instances_effects (P : Provider) (pool : InstancePool) (config : Config)
    (region zone instance_type : string) (count cores : Z)
    (images : list (string * string)) :
  effects (request_spot_instances P pool config region zone instance_type count cores images)
          (fun _ l => Forall is_start l).
Proof.
  unfold request_spot_instances.
  repeat first [ eff_step
               | eff_use persist_requests_effects
               | eff_use report_boto_error_effects ];
    start_ok.
Qed.

Lemma start_pool_instances_effects (median : list float -> float)
    (handle_tags : string -> list (string * string) -> string) (P : Provider)
    (pool : InstancePool) (config : Config) (count : Z) :
  effects (_start_pool_instances median handle_tags P pool config count)
          (fun _ l => exists l',
                        l = SEmit (EvStart (pool_pk pool) count) :: l' /\ Forall is_start l').
Proof.
  unfold _start_pool_instances, _get_best_region_zone. apply effects_bind.
  apply (effects_modify _ (SEmit (EvStart (pool_pk pool) count))); [reflexivity|].
  cbv beta iota zeta.
  eapply effects_conseq with (Q := fun _ l => Forall is_start l).
  2:{ intros r l H. exists l. auto. }
  repeat first [ eff_step
               | eff_use connect_and_resolve_effects
               | eff_use request_spot_instances_effects ];
    start_ok.
Qed.

Lemma count_instance_effects (instance : Instance) (L : CountLocals) :
  effects (count_instance instance L) (fun _ l => Forall is_data l).
Proof. unfold count_instance. eff; steps_ok. Qed.

Lemma is_refresh_data (l : list Step) : Forall is_refresh l -> Forall is_data l.
Proof. apply Forall_impl_steps. intros []; simpl; auto. Qed.

Lemma is_start_data (l : list Step) : Forall is_start l -> Forall is_data l.
Proof. apply Forall_impl_steps. intros []; simpl; auto. Qed.

Lemma is_report_data (l : list Step) : Forall is_report l -> Forall is_data l.
Proof. intros H. apply is_start_data, is_report_start, H. Qed.

Lemma count_pool_effects (P : Provider) (pool : InstancePool) (config : Config) :
  effects (count_pool P pool config)
          (fun _ l => exists l', l = SEmit (EvUpdate (pool_pk pool)) :: l' /\
                                 Forall is_data l').
Proof.
  unfold count_pool. apply effects_bind. eff_use update_pool_instances_effects.
  destruct H as (refresh & Hrefresh & ->).
  assert (Hd : Forall is_data
                 (refresh ++ clear_stale (pool_pk pool)
                    (fulfilled refresh && match r with Ok true => true | _ => false end))).
  { apply Forall_app_intro; [now apply is_refresh_data|].
    unfold clear_stale. destruct (_ && _); repeat constructor. }
  destruct r as [b|e]; [|eexists; split; [reflexivity|exact Hd]].
  apply effects_bind, effects_gets. intros instances. cbv beta iota.
  apply effects_conseq with (Q := fun _ l => Forall is_data l).
  - apply effects_for_fold with (J := fun _ l => Forall is_data l).
    + constructor.
    + intros x L l1 HJ. eff_use count_instance_effects.
      destruct r; now apply Forall_app_intro.
    + intros L l1 HJ. exact HJ.
  - intros r l H. eexists. split; [reflexivity|].
    rewrite app_nil_l. now apply Forall_app_intro.
Qed.

Lemma scale_pool_effects (median : list float -> float)
    (handle_tags : string -> list (string * string) -> string) (P : Provider)
    (pool : InstancePool) (config : Config) (missing : Z) :
  effects (scale_pool median handle_tags P pool config missing)
          (fun _ l => if 0 <? missing
                      then exists l', l = SEmit (EvStart (pool_pk pool) missing) :: l' /\
                                      Forall is_start l'
                      else scale_down_writes (pool_pk pool) l).
Proof.
  unfold scale_pool. destruct (0 <? missing).
  - apply start_pool_instances_effects.
  - destruct (missing <? 0); [|apply effects_ret; now left].
    apply effects_bind, effects_gets. intros rows. cbv beta iota zeta.
    destruct (nonempty _); [|apply effects_ret; now left].
    apply effects_bind, effects_of_res.
    destruct (sum_counts _); cbv beta iota; [|now left].
    eff_use terminate_pool_instances_effects.
    destruct H as (l' & -> & Hl'). right. eauto.
Qed.

(** ** C1: a pool that is cycled *)

Lemma pool_row_pk (pool_id : Z) (instance_pool : InstancePool) (w : World) :
  pool_row pool_id w = Some instance_pool -> pool_pk instance_pool = pool_id.
Proof.
  unfold pool_row. intros H.
  assert (Hin : In instance_pool
                   (List.filter (fun p => pool_pk p =? pool_id) (db_pools w))).
  { destruct (List.filter _ _) as [|p rest]; [discriminate|].
    injection H as ->. now left. }
  apply filter_In in Hin as [_ Hpk]. now apply Z.eqb_eq.
Qed.

Lemma pool_row_saved (pool_id : Z) (instance_pool saved : InstancePool) (w : World) :
  pool_row pool_id w = Some instance_pool ->
  pool_pk saved = pool_id ->
  pool_row pool_id (step (SPoolSave saved) w) = Some saved.
Proof.
  unfold pool_row. simpl. intros H <-.
  induction (db_pools w) as [|p rest IH]; [discriminate|].
  simpl in *. destruct (pool_pk p =? pool_pk saved) eqn:Hp; simpl.
  - now rewrite Z.eqb_refl.
  - rewrite Hp. now apply IH.
Qed.

(** The tick under the lock, for a pool that passes the gates, is counted
    and needs a cycle: the termination of all counted instances, the save
    of the pool, and then the scale step. *)
Lemma cycle_locked (median : list float -> float)
    (handle_tags : string -> list (string * string) -> string) (P : Provider)
    (pool_id : Z) (instance_pool : InstancePool) (counted : CountLocals) (w w1 : World) :
  pool_row pool_id w = Some instance_pool ->
  is_frozen (pool_pk instance_pool) w = false ->
  config_isCyclic instance_pool = false ->
  config_getMissingParameters instance_pool = [] ->
  isEnabled instance_pool = true ->
  count_pool P instance_pool (config_flatten instance_pool) w = (Ok counted, w1) ->
  needs_cycle instance_pool (config_flatten instance_pool) (now w1) = true ->
  check_instance_pool_locked median handle_tags P pool_id w
  = (_terminate_pool_instances P (set_last_cycled instance_pool (Some (now w1)))
       (running_instances counted) true ;;;
     Pool_save (set_last_cycled instance_pool (Some (now w1))) ;;;
     scale_pool median handle_tags P (set_last_cycled instance_pool (Some (now w1)))
       (config_flatten instance_pool) (instance_cores_missing counted)) w1.
Proof.
  unfold pool_row, is_frozen. intros Hrow Hfrozen Hcyclic Hmissing Henabled Hcount Hcycle.
  unfold check_instance_pool_locked, Pool_get. unfold bind at 1. unfold bind at 1.
  unfold gets at 1.
  destruct (List.filter (fun p => pool_pk p =? pool_id) (db_pools w)) as [|p rest];
    [discriminate|].
  injection Hrow as ->. unfold ret at 1. unfold bind at 1.
  unfold Entry_filter_critical, gets at 1. rewrite Hfrozen, Hcyclic, Hmissing.
  cbn [orb nonempty]. unfold bind at 1. rewrite Hcount, Henabled. cbn [negb].
  unfold cycle_pool, timezone_now. unfold bind at 1. unfold bind at 1. unfold gets at 1.
  rewrite Hcycle. unfold bind at 1. unfold gets at 1.
  unfold bind. destruct (_terminate_pool_instances _ _ _ _ w1) as [[[]|e] w2];
    [|reflexivity].
  unfold Pool_save at 1, modify at 1. unfold ret. reflexivity.
Qed.

Lemma events_start (l : list Step) (n : nat) :
  existsb is_start_event (events l n) = existsb emits_start l.
Proof.
  revert n. induction l as [|s l IH]; intros n; [reflexivity|].
  destruct s; simpl; rewrite ?IH; reflexivity.
Qed.

Lemma is_data_pools (l : list Step) (w : World) :
  Forall is_data l -> db_pools (steps l w) = db_pools w.
Proof.
  intros H. apply pools_steps. revert H. apply Forall_impl_steps.
  intros []; simpl; auto.
Qed.

Lemma is_start_no_start (l : list Step) : Forall is_start l -> existsb emits_start l = false.
Proof.
  induction 1 as [|s l Hs Hl IH]; [reflexivity|].
  simpl. rewrite IH. destruct s; try reflexivity. destruct Hs.
Qed.

Lemma scale_down_no_start (pool : Z) (l : list Step) :
  scale_down_writes pool l -> existsb emits_start l = false /\ Forall is_data l.
Proof.
  intros [->|(instances & l' & -> & Hl')]; [split; [reflexivity|constructor]|].
  split.
  - simpl. now apply is_start_no_start, is_report_start.
  - constructor; [exact I|]. now apply is_report_data.
Qed.

(** The writes of a cycle and of the scale step after it. *)
Lemma cycle_and_scale_effects (median : list float -> float)
    (handle_tags : string -> list (string * string) -> string) (P : Provider)
    (pool : InstancePool) (config : Config) (instances : list Instance) (missing : Z) :
  effects (_terminate_pool_instances P pool instances true ;;;
           Pool_save pool ;;;
           scale_pool median handle_tags P pool config missing)
          (fun r l =>
             exists l2,
               Forall is_report l2 /\
               ((l = SEmit (EvTerminate (pool_pk pool) instances true) :: l2 /\
                 exists e, r = Raise e) \/
                exists l4,
                  l = SEmit (EvTerminate (pool_pk pool) instances true)
                      :: l2 ++ SPoolSave pool :: l4 /\
                  if 0 <? missing
                  then exists l', l4 = SEmit (EvStart (pool_pk pool) missing) :: l' /\
                                  Forall is_start l'
                  else scale_down_writes (pool_pk pool) l4)).
Proof.
  apply effects_bind. eff_use terminate_pool_instances_effects.
  destruct H as (l2 & -> & Hl2).
  destruct r as [[]|e]; [|exists l2; split; [exact Hl2|left; eauto]].
  apply effects_bind.
  apply (effects_modify _ (SPoolSave pool)); [reflexivity|]. cbv beta iota.
  eff_use scale_pool_effects. exists l2. split; [exact Hl2|]. right. exists l.
  split; [reflexivity|exact H].
Qed.

(** C1, as amended. In a tick on an enabled pool that is not frozen, whose
    configuration is sound, and whose [last_cycled] is null or older than
    [cycle_interval] seconds, once the instances are refreshed and counted:
    [_terminate_pool_instances] is entered for all counted instances with
    [terminateByPool] true; nothing returns there, and in a tick that ends
    without an exception [last_cycled] is saved as now and scale-up is
    entered in the same tick with the cores missing when these are
    positive. Scale-up is not entered when no cores are missing. *)
Theorem cycle_then_scale (median : list float -> float)
    (handle_tags : string -> list (string * string) -> string) (P : Provider)
    (pool_id : Z) (instance_pool : InstancePool) (counted : CountLocals) (w : World) :
  pool_row pool_id w = Some instance_pool ->
  existsb (Z.eqb pool_id) (locks w) = false ->
  is_frozen (pool_pk instance_pool) w = false ->
  config_isCyclic instance_pool = false ->
  config_getMissingParameters instance_pool = [] ->
  isEnabled instance_pool = true ->
  needs_cycle instance_pool (config_flatten instance_pool) (now w) = true ->
  fst (count_pool P instance_pool (config_flatten instance_pool)
         (with_locks (cons pool_id) w)) = Ok counted ->
  exists t,
    trace (snd (check_instance_pool median handle_tags P pool_id w))
    = trace (snd (count_pool P instance_pool (config_flatten instance_pool)
                    (with_locks (cons pool_id) w)))
      ++ EvTerminate pool_id (running_instances counted) true :: t /\
    (instance_cores_missing counted <= 0 -> existsb is_start_event t = false) /\
    (fst (check_instance_pool median handle_tags P pool_id w) = Ok tt ->
     pool_row pool_id (snd (check_instance_pool median handle_tags P pool_id w))
     = Some (set_last_cycled instance_pool (Some (now w))) /\
     (0 < instance_cores_missing counted ->
      In (EvStart pool_id (instance_cores_missing counted)) t)).
Proof.
  intros Hrow Hheld Hfrozen Hcyclic Hmissing Henabled Hcycle Hcount.
  set (wl := with_locks (cons pool_id) w) in *.
  destruct (count_pool P instance_pool (config_flatten instance_pool) wl)
    as [rc w1] eqn:Hcp.
  simpl in Hcount. subst rc. cbn [snd].
  assert (Hpk : pool_pk instance_pool = pool_id) by exact (pool_row_pk _ _ _ Hrow).
  (* the count leaves the clock and the pools alone *)
  destruct (count_pool_effects P instance_pool (config_flatten instance_pool) wl)
    as (lc & Hw1 & lc' & -> & Hdata).
  rewrite Hcp in Hw1. cbn [snd fst] in Hw1.
  assert (Hnow : now w1 = now w) by (rewrite Hw1, now_steps; reflexivity).
  assert (Hpools : db_pools w1 = db_pools w).
  { rewrite Hw1. rewrite is_data_pools; [reflexivity|]. constructor; [exact I|exact Hdata]. }
  (* the tick is the lock, the cycle and the scale step *)
  set (saved := set_last_cycled instance_pool (Some (now w))).
  assert (Htick : check_instance_pool median handle_tags P pool_id w
                  = try_finally
                      (_terminate_pool_instances P saved (running_instances counted) true ;;;
                       Pool_save saved ;;;
                       scale_pool median handle_tags P saved (config_flatten instance_pool)
                         (instance_cores_missing counted))
                      (with_locks (List.filter (fun l => negb (l =? pool_id)))) w1).
  { unfold check_instance_pool. unfold bind at 1. unfold gets at 1. rewrite Hheld.
    unfold bind at 1. unfold modify at 1. fold wl. unfold try_finally.
    rewrite (cycle_locked median handle_tags P pool_id instance_pool counted wl w1);
      try assumption; [|now rewrite Hnow].
    rewrite Hnow. reflexivity. }
  rewrite Htick. clear Htick. unfold try_finally.
  destruct (cycle_and_scale_effects median handle_tags P saved
              (config_flatten instance_pool) (running_instances counted)
              (instance_cores_missing counted) w1)
    as (l & Hw & l2 & Hl2 & Hcases).
  destruct ((_terminate_pool_instances P saved (running_instances counted) true ;;;
             Pool_save saved ;;;
             scale_pool median handle_tags P saved (config_flatten instance_pool)
               (instance_cores_missing counted)) w1) as [r w'] eqn:Hrun.
  cbn [fst snd] in *. subst w'.
  change (pool_pk saved) with (pool_pk instance_pool) in Hcases. rewrite Hpk in Hcases.
  assert (Hl2s : existsb emits_start l2 = false)
    by now apply is_start_no_start, is_report_start.
  destruct Hcases as [[-> (e & ->)]|(l4 & -> & Hl4)].
  - (* the termination raised *)
    exists (events l2 (calls w1)). split; [|split].
    + unfold with_locks. cbn [trace]. now rewrite trace_steps.
    + intros _. now rewrite events_start.
    + cbn [fst]. intros H. discriminate H.
  - exists (events (l2 ++ SPoolSave saved :: l4) (calls w1)). split; [|split].
    + unfold with_locks. cbn [trace]. now rewrite trace_steps.
    + intros Hle. rewrite events_start, existsb_app, Hl2s. simpl.
      destruct (0 <? instance_cores_missing counted) eqn:Hpos;
        [apply Z.ltb_lt in Hpos; lia|].
      now apply (scale_down_no_start pool_id).
    + intros _. split.
      * unfold pool_row, with_locks. cbn [db_pools].
        change (hd_error (List.filter (fun p => pool_pk p =? pool_id)
                            (db_pools (steps (SEmit (EvTerminate pool_id
                                                       (running_instances counted) true)
                                              :: l2 ++ SPoolSave saved :: l4) w1))))
          with (pool_row pool_id
                  (steps ((SEmit (EvTerminate pool_id (running_instances counted) true)
                           :: l2) ++ SPoolSave saved :: l4) w1)).
        rewrite steps_app. cbn [steps fold_left].
        fold (steps l4 (step (SPoolSave saved)
                (steps (SEmit (EvTerminate pool_id (running_instances counted) true) :: l2)
                       w1))).
        unfold pool_row. rewrite is_data_pools.
        -- apply (pool_row_saved pool_id instance_pool); [|exact Hpk].
           unfold pool_row. rewrite is_data_pools; [|now apply is_report_data].
           change (db_pools (step _ w1)) with (db_pools w1).
           rewrite Hpools. exact Hrow.
        -- destruct (0 <? instance_cores_missing counted).
           ++ destruct Hl4 as (l' & -> & Hl'). constructor; [exact I|].
              now apply is_start_data.
           ++ now apply (scale_down_no_start pool_id).
      * intros Hpos. apply Z.ltb_lt in Hpos. rewrite Hpos in Hl4.
        destruct Hl4 as (l' & -> & Hl'). rewrite events_app. apply in_or_app. right.
        simpl. now left.
Qed.

Lemma cycle_then_scale_witness :
  pool_row 1 world_stale = Some pool_stale /\
  existsb (Z.eqb 1) (locks world_stale) = false /\
  is_frozen (pool_pk pool_stale) world_stale = false /\
  config_isCyclic pool_stale = false /\
  config_getMissingParameters pool_stale = [] /\
  isEnabled pool_stale = true /\
  needs_cycle pool_stale (config_flatten pool_stale) (now world_stale) = true /\
  fst (count_pool (provider_with [boto_running "i-1" "host-1"]) pool_stale
         (config_flatten pool_stale) (with_locks (cons 1) world_stale))
  = Ok (mkCount 4 [instance_running]) /\
  exists t,
    trace (snd (check_instance_pool price_median handle_tags_plain
                  (provider_with [boto_running "i-1" "host-1"]) 1 world_stale))
    = trace (snd (count_pool (provider_with [boto_running "i-1" "host-1"]) pool_stale
                    (config_flatten pool_stale) (with_locks (cons 1) world_stale)))
      ++ EvTerminate 1 (running_instances (mkCount 4 [instance_running])) true :: t /\
    (instance_cores_missing (mkCount 4 [instance_running]) <= 0 ->
     existsb is_start_event t = false) /\
    (fst (check_instance_pool price_median handle_tags_plain
            (provider_with [boto_running "i-1" "host-1"]) 1 world_stale) = Ok tt ->
     pool_row 1 (snd (check_instance_pool price_median handle_tags_plain
                        (provider_with [boto_running "i-1" "host-1"]) 1 world_stale))
     = Some (set_last_cycled pool_stale (Some (now world_stale))) /\
     (0 < instance_cores_missing (mkCount 4 [instance_running]) ->
      In (EvStart 1 (instance_cores_missing (mkCount 4 [instance_running]))) t)).
Proof.
  repeat (split; [vm_compute; reflexivity|]).
  apply (cycle_then_scale price_median handle_tags_plain
           (provider_with [boto_running "i-1" "host-1"]) 1 pool_stale
           (mkCount 4 [instance_running]) world_stale);
    vm_compute; reflexivity.
Defined.

(** C1 as stated fails: the tick that cycles the pool terminates its
    instance by pool, saves [last_cycled] and, four cores being missing,
    enters scale-up and issues a spot request in the same tick. *)
Lemma cycle_scales_up_in_same_tick :
  needs_cycle pool_stale (config_flatten pool_stale) (now world_stale) = true /\
  fst (check_instance_pool price_median handle_tags_plain
         (provider_with [boto_running "i-1" "host-1"]) 1 world_stale) = Ok tt /\
  List.filter
    (fun e => match e with
              | EvProvider _ (Pconnect _) | EvProvider _ (Pfind_by_pool _ _)
              | EvProvider _ (Presolve_image_name _ _) => false
              | _ => true
              end)
    (trace (snd (check_instance_pool price_median handle_tags_plain
                   (provider_with [boto_running "i-1" "host-1"]) 1 world_stale)))
  = [EvUpdate 1;
     EvTerminate 1 [instance_running] true;
     EvProvider 4 (Pterminate "us-east-1" [boto_running "i-1" "host-1"]);
     EvStart 1 4;
     EvProvider 7 (Pcreate_spot_requests "us-east-1" "us-east-1a" "c4.xlarge" 1 0.4%float
                     [("key_name", "key"); ("security_groups", "default");
                      ("user_data", "#!/bin/sh"); ("placement", "us-east-1a");
                      ("count", "1"); ("instance_type", "c4.xlarge");
                      ("image_id", "ami-1")])] /\
  map last_cycled
      (db_pools (snd (check_instance_pool price_median handle_tags_plain
                        (provider_with [boto_running "i-1" "host-1"]) 1 world_stale)))
  = [Some 5000].
Proof. vm_compute. repeat split; reflexivity. Qed.

(** ** The instance type a scale-up chooses *)

Lemma select_zone_type (median : list float -> float) config cache instance_type region zone
    series st st' :
  select_zone median config cache instance_type region zone series st = Ok st' ->
  best_type st' = best_type st \/ best_type st' = Some instance_type.
Proof.
  unfold select_zone. intros H.
  destruct (cache_get cache (blacklist_key zone instance_type));
    [injection H as <-; now left|].
  destruct (prices_per_core instance_type series) as [[|p0 ps]|e]; try discriminate.
  destruct ((ec2_max_price config <? p0)%float); [injection H as <-; now left|].
  destruct (match best_median st with
            | Some bm => (median (p0 :: ps) <? bm)%float
            | None => true
            end); injection H as <-; auto.
Qed.

Lemma select_zones_type (median : list float -> float) config cache instance_type region zones
    st st' :
  select_zones median config cache instance_type region zones st = Ok st' ->
  best_type st' = best_type st \/ best_type st' = Some instance_type.
Proof.
  revert st. induction zones as [|[zone series] rest IH]; intros st H; simpl in H.
  - injection H as <-. now left.
  - destruct (select_zone median config cache instance_type region zone series st)
      as [st1|e] eqn:H1; [|discriminate].
    apply select_zone_type in H1. destruct (IH _ H) as [E|E]; [|now right].
    rewrite E. exact H1.
Qed.

Lemma select_regions_type (median : list float -> float) config cache instance_type data st st' :
  select_regions median config cache instance_type data st = Ok st' ->
  best_type st' = best_type st \/ best_type st' = Some instance_type.
Proof.
  revert st. induction data as [|[region zones] rest IH]; intros st H; simpl in H.
  - injection H as <-. now left.
  - destruct (negb (str_in region (ec2_allowed_regions config))); [now apply IH|].
    destruct (select_zones median config cache instance_type region zones st)
      as [st1|e] eqn:H1; [|discriminate].
    apply select_zones_type in H1. destruct (IH _ H) as [E|E]; [|now right].
    rewrite E. exact H1.
Qed.

Lemma select_types_type (median : list float -> float) config cache types st st' :
  select_types median config cache types st = Ok st' ->
  best_type st' = best_type st \/ exists t, best_type st' = Some t /\ In t types.
Proof.
  revert st. induction types as [|t rest IH]; intros st H; simpl in H.
  - injection H as <-. now left.
  - destruct (cache_get cache (price_key t)) as [[data|s]|].
    + destruct (select_regions median config cache t data st) as [st1|e] eqn:H1;
        [|discriminate].
      apply select_regions_type in H1.
      destruct (IH _ H) as [E|(t' & E & Hin)].
      * rewrite E. destruct H1 as [H1|H1]; [now left|]. right. exists t. simpl. auto.
      * right. exists t'. simpl. auto.
    + discriminate.
    + destruct (IH _ H) as [E|(t' & E & Hin)]; [now left|].
      right. exists t'. simpl. auto.
Qed.

(** The instance type the selector returns is one of the configuration. *)
Lemma best_region_zone_type (median : list float -> float) config cache region zone t rejected :
  best_region_zone median config cache = Ok (region, zone, Some t, rejected) ->
  In t (ec2_instance_types config).
Proof.
  unfold best_region_zone. intros H.
  destruct (select_types median config cache (ec2_instance_types config) Selection_init)
    as [st|e] eqn:Hs; [|discriminate].
  injection H as _ _ Ht _. apply select_types_type in Hs.
  destruct Hs as [E|(t' & E & Hin)].
  - rewrite Ht in E. discriminate.
  - rewrite Ht in E. injection E as ->. exact Hin.
Qed.

(** The filter of machine sizes: the acceptable types are those of at most
    [count] cores. *)
Lemma filter_sizes_acceptable (types : list string) (count : Z) (st sizes : Sizes) :
  filter_sizes types count st = Ok sizes ->
  (forall t, In t (acceptable_types sizes) ->
             In t (acceptable_types st) \/
             In t types /\ exists c, CORES_PER_INSTANCE !! t = Some c /\ c <= count) /\
  (forall t c, In t types -> CORES_PER_INSTANCE !! t = Some c -> c <= count ->
               In t (acceptable_types sizes)) /\
  (forall t, In t (acceptable_types st) -> In t (acceptable_types sizes)).
Proof.
  revert st. induction types as [|t0 rest IH]; intros st H; simpl in H.
  - injection H as <-. repeat split; auto. intros t c [].
  - destruct (CORES_PER_INSTANCE !! t0) as [c0|] eqn:Hc0; [|discriminate].
    set (acceptable := if c0 <=? count then acceptable_types st ++ [t0]
                       else acceptable_types st) in *.
    assert (Hacc : forall st1, acceptable_types st1 = acceptable ->
                     filter_sizes rest count st1 = Ok sizes ->
                     (forall t, In t (acceptable_types sizes) ->
                        In t (acceptable_types st) \/
                        In t (t0 :: rest) /\
                        exists c, CORES_PER_INSTANCE !! t = Some c /\ c <= count) /\
                     (forall t c, In t (t0 :: rest) -> CORES_PER_INSTANCE !! t = Some c ->
                                  c <= count -> In t (acceptable_types sizes)) /\
                     (forall t, In t (acceptable_types st) ->
                                In t (acceptable_types sizes))).
    { intros st1 Hst1 Hrest. destruct (IH st1 Hrest) as (I1 & I2 & I3).
      rewrite Hst1 in *. subst acceptable. repeat split.
      - intros t Ht. destruct (I1 t Ht) as [Hin|[Hin Hc]].
        + destruct (c0 <=? count) eqn:Hle; [|now left].
          apply in_app_or in Hin as [Hin|[<-|[]]]; [now left|].
          right. split; [now left|]. exists c0. split; [exact Hc0|].
          now apply Z.leb_le.
        + right. split; [now right|exact Hc].
      - intros t c [<-|Hin] Hc Hle.
        + apply I3. rewrite Hc0 in Hc. injection Hc as ->.
          apply Z.leb_le in Hle. rewrite Hle. apply in_or_app. right. now left.
        + now apply (I2 t c).
      - intros t Hin. apply I3. destruct (c0 <=? count); [apply in_or_app|]; auto. }
    destruct (negb (nonempty (smallest st)) ||
              match smallest_size st with Some s => c0 <? s | None => false end).
    + eapply Hacc; [|exact H]. reflexivity.
    + destruct (match smallest_size st with Some s => c0 =? s | None => false end);
        (eapply Hacc; [|exact H]); reflexivity.
Qed.

(** The smallest types are types of the configuration. *)
Lemma filter_sizes_smallest (types : list string) (count : Z) (st sizes : Sizes) :
  filter_sizes types count st = Ok sizes ->
  forall t, In t (smallest sizes) -> In t (smallest st) \/ In t types.
Proof.
  revert st. induction types as [|t0 rest IH]; intros st H t Ht; simpl in H.
  - injection H as <-. now left.
  - destruct (CORES_PER_INSTANCE !! t0) as [c0|]; [|discriminate].
    destruct (negb (nonempty (smallest st)) ||
              match smallest_size st with Some s => c0 <? s | None => false end).
    + destruct (IH _ H t Ht) as [[<-|[]]|Hin]; right; simpl; auto.
    + destruct (match smallest_size st with Some s => c0 =? s | None => false end).
      * destruct (IH _ H t Ht) as [Hin|Hin]; [|right; simpl; auto].
        simpl in Hin. apply in_app_or in Hin as [Hin|[<-|[]]]; [now left|].
        right. now left.
      * destruct (IH _ H t Ht) as [Hin|Hin]; [now left|right; simpl; auto].
Qed.
(** ** The rows a scale-up writes *)

Lemma persist_requests_writes (pool : Z) (region zone : string) (cores : Z)
    (requests : list string) :
  effects (for_fold requests
             (fun ec2_request _ =>
                Instance_create pool ec2_request region zone INSTANCE_STATE_requested cores)
             tt)
          (fun r l => r = Ok tt /\ l = requested_rows pool region zone cores requests).
Proof.
  induction requests as [|id rest IH]; simpl.
  - apply effects_ret. split; reflexivity.
  - apply effects_bind.
    apply (effects_modify _ (SInstanceCreate pool id region zone
                               INSTANCE_STATE_requested cores)); [reflexivity|].
    cbv beta iota. eapply effects_conseq; [apply IH|].
    intros r l [-> ->]. split; reflexivity.
Qed.

Lemma is_report_no_instance (l : list Step) :
  Forall is_report l -> Forall no_instance_write l.
Proof.
  apply Forall_impl_steps. intros [|c| | | | | | | | |]; simpl; auto.
Qed.

Lemma request_spot_instances_writes (P : Provider) (pool : InstancePool) (config : Config)
    (region zone instance_type : string) (count cores : Z)
    (images : list (string * string)) :
  effects (request_spot_instances P pool config region zone instance_type count cores images)
          (fun _ l => request_writes P (pool_pk pool) region zone instance_type count
                        cores l).
Proof.
  unfold request_spot_instances.
  apply effects_try_except, effects_bind, effects_provider_call. intros n.
  destruct (create_spot_requests P n region zone instance_type count) as [ids|e] eqn:Hids;
    cbv beta iota.
  - eff_use persist_requests_writes. destruct H as [-> ->].
    right. exists n, ids, [SCall (Pcreate_spot_requests region zone instance_type count
                                    (ec2_max_price config * float_of_Z cores)%float images)], [].
    split; [exact Hids|]. split; [now rewrite app_nil_r|].
    split; repeat constructor.
  - destruct (is_boto_error e); cbv beta iota.
    + eff_use report_boto_error_effects. left.
      constructor; [exact I|]. now apply is_report_no_instance.
    + left. repeat constructor.
Qed.

Lemma connect_and_resolve_quiet (P : Provider) (pool : Z) (region : string)
    (images : list (string * string)) :
  effects (connect_and_resolve P pool region images)
          (fun _ l => Forall no_instance_write l).
Proof. unfold connect_and_resolve. eff; steps_ok. Qed.

Lemma request_writes_after (P : Provider) (pool : Z) (region zone instance_type : string)
    (count cores : Z) (before l : list Step) :
  Forall no_instance_write before ->
  request_writes P pool region zone instance_type count cores l ->
  request_writes P pool region zone instance_type count cores (before ++ l).
Proof.
  intros Hb [Hl|(n & ids & pre & post & Hids & -> & Hpre & Hpost)].
  - left. now apply Forall_app_intro.
  - right. exists n, ids, (before ++ pre), post. split; [exact Hids|].
    split; [now rewrite <- app_assoc|]. split; [now apply Forall_app_intro|exact Hpost].
Qed.

Lemma scale_up_writes_chosen (median : list float -> float) (P : Provider) (pool : Z)
    (config : Config) (count : Z) (sizes : Sizes) (cache : Cache)
    (region zone instance_type : option string) (rejected : list (string * float))
    (cores : Z) (before l : list Step) :
  filter_sizes (ec2_instance_types config) count (mkSizes [] None []) = Ok sizes ->
  best_region_zone median
    (set_ec2_instance_types config
       (if nonempty (acceptable_types sizes) then acceptable_types sizes
        else smallest sizes)) cache
  = Ok (region, zone, instance_type, rejected) ->
  match instance_type with
  | Some t => CORES_PER_INSTANCE !! t
  | None => None
  end = Some cores ->
  Forall no_instance_write before ->
  request_writes P pool (default "" region) (default "" zone) (default "" instance_type)
    (Z.max 1 (count / cores)) cores l ->
  scale_up_writes P pool config count (before ++ l).
Proof.
  intros Hsizes Hsel Hcores Hbefore Hl.
  destruct instance_type as [t|]; [|discriminate].
  right. exists sizes, t, cores, (default "" region), (default "" zone).
  split; [exact Hsizes|]. split; [|split; [exact Hcores|]].
  - apply best_region_zone_type in Hsel. exact Hsel.
  - now apply request_writes_after.
Qed.

Lemma start_pool_instances_writes (median : list float -> float)
    (handle_tags : string -> list (string * string) -> string) (P : Provider)
    (pool : InstancePool) (config : Config) (count : Z) :
  effects (_start_pool_instances median handle_tags P pool config count)
          (fun _ l => exists l',
                        l = SEmit (EvStart (pool_pk pool) count) :: l' /\
                        scale_up_writes P (pool_pk pool) config count l').
Proof.
  unfold _start_pool_instances, _get_best_region_zone. apply effects_bind.
  apply (effects_modify _ (SEmit (EvStart (pool_pk pool) count))); [reflexivity|].
  cbv beta iota zeta.
  eapply effects_conseq
    with (Q := fun _ l => scale_up_writes P (pool_pk pool) config count l).
  2:{ intros r l H. exists l. auto. }
  repeat first [ eff_step
               | eff_use connect_and_resolve_quiet
               | eff_use request_spot_instances_writes ];
    try (left; solve [steps_ok]);
    cbn [app];
    lazymatch goal with
    | |- scale_up_writes _ _ _ _ (?x :: ?l0 ++ ?l2) =>
        apply (scale_up_writes_chosen median P (pool_pk pool) config count _ _ _ _ _ _ _
                 (x :: l0) l2 Heqr Heqr0 Heqo2); [steps_ok|assumption]
    | |- scale_up_writes _ _ _ _ (?l0 ++ ?l2) =>
        apply (scale_up_writes_chosen median P (pool_pk pool) config count _ _ _ _ _ _ _
                 l0 l2 Heqr Heqr0 Heqo2); [steps_ok|assumption]
    end.
Qed.

(** ** C8: the cores of a pool after a tick *)

Lemma cores_positive (t : string) (c : Z) : CORES_PER_INSTANCE !! t = Some c -> 0 < c.
Proof.
  intros H.
  assert (Hall : forallb (fun p => 0 <? snd p) INSTANCE_TYPES = true)
    by (vm_compute; reflexivity).
  with_strategy transparent [CORES_PER_INSTANCE] unfold CORES_PER_INSTANCE in H.
  apply elem_of_list_to_map_2, list_elem_of_In in H.
  rewrite forallb_forall in Hall. apply Hall in H. now apply Z.ltb_lt in H.
Qed.

Lemma steps_cons (s : Step) (l : list Step) (w : World) :
  steps (s :: l) w = steps l (step s w).
Proof. reflexivity. Qed.

Lemma active_size_instances (pool : Z) (w1 w2 : World) :
  db_instances w1 = db_instances w2 -> active_size pool w1 = active_size pool w2.
Proof. unfold active_size. now intros ->. Qed.

Lemma no_instance_steps (l : list Step) (w : World) :
  Forall no_instance_write l -> db_instances (steps l w) = db_instances w.
Proof. apply instances_steps. Qed.

Lemma total_size_app (l1 l2 : list Instance) :
  total_size (l1 ++ l2) = total_size l1 + total_size l2.
Proof. induction l1 as [|x l1 IH]; simpl; [reflexivity|]. rewrite IH. lia. Qed.

Lemma requested_rows_steps (pool : Z) (region zone : string) (cores : Z)
    (ids : list string) (w : World) :
  active_size pool (steps (requested_rows pool region zone cores ids) w)
  = active_size pool w + Z.of_nat (length ids) * cores /\
  (ids <> [] ->
   db_instances (steps (requested_rows pool region zone cores ids) w) <> db_instances w).
Proof.
  assert (Hgrow : forall ids w,
            exists rows, db_instances (steps (requested_rows pool region zone cores ids) w)
                         = db_instances w ++ rows /\ length rows = length ids /\
                         active_size pool
                           (steps (requested_rows pool region zone cores ids) w)
                         = active_size pool w + Z.of_nat (length ids) * cores).
  { clear ids w. induction ids as [|id rest IH]; intros w.
    - exists []. simpl. rewrite app_nil_r. repeat split. lia.
    - change (requested_rows pool region zone cores (id :: rest))
        with (SInstanceCreate pool id region zone INSTANCE_STATE_requested cores
              :: requested_rows pool region zone cores rest).
      rewrite steps_cons.
      destruct (IH (step (SInstanceCreate pool id region zone
                            INSTANCE_STATE_requested cores) w))
        as (rows & Hrows & Hlen & Hsize).
      eexists (_ :: rows). split; [|split].
      + rewrite Hrows. simpl. rewrite <- app_assoc. reflexivity.
      + simpl. now rewrite Hlen.
      + rewrite Hsize. unfold active_size. simpl.
        rewrite List.filter_app, total_size_app. simpl. rewrite Z.eqb_refl. simpl. lia. }
  destruct (Hgrow ids w) as (rows & Hrows & Hlen & Hsize). split; [exact Hsize|].
  intros Hne Heq. rewrite Hrows in Heq.
  assert (Hl : length (db_instances w ++ rows) = length (db_instances w)) by now rewrite Heq.
  rewrite List.length_app in Hl. destruct ids; [congruence|]. simpl in Hlen. lia.
Qed.

(** What the writes of the spot requests do to the cores of the pool. *)
Lemma request_writes_size (P : Provider) (pool : Z) (region zone instance_type : string)
    (count cores : Z) (l : list Step) (w : World) :
  0 < count ->
  grants_in_full P ->
  request_writes P pool region zone instance_type count cores l ->
  db_instances (steps l w) = db_instances w \/
  active_size pool (steps l w) = active_size pool w + count * cores.
Proof.
  intros Hcount Hfull [Hl|(n & ids & pre & post & Hids & -> & Hpre & Hpost)].
  - left. now apply no_instance_steps.
  - right. rewrite !steps_app.
    rewrite (active_size_instances pool _ _ (no_instance_steps post _ Hpost)).
    rewrite (proj1 (requested_rows_steps pool region zone cores ids _)).
    rewrite (active_size_instances pool _ _ (no_instance_steps pre w Hpre)).
    now rewrite (Hfull _ _ _ _ _ _ Hcount Hids).
Qed.

Lemma whole_instances_bound (m c : Z) :
  0 < c -> c <= m -> Z.max 1 (m / c) = m / c /\ m - c < m / c * c <= m.
Proof.
  intros Hc Hm.
  assert (H1 : 1 <= m / c) by (apply Z.div_le_lower_bound; lia).
  pose proof (Z.mod_pos_bound m c Hc). pose proof (Z.div_mod m c). nia.
Qed.

(** The scale step, for a pool that is not cycled. *)
Lemma scale_locked (median : list float -> float)
    (handle_tags : string -> list (string * string) -> string) (P : Provider)
    (pool_id : Z) (instance_pool : InstancePool) (counted : CountLocals) (w w1 : World) :
  pool_row pool_id w = Some instance_pool ->
  is_frozen (pool_pk instance_pool) w = false ->
  config_isCyclic instance_pool = false ->
  config_getMissingParameters instance_pool = [] ->
  isEnabled instance_pool = true ->
  count_pool P instance_pool (config_flatten instance_pool) w = (Ok counted, w1) ->
  needs_cycle instance_pool (config_flatten instance_pool) (now w1) = false ->
  check_instance_pool_locked median handle_tags P pool_id w
  = scale_pool median handle_tags P instance_pool (config_flatten instance_pool)
      (instance_cores_missing counted) w1.
Proof.
  unfold pool_row, is_frozen. intros Hrow Hfrozen Hcyclic Hmissing Henabled Hcount Hcycle.
  unfold check_instance_pool_locked, Pool_get. unfold bind at 1. unfold bind at 1.
  unfold gets at 1.
  destruct (List.filter (fun p => pool_pk p =? pool_id) (db_pools w)) as [|p rest];
    [discriminate|].
  injection Hrow as ->. unfold ret at 1. unfold bind at 1.
  unfold Entry_filter_critical, gets at 1. rewrite Hfrozen, Hcyclic, Hmissing.
  cbn [orb nonempty]. unfold bind at 1. rewrite Hcount, Henabled. cbn [negb].
  unfold cycle_pool, timezone_now. unfold bind at 1. unfold bind at 1. unfold gets at 1.
  rewrite Hcycle. reflexivity.
Qed.

Lemma scale_pool_writes (median : list float -> float)
    (handle_tags : string -> list (string * string) -> string) (P : Provider)
    (pool : InstancePool) (config : Config) (missing : Z) :
  effects (scale_pool median handle_tags P pool config missing)
          (fun _ l => if 0 <? missing
                      then exists l', l = SEmit (EvStart (pool_pk pool) missing) :: l' /\
                                      scale_up_writes P (pool_pk pool) config missing l'
                      else Forall no_instance_write l).
Proof.
  destruct (0 <? missing) eqn:Hpos.
  - unfold scale_pool. rewrite Hpos. apply start_pool_instances_writes.
  - eapply effects_conseq; [apply scale_pool_effects|]. intros r l H. rewrite Hpos in H.
    destruct (scale_down_no_start _ _ H) as [_ Hd]. revert Hd.
    destruct H as [->|(instances & l' & -> & Hl')]; intros _; [constructor|].
    constructor; [exact I|]. now apply is_report_no_instance.
Qed.

(** C8, as amended. In a tick on an enabled pool that is not frozen, whose
    configuration is sound and that is not to be cycled, once the instances
    are refreshed and counted: when no cores are missing, the scale step
    leaves the stored instances as they are (scale-down terminates at the
    provider only, so an excess stays in the store); when [m > 0] cores are
    missing, the stored sum of the requested, pending and running instances
    is [config.size - m], some configured type has at most [m] cores, the
    provider returns as many requests as asked and the tick saves instances,
    then the chosen type has [c <= m] cores, the sum after the tick is
    [config.size - m + (m // c) * c], and it lies in
    [(config.size - c, config.size]]. *)
Theorem scale_step_bounds (median : list float -> float)
    (handle_tags : string -> list (string * string) -> string) (P : Provider)
    (pool_id : Z) (instance_pool : InstancePool) (counted : CountLocals) (w : World) :
  pool_row pool_id w = Some instance_pool ->
  existsb (Z.eqb pool_id) (locks w) = false ->
  is_frozen (pool_pk instance_pool) w = false ->
  config_isCyclic instance_pool = false ->
  config_getMissingParameters instance_pool = [] ->
  isEnabled instance_pool = true ->
  needs_cycle instance_pool (config_flatten instance_pool) (now w) = false ->
  fst (count_pool P instance_pool (config_flatten instance_pool)
         (with_locks (cons pool_id) w)) = Ok counted ->
  (instance_cores_missing counted <= 0 ->
   db_instances (snd (check_instance_pool median handle_tags P pool_id w))
   = db_instances (snd (count_pool P instance_pool (config_flatten instance_pool)
                          (with_locks (cons pool_id) w)))) /\
  (0 < instance_cores_missing counted ->
   active_size pool_id (snd (count_pool P instance_pool (config_flatten instance_pool)
                               (with_locks (cons pool_id) w)))
   = cfg_size (config_flatten instance_pool) - instance_cores_missing counted ->
   grants_in_full P ->
   (exists t c, In t (ec2_instance_types (config_flatten instance_pool)) /\
                CORES_PER_INSTANCE !! t = Some c /\ c <= instance_cores_missing counted) ->
   db_instances (snd (check_instance_pool median handle_tags P pool_id w))
   <> db_instances (snd (count_pool P instance_pool (config_flatten instance_pool)
                           (with_locks (cons pool_id) w))) ->
   exists t c,
     In t (ec2_instance_types (config_flatten instance_pool)) /\
     CORES_PER_INSTANCE !! t = Some c /\ c <= instance_cores_missing counted /\
     active_size pool_id (snd (check_instance_pool median handle_tags P pool_id w))
     = cfg_size (config_flatten instance_pool) - instance_cores_missing counted
       + instance_cores_missing counted / c * c /\
     cfg_size (config_flatten instance_pool) - c
     < active_size pool_id (snd (check_instance_pool median handle_tags P pool_id w))
     <= cfg_size (config_flatten instance_pool)).
Proof.
  intros Hrow Hheld Hfrozen Hcyclic Hmissing Henabled Hcycle Hcount.
  set (config := config_flatten instance_pool) in *.
  set (wl := with_locks (cons pool_id) w) in *.
  destruct (count_pool P instance_pool config wl) as [rc w1] eqn:Hcp.
  simpl in Hcount. subst rc. cbn [snd].
  set (m := instance_cores_missing counted) in *.
  assert (Hpk : pool_pk instance_pool = pool_id) by exact (pool_row_pk _ _ _ Hrow).
  destruct (count_pool_effects P instance_pool config wl) as (lc & Hw1 & lc' & -> & Hdata).
  rewrite Hcp in Hw1. cbn [snd fst] in Hw1.
  assert (Hnow : now w1 = now w) by (rewrite Hw1, now_steps; reflexivity).
  assert (Htick : check_instance_pool median handle_tags P pool_id w
                  = try_finally (scale_pool median handle_tags P instance_pool config m)
                      (with_locks (List.filter (fun l => negb (l =? pool_id)))) w1).
  { unfold check_instance_pool. unfold bind at 1. unfold gets at 1. rewrite Hheld.
    unfold bind at 1. unfold modify at 1. fold wl. unfold try_finally.
    rewrite (scale_locked median handle_tags P pool_id instance_pool counted wl w1);
      try assumption; [reflexivity|now rewrite Hnow]. }
  rewrite Htick. clear Htick. unfold try_finally.
  destruct (scale_pool_writes median handle_tags P instance_pool config m w1)
    as (l & Hw & Hl).
  destruct (scale_pool median handle_tags P instance_pool config m w1) as [r w'].
  cbn [fst snd] in *. subst w'. rewrite Hpk in Hl.
  change (db_instances (with_locks _ (steps l w1))) with (db_instances (steps l w1)).
  change (active_size pool_id (with_locks _ (steps l w1)))
    with (active_size pool_id (steps l w1)).
  split.
  - intros Hle. destruct (0 <? m) eqn:Hpos; [apply Z.ltb_lt in Hpos; lia|].
    now apply no_instance_steps.
  - intros Hpos Hsize Hfull (t0 & c0 & Hin0 & Hc0 & Hle0) Hchanged.
    apply Z.ltb_lt in Hpos. rewrite Hpos in Hl. apply Z.ltb_lt in Hpos.
    destruct Hl as (l' & -> & [Hquiet|(sizes & t & c & region & zone & Hsizes & Ht & Hc & Hreq)]).
    { exfalso. apply Hchanged. apply no_instance_steps. now constructor. }
    destruct (filter_sizes_acceptable _ _ _ _ Hsizes) as (Hacc1 & Hacc2 & _).
    assert (Hacc : In t (acceptable_types sizes)).
    { unfold eligible_types in Ht.
      destruct (acceptable_types sizes) as [|x xs] eqn:Ha; [|exact Ht].
      exfalso. exact (Hacc2 t0 c0 Hin0 Hc0 Hle0). }
    destruct (Hacc1 t Hacc) as [[]|(Hin & c' & Hc' & Hle)].
    rewrite Hc in Hc'. injection Hc' as <-.
    pose proof (cores_positive t c Hc) as Hcpos.
    destruct (whole_instances_bound m c Hcpos Hle) as (Hmax & Hbound).
    rewrite Hmax in Hreq. rewrite steps_cons in *.
    assert (Hn : 0 < m / c) by (apply Z.div_str_pos; lia).
    destruct (request_writes_size P pool_id region zone t (m / c) c l'
                (step (SEmit (EvStart pool_id m)) w1) Hn Hfull Hreq) as [Hsame|Hgrown].
    { exfalso. apply Hchanged. rewrite Hsame. reflexivity. }
    exists t, c. split; [exact Hin|]. split; [exact Hc|]. split; [exact Hle|].
    rewrite Hgrown.
    change (active_size pool_id (step (SEmit (EvStart pool_id m)) w1))
      with (active_size pool_id w1).
    rewrite Hsize. split; [reflexivity|]. lia.
Qed.

Lemma provider_with_grants (found : list BotoInstance) : grants_in_full (provider_with found).
Proof.
  intros n region zone t count ids Hpos H. simpl in H. injection H as <-.
  rewrite length_map, length_seq. lia.
Qed.

Lemma scale_step_bounds_witness :
  pool_row 1 world_cheap = Some pool_eight /\
  existsb (Z.eqb 1) (locks world_cheap) = false /\
  is_frozen (pool_pk pool_eight) world_cheap = false /\
  config_isCyclic pool_eight = false /\
  config_getMissingParameters pool_eight = [] /\
  isEnabled pool_eight = true /\
  needs_cycle pool_eight (config_flatten pool_eight) (now world_cheap) = false /\
  fst (count_pool (provider_with []) pool_eight (config_flatten pool_eight)
         (with_locks (cons 1) world_cheap)) = Ok (mkCount 8 []) /\
  0 < instance_cores_missing (mkCount 8 []) /\
  active_size 1 (snd (count_pool (provider_with []) pool_eight (config_flatten pool_eight)
                        (with_locks (cons 1) world_cheap)))
  = cfg_size (config_flatten pool_eight) - instance_cores_missing (mkCount 8 []) /\
  grants_in_full (provider_with []) /\
  (exists t c, In t (ec2_instance_types (config_flatten pool_eight)) /\
               CORES_PER_INSTANCE !! t = Some c /\
               c <= instance_cores_missing (mkCount 8 [])) /\
  db_instances (snd (check_instance_pool price_median handle_tags_plain (provider_with [])
                       1 world_cheap))
  <> db_instances (snd (count_pool (provider_with []) pool_eight
                          (config_flatten pool_eight) (with_locks (cons 1) world_cheap))) /\
  exists t c,
    In t (ec2_instance_types (config_flatten pool_eight)) /\
    CORES_PER_INSTANCE !! t = Some c /\ c <= instance_cores_missing (mkCount 8 []) /\
    active_size 1 (snd (check_instance_pool price_median handle_tags_plain
                          (provider_with []) 1 world_cheap))
    = cfg_size (config_flatten pool_eight) - instance_cores_missing (mkCount 8 [])
      + instance_cores_missing (mkCount 8 []) / c * c /\
    cfg_size (config_flatten pool_eight) - c
    < active_size 1 (snd (check_instance_pool price_median handle_tags_plain
                            (provider_with []) 1 world_cheap))
    <= cfg_size (config_flatten pool_eight).
Proof.
  assert (Htype : exists t c, In t (ec2_instance_types (config_flatten pool_eight)) /\
                              CORES_PER_INSTANCE !! t = Some c /\
                              c <= instance_cores_missing (mkCount 8 [])).
  { exists "c4.xlarge", 4. split; [right; now left|]. split; [vm_compute; reflexivity|].
    vm_compute. discriminate. }
  assert (Hchanged :
            db_instances (snd (check_instance_pool price_median handle_tags_plain
                                 (provider_with []) 1 world_cheap))
            <> db_instances (snd (count_pool (provider_with []) pool_eight
                                    (config_flatten pool_eight)
                                    (with_locks (cons 1) world_cheap))))
    by (vm_compute; discriminate).
  repeat (split; [vm_compute; reflexivity|]).
  split; [apply provider_with_grants|]. split; [exact Htype|]. split; [exact Hchanged|].
  apply (proj2 (scale_step_bounds price_median handle_tags_plain (provider_with []) 1
                  pool_eight (mkCount 8 []) world_cheap
                  eq_refl eq_refl eq_refl eq_refl eq_refl eq_refl eq_refl eq_refl)).
  - vm_compute. reflexivity.
  - vm_compute. reflexivity.
  - apply provider_with_grants.
  - exact Htype.
  - exact Hchanged.
Defined.

(** C8 as stated fails: a tick on an empty pool of three cores whose only
    instance type has four cores requests one instance, and the stored sum
    is four, above [config.size]. *)
Lemma scale_up_overshoots :
  fst (check_instance_pool price_median handle_tags_plain (provider_with []) 1 world_three)
  = Ok tt /\
  map (fun i => (ec2_instance_id i, inst_size i, status_code i))
      (db_instances (snd (check_instance_pool price_median handle_tags_plain
                            (provider_with []) 1 world_three)))
  = [("sir-0", 4, 256)] /\
  active_size 1 (snd (check_instance_pool price_median handle_tags_plain
                        (provider_with []) 1 world_three)) = 4 /\
  cfg_size (config_flatten pool_three) = 3 /\
  ~ (active_size 1 (snd (check_instance_pool price_median handle_tags_plain
                           (provider_with []) 1 world_three))
     <= cfg_size (config_flatten pool_three)).
Proof. vm_compute. repeat split; try reflexivity. intros H. apply H. reflexivity. Qed.
(** ** The table of instance types *)

Lemma instance_types_NoDup : NoDup (map fst INSTANCE_TYPES).
Proof. apply (bool_decide_unpack (NoDup (map fst INSTANCE_TYPES))). vm_compute. exact I. Qed.

(** X1. The dictionary [CORES_PER_INSTANCE] holds the rows of [INSTANCE_TYPES]
    and nothing else: no [api_name] is listed twice, so the comprehension
    drops no row. *)
Theorem cores_per_instance_rows (name : string) (c : Z) :
  CORES_PER_INSTANCE !! name = Some c <-> In (name, c) INSTANCE_TYPES.
Proof.
  with_strategy transparent [CORES_PER_INSTANCE] unfold CORES_PER_INSTANCE.
  rewrite <- list_elem_of_In. symmetry.
  apply elem_of_list_to_map. exact instance_types_NoDup.
Qed.

(** X2. Every instance type of the table has at least one and at most 128
    cores, so that a price per core and a number of instances per core
    count never divide by zero. *)
Theorem cores_per_instance_bounds (name : string) (c : Z) :
  CORES_PER_INSTANCE !! name = Some c -> 1 <= c <= 128.
Proof.
  intros H.
  assert (Hall : forallb (fun p => (1 <=? snd p) && (snd p <=? 128)) INSTANCE_TYPES = true)
    by (vm_compute; reflexivity).
  with_strategy transparent [CORES_PER_INSTANCE] unfold CORES_PER_INSTANCE in H.
  apply elem_of_list_to_map_2, list_elem_of_In in H.
  rewrite forallb_forall in Hall. apply Hall in H. simpl in H. lia.
Qed.

Lemma cores_per_instance_bounds_witness : 1 <= 36 <= 128.
Proof. apply (cores_per_instance_bounds "c4.8xlarge" 36). vm_compute. reflexivity. Defined.
(** ** The instances by region and by id *)

Lemma dict_has_set {V} (d : list (string * V)) k v k' :
  dict_has (dict_set d k v) k' = String.eqb k k' || dict_has d k'.
Proof.
  unfold dict_has. rewrite dict_get_set. destruct (String.eqb k k'); reflexivity.
Qed.

Lemma ids_by_region_loop_get (instances : list Instance)
    (d : list (string * list string)) (region : string) :
  dict_get (ids_by_region_loop instances d) region
  = match dict_get d region with
    | Some ids =>
        Some (ids ++ map ec2_instance_id (List.filter (in_region region) instances))
    | None =>
        if existsb (in_region region) instances
        then Some (map ec2_instance_id (List.filter (in_region region) instances))
        else None
    end.
Proof.
  revert d. induction instances as [|i rest IH]; intros d; simpl.
  - destruct (dict_get d region); [now rewrite app_nil_r|reflexivity].
  - rewrite IH, dict_get_set. unfold dict_has.
    assert (Hb : in_region region i = String.eqb (ec2_region i) region) by reflexivity.
    rewrite Hb. clear Hb.
    destruct (String.eqb_spec (ec2_region i) region) as [->|Hne]; simpl.
    + destruct (dict_get d region) as [ids|] eqn:Hd.
      * rewrite Hd. simpl. now rewrite <- app_assoc.
      * rewrite dict_get_set, String.eqb_refl. reflexivity.
    + destruct (dict_get d (ec2_region i)) eqn:Hr.
      * reflexivity.
      * rewrite dict_get_set. apply String.eqb_neq in Hne. now rewrite Hne.
Qed.

(** X3. [_get_instance_ids_by_region] maps a region to the ids of the instances
    of that region, in the order of the instances; a region of no instance
    is no key. *)
Theorem ids_by_region_lookup (instances : list Instance) (region : string) :
  dict_get (_get_instance_ids_by_region instances) region
  = if existsb (in_region region) instances
    then Some (map ec2_instance_id (List.filter (in_region region) instances))
    else None.
Proof. unfold _get_instance_ids_by_region. now rewrite ids_by_region_loop_get. Qed.

Lemma dict_has_In {V} (d : list (string * V)) k :
  dict_has d k = true <-> In k (map fst d).
Proof.
  unfold dict_has. induction d as [|[k0 v0] r IH]; simpl; [now split|].
  destruct (String.eqb_spec k0 k) as [->|Hne].
  - split; auto.
  - rewrite IH. split; [auto|]. intros [E|H]; [congruence|exact H].
Qed.

Lemma dict_set_keys {V} (d : list (string * V)) k v :
  map fst (dict_set d k v) = if dict_has d k then map fst d else map fst d ++ [k].
Proof.
  unfold dict_has. induction d as [|[k0 v0] r IH]; simpl; [reflexivity|].
  destruct (String.eqb_spec k0 k) as [->|Hne]; simpl; [reflexivity|].
  rewrite IH. destruct (dict_get r k); reflexivity.
Qed.

Lemma ids_by_region_loop_keys (instances : list Instance)
    (d : list (string * list string)) :
  NoDup (map fst d) ->
  NoDup (map fst (ids_by_region_loop instances d)) /\
  forall region, In region (map fst (ids_by_region_loop instances d)) <->
                 In region (map fst d) \/ In region (map ec2_region instances).
Proof.
  revert d. induction instances as [|i rest IH]; intros d Hd; simpl.
  - split; [exact Hd|]. intros region. split; [auto|]. now intros [H|[]].
  - set (d1 := if dict_has d (ec2_region i) then d else dict_set d (ec2_region i) []).
    assert (Hk1 : map fst d1
                  = if dict_has d (ec2_region i) then map fst d
                    else map fst d ++ [ec2_region i]).
    { subst d1. destruct (dict_has d (ec2_region i)) eqn:Hh; [reflexivity|].
      now rewrite dict_set_keys, Hh. }
    assert (Hh1 : dict_has d1 (ec2_region i) = true).
    { subst d1. destruct (dict_has d (ec2_region i)) eqn:Hh; [exact Hh|].
      now rewrite dict_has_set, String.eqb_refl. }
    set (d2 := dict_set d1 _ _).
    assert (Hk2 : map fst d2 = map fst d1) by (subst d2; now rewrite dict_set_keys, Hh1).
    destruct (IH d2) as [Hnd Hin].
    { rewrite Hk2, Hk1. destruct (dict_has d (ec2_region i)) eqn:Hh; [exact Hd|].
      apply NoDup_app. repeat split; [exact Hd| |apply NoDup_singleton].
      intros x Hx Hx'. apply list_elem_of_In in Hx, Hx'. destruct Hx' as [<-|[]].
      apply dict_has_In in Hx. congruence. }
    split; [exact Hnd|]. intros region. rewrite Hin, Hk2, Hk1.
    destruct (dict_has d (ec2_region i)) eqn:Hh.
    + apply dict_has_In in Hh. intuition (subst; auto).
    + rewrite in_app_iff. simpl. intuition (subst; auto).
Qed.

(** X4. The keys of [_get_instance_ids_by_region] are the regions of the
    instances, each once. *)
Theorem ids_by_region_regions (instances : list Instance) :
  NoDup (map fst (_get_instance_ids_by_region instances)) /\
  forall region, In region (map fst (_get_instance_ids_by_region instances)) <->
                 In region (map ec2_region instances).
Proof.
  destruct (ids_by_region_loop_keys instances []) as [Hnd Hin]; [constructor|].
  split; [exact Hnd|]. intros region. unfold _get_instance_ids_by_region.
  rewrite Hin. simpl. intuition.
Qed.

Lemma dict_set_concat (d : list (string * list string)) k old x :
  dict_get d k = Some old ->
  Permutation (concat (map snd (dict_set d k (old ++ [x])))) (concat (map snd d) ++ [x]).
Proof.
  induction d as [|[k0 v0] r IH]; simpl; [discriminate|].
  destruct (String.eqb_spec k0 k) as [->|Hne]; simpl; intros H.
  - injection H as ->. rewrite <- !app_assoc. apply Permutation_app_head.
    apply Permutation_app_comm.
  - rewrite <- app_assoc. apply Permutation_app_head. now apply IH.
Qed.

Lemma dict_set_new_concat (d : list (string * list string)) k :
  dict_get d k = None ->
  concat (map snd (dict_set d k [])) = concat (map snd d).
Proof.
  induction d as [|[k0 v0] r IH]; simpl; [reflexivity|].
  destruct (String.eqb_spec k0 k) as [->|Hne]; simpl; [discriminate|].
  intros H. now rewrite IH.
Qed.

Lemma ids_by_region_loop_concat (instances : list Instance)
    (d : list (string * list string)) :
  Permutation (concat (map snd (ids_by_region_loop instances d)))
              (concat (map snd d) ++ map ec2_instance_id instances).
Proof.
  revert d. induction instances as [|i rest IH]; intros d; simpl.
  - now rewrite app_nil_r.
  - etransitivity; [apply IH|].
    replace (concat (map snd d) ++ ec2_instance_id i :: map ec2_instance_id rest)
      with ((concat (map snd d) ++ [ec2_instance_id i]) ++ map ec2_instance_id rest)
      by (now rewrite <- app_assoc).
    apply Permutation_app_tail. unfold dict_has.
    destruct (dict_get d (ec2_region i)) as [old|] eqn:Hd.
    + rewrite Hd. simpl. now apply dict_set_concat.
    + rewrite dict_get_set, String.eqb_refl. simpl.
      rewrite <- (dict_set_new_concat d (ec2_region i) Hd).
      apply (dict_set_concat _ _ []). now rewrite dict_get_set, String.eqb_refl.
Qed.

(** X5. [_get_instance_ids_by_region] loses and repeats nothing: the lists of
    all regions together hold the ids of the instances, as often as these
    occur. *)
Theorem ids_by_region_partition (instances : list Instance) :
  Permutation (concat (map snd (_get_instance_ids_by_region instances)))
              (map ec2_instance_id instances).
Proof. unfold _get_instance_ids_by_region. now rewrite ids_by_region_loop_concat. Qed.

Lemma find_app_first {X} (f : X -> bool) (l1 l2 : list X) :
  List.find f (l1 ++ l2)
  = match List.find f l1 with
    | Some x => Some x
    | None => List.find f l2
    end.
Proof.
  induction l1 as [|x l1 IH]; simpl; [reflexivity|].
  destruct (f x); [reflexivity|exact IH].
Qed.

(** A dictionary filled in a loop holds, under a key, the value of the last
    item with that key. *)
Lemma fold_dict_set_get {X V} (key : X -> string) (val : X -> V) (l : list X)
    (d : list (string * V)) (k : string) :
  dict_get (fold_left (fun d x => dict_set d (key x) (val x)) l d) k
  = match List.find (fun x => String.eqb (key x) k) (rev l) with
    | Some x => Some (val x)
    | None => dict_get d k
    end.
Proof.
  revert d. induction l as [|x l IH]; intros d; simpl; [reflexivity|].
  rewrite IH, find_app_first.
  destruct (List.find _ (rev l)); [reflexivity|]. simpl.
  rewrite dict_get_set. destruct (String.eqb (key x) k); reflexivity.
Qed.

(** X6. [_get_instances_by_ids] maps an id to the last of the instances that
    has it: an instance whose id a later one repeats is dropped. *)
Theorem instances_by_ids_last (instances : list Instance) (id : string) :
  dict_get (_get_instances_by_ids instances) id
  = List.find (has_id id) (rev instances).
Proof.
  unfold _get_instances_by_ids.
  rewrite (fold_dict_set_get ec2_instance_id (fun i => i)).
  unfold has_id. now destruct (List.find _ _).
Qed.

Lemma fold_dict_set_fresh {X V} (key : X -> string) (val : X -> V) (l : list X)
    (d : list (string * V)) :
  NoDup (map fst d ++ map key l) ->
  fold_left (fun d x => dict_set d (key x) (val x)) l d
  = d ++ map (fun x => (key x, val x)) l.
Proof.
  revert d. induction l as [|x l IH]; intros d Hnd; simpl; [now rewrite app_nil_r|].
  assert (Hset : dict_set d (key x) (val x) = d ++ [(key x, val x)]).
  { assert (Hx : ~ In (key x) (map fst d)).
    { intros Hin. apply NoDup_app in Hnd as (_ & Hdis & _).
      apply (Hdis (key x)); [now apply list_elem_of_In|]. simpl. left. }
    clear -Hx. induction d as [|[k0 v0] r IHd]; simpl in *; [reflexivity|].
    destruct (String.eqb_spec k0 (key x)) as [E|Hne]; [tauto|].
    rewrite IHd; tauto. }
  rewrite Hset, IH.
  - now rewrite <- app_assoc.
  - rewrite map_app. simpl. rewrite <- app_assoc. exact Hnd.
Qed.

(** X7. When no two instances share an id, [_get_instances_by_ids] holds all
    of them, in their order. *)
Theorem instances_by_ids_unique (instances : list Instance) :
  NoDup (map ec2_instance_id instances) ->
  _get_instances_by_ids instances = map (fun i => (ec2_instance_id i, i)) instances.
Proof.
  intros Hnd. unfold _get_instances_by_ids.
  now rewrite (fold_dict_set_fresh ec2_instance_id (fun i => i)).
Qed.

Lemma instances_by_ids_unique_witness :
  _get_instances_by_ids [instance_old; instance_new]
  = [("i-1", instance_old); ("i-2", instance_new)].
Proof.
  apply (instances_by_ids_unique [instance_old; instance_new]).
  apply (bool_decide_unpack (NoDup (map ec2_instance_id [instance_old; instance_new]))).
  vm_compute. exact I.
Defined.

(** ** The image of a scale-up *)

(** X8. [_create_laniakea_images] gives, under a key, the last value of the raw
    configuration for it, and without one the key name, the image name or
    the security groups of the configuration: the raw configuration
    overrides these three. *)
Theorem laniakea_images_lookup (config : Config) (k : string) :
  dict_get (_create_laniakea_images config) k
  = match List.find (fun kv => String.eqb (fst kv) k) (rev (ec2_raw_config config)) with
    | Some kv => Some (snd kv)
    | None =>
        if String.eqb "key_name" k then Some (ec2_key_name config)
        else if String.eqb "image_name" k then Some (ec2_image_name config)
        else if String.eqb "security_groups" k then Some (ec2_security_groups config)
        else None
    end.
Proof.
  unfold _create_laniakea_images. cbv zeta.
  rewrite (fold_dict_set_get fst snd). reflexivity.
Qed.

(** ** The filter of machine sizes *)

(** X9. The filter of machine sizes fails on an instance type that is not in
    the table, with [KeyError], and on nothing else. *)
Theorem filter_sizes_KeyError (types : list string) (count : Z) (st : Sizes) :
  match filter_sizes types count st with
  | Ok _ => Forall (fun t => CORES_PER_INSTANCE !! t <> None) types
  | Raise e => e = KeyError /\ Exists (fun t => CORES_PER_INSTANCE !! t = None) types
  end.
Proof.
  revert st. induction types as [|t0 rest IH]; intros st; simpl; [constructor|].
  destruct (CORES_PER_INSTANCE !! t0) as [c0|] eqn:Hc0.
  - assert (Hstep : forall st1,
               match filter_sizes rest count st1 with
               | Ok _ => Forall (fun t => CORES_PER_INSTANCE !! t <> None) (t0 :: rest)
               | Raise e => e = KeyError /\
                            Exists (fun t => CORES_PER_INSTANCE !! t = None) (t0 :: rest)
               end).
    { intros st1. specialize (IH st1). destruct (filter_sizes rest count st1).
      - constructor; [congruence|exact IH].
      - destruct IH as [-> Hex]. split; [reflexivity|]. now apply Exists_cons_tl. }
    destruct (negb (nonempty (smallest st)) || _); [apply Hstep|].
    destruct (match smallest_size st with Some s => c0 =? s | None => false end);
      apply Hstep.
  - split; [reflexivity|]. now apply Exists_cons_hd.
Qed.

Lemma filter_cores_are_below (m c0 : Z) (pre : list string) :
  (forall t c, In t pre -> CORES_PER_INSTANCE !! t = Some c -> m <= c) ->
  c0 < m -> List.filter (cores_are c0) pre = [].
Proof.
  intros Hmin Hlt. induction pre as [|t pre IHp]; [reflexivity|]. simpl.
  rewrite IHp by (intros t' c' Hin; apply Hmin; now right).
  unfold cores_are. destruct (CORES_PER_INSTANCE !! t) as [c|] eqn:Hc; [|reflexivity].
  specialize (Hmin t c (or_introl eq_refl) Hc).
  destruct (Z.eqb_spec c c0); [lia|reflexivity].
Qed.

(** What the filter has seen of the types [pre]. *)
Lemma filter_sizes_from (count : Z) (types pre : list string) (st sizes : Sizes) :
  acceptable_types st = List.filter (cores_at_most count) pre ->
  match smallest_size st with
  | None => pre = [] /\ smallest st = []
  | Some m =>
      (forall t c, In t pre -> CORES_PER_INSTANCE !! t = Some c -> m <= c) /\
      smallest st = List.filter (cores_are m) pre /\ smallest st <> []
  end ->
  filter_sizes types count st = Ok sizes ->
  acceptable_types sizes = List.filter (cores_at_most count) (pre ++ types) /\
  match smallest_size sizes with
  | None => pre ++ types = [] /\ smallest sizes = []
  | Some m =>
      (forall t c, In t (pre ++ types) -> CORES_PER_INSTANCE !! t = Some c -> m <= c) /\
      smallest sizes = List.filter (cores_are m) (pre ++ types) /\ smallest sizes <> []
  end.
Proof.
  revert pre st. induction types as [|t0 rest IH]; intros pre st Hacc Hsm H; simpl in H.
  - injection H as <-. rewrite app_nil_r. auto.
  - destruct (CORES_PER_INSTANCE !! t0) as [c0|] eqn:Hc0; [|discriminate].
    replace (pre ++ t0 :: rest) with ((pre ++ [t0]) ++ rest) by (now rewrite <- app_assoc).
    set (acceptable := if c0 <=? count then acceptable_types st ++ [t0]
                       else acceptable_types st) in *.
    assert (Hacc' : acceptable = List.filter (cores_at_most count) (pre ++ [t0])).
    { assert (Ht0 : cores_at_most count t0 = (c0 <=? count))
        by (unfold cores_at_most; now rewrite Hc0).
      subst acceptable. rewrite List.filter_app, <- Hacc. simpl. rewrite Ht0.
      destruct (c0 <=? count); [reflexivity|now rewrite app_nil_r]. }
    assert (Hself : cores_are c0 t0 = true).
    { unfold cores_are. now rewrite Hc0, Z.eqb_refl. }
    destruct (smallest_size st) as [s|] eqn:Hs.
    + destruct Hsm as (Hmin & Hsmallest & Hne).
      assert (Hnonempty : nonempty (smallest st) = true)
        by (destruct (smallest st); [congruence|reflexivity]).
      rewrite Hnonempty in H. cbn [negb orb] in H.
      destruct (Z.ltb_spec c0 s) as [Hlt|Hge].
      * apply (IH (pre ++ [t0])) in H; [exact H|exact Hacc'|]. cbn [smallest_size smallest].
        split; [|split; [|discriminate]].
        -- intros t c Hin Hc. apply in_app_or in Hin as [Hin|[<-|[]]].
           ++ specialize (Hmin t c Hin Hc). lia.
           ++ rewrite Hc0 in Hc. injection Hc as <-. lia.
        -- rewrite List.filter_app. simpl. rewrite Hself.
           now rewrite (filter_cores_are_below s c0 pre Hmin Hlt).
      * destruct (Z.eqb_spec c0 s) as [->|Hneq].
        -- apply (IH (pre ++ [t0])) in H; [exact H|exact Hacc'|].
           cbn [smallest_size smallest].
           split; [|split].
           ++ intros t c Hin Hc. apply in_app_or in Hin as [Hin|[<-|[]]].
              ** exact (Hmin t c Hin Hc).
              ** rewrite Hc0 in Hc. injection Hc as <-. lia.
           ++ rewrite List.filter_app, <- Hsmallest. simpl. now rewrite Hself.
           ++ destruct (smallest st); discriminate.
        -- apply (IH (pre ++ [t0])) in H; [exact H|exact Hacc'|].
           cbn [smallest_size smallest].
           split; [|split; [|exact Hne]].
           ++ intros t c Hin Hc. apply in_app_or in Hin as [Hin|[<-|[]]].
              ** exact (Hmin t c Hin Hc).
              ** rewrite Hc0 in Hc. injection Hc as <-. lia.
           ++ rewrite List.filter_app, <- Hsmallest. simpl.
              unfold cores_are. rewrite Hc0.
              destruct (Z.eqb_spec c0 s); [lia|]. now rewrite app_nil_r.
    + destruct Hsm as [-> Hempty]. rewrite Hempty in H. cbn [nonempty negb orb] in H.
      apply (IH ([] ++ [t0])) in H; [exact H|exact Hacc'|]. cbn [smallest_size smallest].
      split; [|split; [|discriminate]].
      * intros t c [<-|[]] Hc. rewrite Hc0 in Hc. injection Hc as <-. lia.
      * simpl. now rewrite Hself.
Qed.

(** X10. What the filter of machine sizes computes: the acceptable types are the
    configured types of at most [count] cores, in their order, and the
    smallest types are the configured types with the least number of
    cores, in their order; there is a smallest type unless no type is
    configured. *)
Theorem filter_sizes_result (types : list string) (count : Z) (sizes : Sizes) :
  filter_sizes types count (mkSizes [] None []) = Ok sizes ->
  acceptable_types sizes = List.filter (cores_at_most count) types /\
  match smallest_size sizes with
  | None => types = [] /\ smallest sizes = []
  | Some m =>
      (forall t c, In t types -> CORES_PER_INSTANCE !! t = Some c -> m <= c) /\
      smallest sizes = List.filter (cores_are m) types /\ smallest sizes <> []
  end.
Proof.
  intros H. apply (filter_sizes_from count types []) in H; [exact H|reflexivity|].
  simpl. auto.
Qed.

Lemma filter_sizes_result_witness :
  acceptable_types (mkSizes ["c4.large"] (Some 2) ["c4.large"; "c4.xlarge"])
  = List.filter (cores_at_most 5) ["c4.large"; "c4.xlarge"; "c4.2xlarge"] /\
  match smallest_size (mkSizes ["c4.large"] (Some 2) ["c4.large"; "c4.xlarge"]) with
  | None => ["c4.large"; "c4.xlarge"; "c4.2xlarge"] = [] /\
            smallest (mkSizes ["c4.large"] (Some 2) ["c4.large"; "c4.xlarge"]) = []
  | Some m =>
      (forall t c, In t ["c4.large"; "c4.xlarge"; "c4.2xlarge"] ->
                   CORES_PER_INSTANCE !! t = Some c -> m <= c) /\
      smallest (mkSizes ["c4.large"] (Some 2) ["c4.large"; "c4.xlarge"])
      = List.filter (cores_are m) ["c4.large"; "c4.xlarge"; "c4.2xlarge"] /\
      smallest (mkSizes ["c4.large"] (Some 2) ["c4.large"; "c4.xlarge"]) <> []
  end.
Proof.
  apply (filter_sizes_result ["c4.large"; "c4.xlarge"; "c4.2xlarge"] 5).
  vm_compute. reflexivity.
Defined.

(** ** The selection of a scale-down *)

Lemma total_size_snoc (l : list Instance) (i : Instance) :
  total_size (l ++ [i]) = total_size l + inst_size i.
Proof. induction l as [|x l IH]; simpl; [lia|]. rewrite IH. lia. Qed.

Lemma select_oldest_added (ordered : list Instance) (missing : Z) (selected : list Instance) :
  missing <= 0 ->
  exists added,
    fst (select_oldest ordered missing selected) = selected ++ added /\
    sublist added ordered /\
    snd (select_oldest ordered missing selected) = missing + total_size added /\
    snd (select_oldest ordered missing selected) <= 0.
Proof.
  revert missing selected.
  induction ordered as [|instance rest IH]; intros missing selected Hneg; simpl.
  - exists []. rewrite app_nil_r. simpl. repeat split; [constructor|lia|exact Hneg].
  - destruct (0 <? missing + inst_size instance) eqn:Hover.
    + destruct (IH missing selected Hneg) as (added & Hfst & Hsub & Hsnd & Hle).
      exists added. repeat split; auto. now apply sublist_cons.
    + apply Z.ltb_ge in Hover.
      destruct (missing + inst_size instance =? 0) eqn:Hzero; simpl.
      * apply Z.eqb_eq in Hzero. exists [instance]. simpl.
        repeat split; [|lia|lia]. apply sublist_skip, sublist_nil_l.
      * destruct (IH (missing + inst_size instance) (selected ++ [instance]) Hover)
          as (added & Hfst & Hsub & Hsnd & Hle).
        exists (instance :: added). rewrite Hfst, <- app_assoc. simpl.
        repeat split; [now apply sublist_skip|lia|exact Hle].
Qed.

(** X11. The instances a scale-down selects are taken from the ordered ones in
    their order, oldest first, and their sizes fit the excess: the cores
    missing after the selection are those before plus the sizes selected,
    and are not above zero, so the pool is not left short. *)
Theorem select_oldest_fits (ordered : list Instance) (missing : Z) :
  missing <= 0 ->
  sublist (fst (select_oldest ordered missing [])) ordered /\
  snd (select_oldest ordered missing [])
  = missing + total_size (fst (select_oldest ordered missing [])) /\
  snd (select_oldest ordered missing []) <= 0.
Proof.
  intros Hneg. destruct (select_oldest_added ordered missing [] Hneg)
    as (added & Hfst & Hsub & Hsnd & Hle).
  simpl in Hfst. rewrite Hfst. auto.
Qed.

Lemma select_oldest_fits_witness :
  sublist (fst (select_oldest [instance_old; instance_new] (-2) []))
          [instance_old; instance_new] /\
  snd (select_oldest [instance_old; instance_new] (-2) [])
  = -2 + total_size (fst (select_oldest [instance_old; instance_new] (-2) [])) /\
  snd (select_oldest [instance_old; instance_new] (-2) []) <= 0.
Proof. apply (select_oldest_fits [instance_old; instance_new] (-2)). lia. Defined.

Lemma select_oldest_rest (ordered : list Instance) (missing : Z) (selected : list Instance) :
  missing <= 0 ->
  Forall (fun i => 0 < inst_size i) ordered ->
  missing <= snd (select_oldest ordered missing selected) /\
  (forall i, In i selected -> In i (fst (select_oldest ordered missing selected))) /\
  forall i, In i ordered -> ~ In i (fst (select_oldest ordered missing selected)) ->
            0 < snd (select_oldest ordered missing selected) + inst_size i.
Proof.
  revert missing selected.
  induction ordered as [|instance rest IH]; intros missing selected Hneg Hpos; simpl.
  - repeat split; [lia|auto|]. intros i [].
  - apply Forall_cons_iff in Hpos as [Hp Hpos].
    destruct (0 <? missing + inst_size instance) eqn:Hover.
    + apply Z.ltb_lt in Hover.
      destruct (IH missing selected Hneg Hpos) as (Hmono & Hkeep & Hrest).
      repeat split; [exact Hmono|exact Hkeep|].
      intros i [<-|Hin] Hout; [lia|now apply Hrest].
    + apply Z.ltb_ge in Hover.
      destruct (missing + inst_size instance =? 0) eqn:Hzero; simpl.
      * apply Z.eqb_eq in Hzero. repeat split; [lia| |].
        -- intros i Hin. apply in_or_app. now left.
        -- intros i [<-|Hin] Hout.
           ++ exfalso. apply Hout, in_or_app. right. now left.
           ++ rewrite List.Forall_forall in Hpos. specialize (Hpos i Hin). simpl in Hpos. lia.
      * destruct (IH (missing + inst_size instance) (selected ++ [instance]) Hover Hpos)
          as (Hmono & Hkeep & Hrest).
        repeat split; [lia| |].
        -- intros i Hin. apply Hkeep, in_or_app. now left.
        -- intros i [<-|Hin] Hout; [|now apply Hrest].
           exfalso. apply Hout, Hkeep, in_or_app. right. now left.
Qed.

(** X12. The selection of a scale-down is as large as it can be: when every
    instance has at least one core, an instance that is left running
    would, if terminated as well, leave the pool short of cores. *)
Theorem select_oldest_maximal (ordered : list Instance) (missing : Z) (i : Instance) :
  missing <= 0 ->
  Forall (fun i => 0 < inst_size i) ordered ->
  In i ordered ->
  ~ In i (fst (select_oldest ordered missing [])) ->
  0 < snd (select_oldest ordered missing []) + inst_size i.
Proof.
  intros Hneg Hpos Hin Hout.
  destruct (select_oldest_rest ordered missing [] Hneg Hpos) as (_ & _ & Hrest).
  now apply Hrest.
Qed.

Lemma select_oldest_maximal_witness :
  0 < snd (select_oldest [instance_big; instance_old; instance_new] (-3) [])
      + inst_size instance_big.
Proof.
  apply (select_oldest_maximal [instance_big; instance_old; instance_new] (-3) instance_big).
  - lia.
  - repeat constructor.
  - now left.
  - vm_compute. intros [H|[]]. discriminate H.
Defined.

(** ** What a tick writes *)

(** The leaves: every write made is one a tick may make. *)
Ltac writes_ok :=
  cbn [app];
  repeat first [ apply Forall_app_intro
               | apply Forall_cons_intro;
                 [solve [cbn; first [exact I | repeat split; reflexivity]]|]
               | apply Forall_nil ];
  auto.

Lemma effects_for_fold_all {X S} (C : Step -> Prop) (body : X -> S -> M S)
    (xs : list X) (s0 : S) :
  (forall x s, effects (body x s) (fun _ l => Forall C l)) ->
  effects (for_fold xs body s0) (fun _ l => Forall C l).
Proof.
  intros Hbody. apply effects_for_fold with (J := fun _ l => Forall C l).
  - constructor.
  - intros x s l1 HJ. eapply effects_conseq; [apply Hbody|].
    intros r l2 H. destruct r; now apply Forall_app_intro.
  - intros s l1 HJ. exact HJ.
Qed.

Lemma effects_for_each_all {X S R} (C : Step -> Prop) (body : X -> S -> M (flow S R))
    (xs : list X) (s0 : S) :
  (forall x s, effects (body x s) (fun _ l => Forall C l)) ->
  effects (for_each xs body s0) (fun _ l => Forall C l).
Proof.
  intros Hbody. apply effects_for_each with (J := fun _ l => Forall C l).
  - constructor.
  - intros x s l1 HJ. eapply effects_conseq; [apply Hbody|].
    intros r l2 H. destruct r as [[s'|v]|e]; now apply Forall_app_intro.
  - intros s l1 HJ. exact HJ.
Qed.

(** A task that is followed by another one. *)
Lemma effects_bind_all {A B} (C : Step -> Prop) (m : M A) (k : A -> M B) :
  effects m (fun _ l => Forall C l) ->
  (forall a, effects (k a) (fun _ l => Forall C l)) ->
  effects (bind m k) (fun _ l => Forall C l).
Proof.
  intros Hm Hk. apply effects_bind. eapply effects_conseq; [exact Hm|].
  intros [a|e] l1 H1; cbv beta iota; [|exact H1].
  eapply effects_conseq; [apply Hk|]. intros r l2 H2. now apply Forall_app_intro.
Qed.

Lemma report_boto_error_tick (pool : Z) (e : exn) :
  effects (report_boto_error pool e) (fun _ l => Forall (tick_write pool) l).
Proof. unfold report_boto_error. eff; writes_ok. Qed.

Lemma connect_or_report_tick (P : Provider) (pool : Z) (region : string) :
  effects (connect_or_report P pool region) (fun _ l => Forall (tick_write pool) l).
Proof. unfold connect_or_report. eff; writes_ok. Qed.

Lemma update_spot_result_tick (P : Provider) (pool : InstancePool) (region : string)
    (rr : string * SpotResult) (L : UpdateLocals) :
  effects (update_spot_result P pool region rr L)
          (fun _ l => Forall (tick_write (pool_pk pool)) l).
Proof. unfold update_spot_result. destruct rr as [req_id result]. eff; writes_ok. Qed.

Lemma update_boto_instance_tick (pool : InstancePool) (region : string)
    (b : BotoInstance) (L : UpdateLocals) :
  effects (update_boto_instance pool region b L)
          (fun _ l => Forall (tick_write (pool_pk pool)) l).
Proof. unfold update_boto_instance. eff; writes_ok. Qed.

Lemma update_region_tick (P : Provider) (pool : InstancePool) (config : Config)
    (region : string) (L : UpdateLocals) :
  effects (update_region P pool config region L)
          (fun _ l => Forall (tick_write (pool_pk pool)) l).
Proof.
  unfold update_region. apply effects_bind_all; [apply connect_or_report_tick|].
  intros connected. destruct connected; cbn [negb]; [|apply effects_ret; constructor].
  apply effects_try_except.
  eapply effects_conseq with (Q := fun _ l => Forall (tick_write (pool_pk pool)) l).
  - apply effects_bind_all; [eff; writes_ok|]. intros ids.
    apply effects_bind_all; [eff; writes_ok|]. intros requested.
    apply effects_bind_all.
    { destruct (nonempty requested); [|apply effects_ret; constructor].
      apply effects_bind_all; [eff; writes_ok|]. intros boto_results.
      apply effects_for_fold_all. intros. apply update_spot_result_tick. }
    intros L1. apply effects_bind_all; [eff; writes_ok|]. intros boto_instances.
    apply effects_bind_all.
    { apply effects_for_fold_all. intros. apply update_boto_instance_tick. }
    intros L2. apply effects_ret. constructor.
  - intros [a|e] l H; cbv beta iota; [exact H|].
    destruct (is_boto_error e); [|exact H].
    apply effects_bind. eff_use report_boto_error_tick.
    destruct r; [apply effects_ret|]; writes_ok.
Qed.

Lemma update_pool_instances_tick (P : Provider) (pool : InstancePool) (config : Config) :
  effects (_update_pool_instances P pool config)
          (fun _ l => Forall (tick_write (pool_pk pool)) l).
Proof.
  unfold _update_pool_instances. apply effects_bind_all; [eff; writes_ok|]. intros _.
  apply effects_bind_all.
  { unfold update_regions. apply effects_bind_all; [eff; writes_ok|]. intros instances.
    cbv zeta. apply effects_for_each_all. intros. apply update_region_tick. }
  intros [L|v]; [|apply effects_ret; constructor].
  apply effects_bind_all; [|intros; apply effects_ret; constructor].
  unfold update_finish. apply effects_bind_all.
  { apply effects_for_fold_all. intros. eff; writes_ok. }
  intros _. eff; writes_ok.
Qed.

Lemma terminate_pool_instances_tick (P : Provider) (pool : InstancePool)
    (instances : list Instance) (terminateByPool : bool) :
  effects (_terminate_pool_instances P pool instances terminateByPool)
          (fun _ l => Forall (tick_write (pool_pk pool)) l).
Proof.
  unfold _terminate_pool_instances. apply effects_bind_all; [eff; writes_ok|]. intros _.
  cbv zeta. apply effects_bind_all; [|intros; apply effects_ret; constructor].
  apply effects_for_each_all. intros region []. unfold terminate_region.
  apply effects_bind_all; [apply connect_or_report_tick|]. intros connected.
  destruct connected; cbn [negb]; [|apply effects_ret; constructor].
  eff; writes_ok.
Qed.

Lemma connect_and_resolve_tick (P : Provider) (pool : Z) (region : string)
    (images : list (string * string)) :
  effects (connect_and_resolve P pool region images)
          (fun _ l => Forall (tick_write pool) l).
Proof. unfold connect_and_resolve. eff; writes_ok. Qed.

Lemma request_spot_instances_tick (P : Provider) (pool : InstancePool) (config : Config)
    (region zone instance_type : string) (count cores : Z)
    (images : list (string * string)) :
  effects (request_spot_instances P pool config region zone instance_type count cores images)
          (fun _ l => Forall (tick_write (pool_pk pool)) l).
Proof.
  unfold request_spot_instances. apply effects_try_except.
  eapply effects_conseq with (Q := fun _ l => Forall (tick_write (pool_pk pool)) l).
  - apply effects_bind_all; [eff; writes_ok|]. intros requests.
    apply effects_for_fold_all. intros. eff; writes_ok.
  - intros [a|e] l H; cbv beta iota; [exact H|].
    destruct (is_boto_error e); [|exact H].
    eff_use report_boto_error_tick. writes_ok.
Qed.

Lemma start_pool_instances_tick (median : list float -> float)
    (handle_tags : string -> list (string * string) -> string) (P : Provider)
    (pool : InstancePool) (config : Config) (count : Z) :
  effects (_start_pool_instances median handle_tags P pool config count)
          (fun _ l => Forall (tick_write (pool_pk pool)) l).
Proof.
  unfold _start_pool_instances, _get_best_region_zone.
  repeat first [ eff_step
               | eff_use connect_and_resolve_tick
               | eff_use request_spot_instances_tick ];
    writes_ok.
Qed.

Lemma count_pool_tick (P : Provider) (pool : InstancePool) (config : Config) :
  effects (count_pool P pool config) (fun _ l => Forall (tick_write (pool_pk pool)) l).
Proof.
  unfold count_pool. apply effects_bind_all; [apply update_pool_instances_tick|].
  intros _. apply effects_bind_all; [eff; writes_ok|]. intros instances.
  apply effects_for_fold_all. intros. unfold count_instance. eff; writes_ok.
Qed.

Lemma scale_pool_tick (median : list float -> float)
    (handle_tags : string -> list (string * string) -> string) (P : Provider)
    (pool : InstancePool) (config : Config) (missing : Z) :
  effects (scale_pool median handle_tags P pool config missing)
          (fun _ l => Forall (tick_write (pool_pk pool)) l).
Proof.
  unfold scale_pool. destruct (0 <? missing); [apply start_pool_instances_tick|].
  destruct (missing <? 0); [|apply effects_ret; constructor].
  apply effects_bind_all; [eff; writes_ok|]. intros rows. cbv zeta.
  destruct (nonempty _); [|apply effects_ret; constructor].
  apply effects_bind_all; [eff; writes_ok|]. intros _.
  apply terminate_pool_instances_tick.
Qed.

Lemma cycle_pool_tick (P : Provider) (pool : InstancePool) (config : Config)
    (instances : list Instance) :
  effects (cycle_pool P pool config instances)
          (fun r l => Forall (tick_write (pool_pk pool)) l /\
                      match r with
                      | Ok pool' => pool_pk pool' = pool_pk pool
                      | Raise _ => True
                      end).
Proof.
  unfold cycle_pool. apply effects_bind, effects_gets. intros t. cbv beta iota.
  destruct (needs_cycle pool config t); [|apply effects_ret; split; [constructor|reflexivity]].
  apply effects_bind, effects_gets. intros t'. cbv beta iota zeta.
  apply effects_bind.
  eff_use (terminate_pool_instances_tick P (set_last_cycled pool (Some t')) instances true).
  change (pool_pk (set_last_cycled pool (Some t'))) with (pool_pk pool) in H.
  destruct r as [[]|e]; [|split; [exact H|exact I]].
  eff. split; [|reflexivity]. writes_ok.
Qed.

(** An instance pool that is found has the key asked for. *)
Lemma effects_Pool_get (pk : Z) (Q : res InstancePool -> list Step -> Prop) :
  (forall p, pool_pk p = pk -> Q (Ok p) []) ->
  Q (Raise DoesNotExist) [] ->
  effects (Pool_get pk) Q.
Proof.
  intros Hok Hno w. exists []. split.
  - unfold Pool_get, bind, gets. now destruct (List.filter _ _).
  - unfold Pool_get, bind, gets.
    destruct (List.filter (fun p => pool_pk p =? pk) (db_pools w)) as [|p rest] eqn:Hf;
      [exact Hno|].
    simpl. apply Hok.
    assert (Hin : In p (List.filter (fun p => pool_pk p =? pk) (db_pools w)))
      by (rewrite Hf; now left).
    apply filter_In in Hin as [_ Hpk]. now apply Z.eqb_eq.
Qed.

Lemma check_instance_pool_locked_tick (median : list float -> float)
    (handle_tags : string -> list (string * string) -> string) (P : Provider)
    (pool_id : Z) :
  effects (check_instance_pool_locked median handle_tags P pool_id)
          (fun _ l => Forall (tick_write pool_id) l).
Proof.
  unfold check_instance_pool_locked. apply effects_bind, effects_Pool_get; [|constructor].
  intros instance_pool <-.
  apply (effects_bind_all (tick_write (pool_pk instance_pool))); [eff; writes_ok|].
  intros critical. destruct (nonempty critical); [apply effects_ret; constructor|].
  destruct (_ || _); [eff; writes_ok|]. cbv zeta.
  apply effects_bind_all; [apply count_pool_tick|]. intros counted.
  destruct (isEnabled instance_pool); cbn [negb].
  - apply effects_bind. eff_use cycle_pool_tick. destruct H as [Hl Hpk].
    destruct r as [pool'|e]; [|exact Hl].
    eff_use scale_pool_tick. rewrite Hpk in H. writes_ok.
  - destruct (nonempty _); [|apply effects_ret; constructor].
    apply terminate_pool_instances_tick.
Qed.

(** The writes of a tick: nothing when the lock is held, and otherwise the
    lock, the writes under it, and the release. *)
Lemma check_instance_pool_writes (median : list float -> float)
    (handle_tags : string -> list (string * string) -> string) (P : Provider)
    (pool_id : Z) (w : World) :
  exists l,
    Forall (tick_write pool_id) l /\
    snd (check_instance_pool median handle_tags P pool_id w)
    = if existsb (Z.eqb pool_id) (locks w) then w
      else step (SUnlock pool_id) (steps l (step (SLock pool_id) w)).
Proof.
  unfold check_instance_pool, bind, gets.
  destruct (existsb (Z.eqb pool_id) (locks w)); [exists []; split; [constructor|reflexivity]|].
  unfold modify, try_finally.
  destruct (check_instance_pool_locked_tick median handle_tags P pool_id
              (with_locks (cons pool_id) w)) as (l & Hw & Hl).
  exists l. split; [exact Hl|].
  destruct (check_instance_pool_locked _ _ _ _ _) as [r w']. simpl in *. now subst w'.
Qed.

Lemma tick_write_locks (pool : Z) (l : list Step) (w : World) :
  Forall (tick_write pool) l -> locks (steps l w) = locks w.
Proof.
  intros H. apply locks_steps. revert H. apply Forall_impl_steps.
  intros []; simpl; auto.
Qed.

(** X13. A tick leaves the locks as it found them, however it ends: a tick that
    finds the lock of its pool held takes none, and one that takes the lock
    releases it, also when the check under the lock raises. *)
Theorem tick_restores_locks (median : list float -> float)
    (handle_tags : string -> list (string * string) -> string) (P : Provider)
    (pool_id : Z) (w : World) :
  locks (snd (check_instance_pool median handle_tags P pool_id w)) = locks w.
Proof.
  destruct (check_instance_pool_writes median handle_tags P pool_id w) as (l & Hl & ->).
  destruct (existsb (Z.eqb pool_id) (locks w)) eqn:Hheld; [reflexivity|].
  cbn [step with_locks locks]. rewrite (tick_write_locks pool_id l _ Hl).
  cbn [step with_locks locks List.filter]. rewrite Z.eqb_refl. cbn [negb].
  now apply filter_not_held.
Qed.

Lemma tick_write_other_entries (pool : Z) (l : list Step) (w : World) :
  Forall (tick_write pool) l -> other_entries pool (steps l w) = other_entries pool w.
Proof.
  revert w. induction l as [|s l IH]; intros w Hl; [reflexivity|].
  apply Forall_cons_iff in Hl as [Hs Hl]. rewrite steps_cons, (IH _ Hl).
  unfold other_entries. destruct s; try reflexivity; simpl in Hs |- *.
  - destruct Hs as [-> _]. rewrite List.filter_app. simpl. rewrite Z.eqb_refl. simpl.
    now rewrite app_nil_r.
  - destruct Hs as [-> _]. induction (db_entries w) as [|e es IHe]; [reflexivity|].
    simpl. unfold entry_is at 1.
    destruct (entry_pool e =? pool) eqn:Hp; simpl.
    + destruct (bool_decide _); simpl; rewrite ?Hp; simpl; exact IHe.
    + rewrite Hp. simpl. now rewrite IHe.
Qed.

Lemma tick_write_other_pools (pool : Z) (l : list Step) (w : World) :
  Forall (tick_write pool) l ->
  other_pools pool (steps l w) = other_pools pool w /\
  map pool_pk (db_pools (steps l w)) = map pool_pk (db_pools w).
Proof.
  revert w. induction l as [|s l IH]; intros w Hl; [split; reflexivity|].
  apply Forall_cons_iff in Hl as [Hs Hl]. rewrite steps_cons.
  destruct (IH (step s w) Hl) as [-> ->].
  unfold other_pools. destruct s; try (split; reflexivity); simpl in Hs |- *.
  subst pool. induction (db_pools w) as [|r rs [IH1 IH2]]; [split; reflexivity|].
  simpl. destruct (pool_pk r =? pool_pk p) eqn:Hr; simpl.
  - rewrite Z.eqb_refl. simpl. split; [exact IH1|]. apply Z.eqb_eq in Hr.
    now rewrite IH2, Hr.
  - rewrite Hr. simpl. now rewrite IH1, IH2.
Qed.

(** X14. A tick on a pool leaves the other pools alone: their status entries
    and their rows are after the tick what they were before, and no pool
    is added or removed. *)
Theorem tick_keeps_other_pools (median : list float -> float)
    (handle_tags : string -> list (string * string) -> string) (P : Provider)
    (pool_id : Z) (w : World) :
  other_entries pool_id (snd (check_instance_pool median handle_tags P pool_id w))
  = other_entries pool_id w /\
  other_pools pool_id (snd (check_instance_pool median handle_tags P pool_id w))
  = other_pools pool_id w /\
  map pool_pk (db_pools (snd (check_instance_pool median handle_tags P pool_id w)))
  = map pool_pk (db_pools w).
Proof.
  destruct (check_instance_pool_writes median handle_tags P pool_id w) as (l & Hl & ->).
  destruct (existsb (Z.eqb pool_id) (locks w)); [repeat split; reflexivity|].
  change (other_entries pool_id (step (SUnlock pool_id) ?x)) with (other_entries pool_id x).
  change (other_pools pool_id (step (SUnlock pool_id) ?x)) with (other_pools pool_id x).
  change (db_pools (step (SUnlock pool_id) ?x)) with (db_pools x).
  rewrite (tick_write_other_entries pool_id l _ Hl).
  destruct (tick_write_other_pools pool_id l (step (SLock pool_id) w) Hl) as [-> ->].
  repeat split; reflexivity.
Qed.

(** X15. A tick never deletes an entry of a critical type: an entry of type
    config-error or unclassified that is in the store before a tick, of
    whatever pool, is in the store after it. *)
Theorem tick_keeps_critical_entries (median : list float -> float)
    (handle_tags : string -> list (string * string) -> string) (P : Provider)
    (pool_id : Z) (w : World) (e : PoolStatusEntry) :
  In e (db_entries w) ->
  critical_type (entry_type e) = true ->
  In e (db_entries (snd (check_instance_pool median handle_tags P pool_id w))).
Proof.
  intros Hin Hcrit.
  destruct (check_instance_pool_writes median handle_tags P pool_id w) as (l & Hl & ->).
  destruct (existsb (Z.eqb pool_id) (locks w)); [exact Hin|].
  change (db_entries (step (SUnlock pool_id) ?x)) with (db_entries x).
  apply (entries_kept (fun x => critical_type (entry_type x))); [|exact Hcrit|exact Hin].
  revert Hl. apply Forall_impl_steps. intros []; simpl; auto.
  intros [_ Ht] x Hx. unfold entry_is. destruct (entry_pool x =? pool); [|reflexivity].
  simpl. apply bool_decide_eq_false. intros E. congruence.
Qed.

Lemma tick_keeps_critical_entries_witness :
  In entry_critical
     (db_entries (snd (check_instance_pool price_median handle_tags_plain
                         (provider_with []) 2 world_two_pools))).
Proof.
  apply (tick_keeps_critical_entries price_median handle_tags_plain
           (provider_with []) 2 world_two_pools entry_critical).
  - simpl. now left.
  - reflexivity.
Defined.

Lemma tick_write_new_entries (pool now0 : Z) (old : list PoolStatusEntry)
    (l : list Step) (w : World) :
  Forall (tick_write pool) l ->
  now w = now0 ->
  Forall (fun e => In e old \/
                   (entry_pool e = pool /\ isCritical e = critical_type (entry_type e) /\
                    entry_created e = now0))
         (db_entries w) ->
  Forall (fun e => In e old \/
                   (entry_pool e = pool /\ isCritical e = critical_type (entry_type e) /\
                    entry_created e = now0))
         (db_entries (steps l w)).
Proof.
  revert w. induction l as [|s l IH]; intros w Hl Hnow Hw; [exact Hw|].
  apply Forall_cons_iff in Hl as [Hs Hl]. rewrite steps_cons. apply (IH _ Hl).
  - rewrite <- Hnow. exact (now_steps [s] w).
  - destruct s; try exact Hw; simpl in Hs |- *.
    + destruct Hs as [-> ->]. apply Forall_app. split; [exact Hw|].
      constructor; [|constructor]. right. simpl. auto.
    + rewrite List.Forall_forall in *. intros x Hx. apply filter_In in Hx as [Hx _]. auto.
Qed.

(** X16. The entries a tick adds: every status entry in the store after a tick
    was there before it, or is an entry of the pool of the tick, made at
    the time of the tick, that is critical if and only if its type is
    config-error or unclassified. *)
Theorem tick_new_entries (median : list float -> float)
    (handle_tags : string -> list (string * string) -> string) (P : Provider)
    (pool_id : Z) (w : World) :
  Forall (fun e => In e (db_entries w) \/
                   (entry_pool e = pool_id /\
                    isCritical e = critical_type (entry_type e) /\
                    entry_created e = now w))
         (db_entries (snd (check_instance_pool median handle_tags P pool_id w))).
Proof.
  destruct (check_instance_pool_writes median handle_tags P pool_id w) as (l & Hl & ->).
  assert (Hold : Forall (fun e => In e (db_entries w) \/
                                  (entry_pool e = pool_id /\
                                   isCritical e = critical_type (entry_type e) /\
                                   entry_created e = now w))
                        (db_entries w)).
  { apply List.Forall_forall. auto. }
  destruct (existsb (Z.eqb pool_id) (locks w)); [exact Hold|].
  change (db_entries (step (SUnlock pool_id) ?x)) with (db_entries x).
  apply (tick_write_new_entries pool_id (now w) (db_entries w) l); auto.
Qed.

(** ** The gates of a tick *)

Lemma with_locks_released (pool_id : Z) (w : World) :
  existsb (Z.eqb pool_id) (locks w) = false ->
  with_locks (List.filter (fun l => negb (l =? pool_id))) (with_locks (cons pool_id) w) = w.
Proof.
  intros Hheld. destruct w. unfold with_locks. simpl in *.
  rewrite Z.eqb_refl. simpl. now rewrite filter_not_held.
Qed.

(** X17. A tick on a pool that has no row raises [DoesNotExist] and leaves the
    world as it was: the lock it took is released. *)
Theorem missing_pool_raises (median : list float -> float)
    (handle_tags : string -> list (string * string) -> string) (P : Provider)
    (pool_id : Z) (w : World) :
  pool_row pool_id w = None ->
  existsb (Z.eqb pool_id) (locks w) = false ->
  check_instance_pool median handle_tags P pool_id w = (Raise DoesNotExist, w).
Proof.
  unfold pool_row. intros Hrow Hheld.
  unfold check_instance_pool, bind, gets. rewrite Hheld.
  unfold modify, try_finally, check_instance_pool_locked, Pool_get, bind, gets.
  cbn [db_pools with_locks].
  destruct (List.filter (fun p => pool_pk p =? pool_id) (db_pools w)); [|discriminate].
  unfold raise. now rewrite with_locks_released.
Qed.

Lemma missing_pool_raises_witness :
  check_instance_pool price_median handle_tags_plain (provider_with []) 7 world_cheap
  = (Raise DoesNotExist, world_cheap).
Proof.
  apply (missing_pool_raises price_median handle_tags_plain (provider_with []) 7 world_cheap);
    reflexivity.
Defined.

Lemma is_frozen_entries (pool : Z) (w : World) (e : PoolStatusEntry) :
  is_frozen pool (with_entries (fun es => es ++ [e]) w)
  = is_frozen pool w || ((entry_pool e =? pool) && isCritical e).
Proof.
  unfold is_frozen. cbn [db_entries with_entries]. rewrite List.filter_app. simpl.
  destruct (List.filter _ (db_entries w)); simpl; [|reflexivity].
  now destruct ((entry_pool e =? pool) && isCritical e).
Qed.

(** X18. A tick on a pool whose configuration is cyclic or lacks a parameter
    writes one critical config-error entry and nothing else: no provider
    is asked. The pool is frozen by it, and the next tick on the pool
    changes nothing. *)
Theorem config_error_freezes (median : list float -> float)
    (handle_tags : string -> list (string * string) -> string) (P : Provider)
    (pool_id : Z) (instance_pool : InstancePool) (w : World) :
  pool_row pool_id w = Some instance_pool ->
  existsb (Z.eqb pool_id) (locks w) = false ->
  is_frozen pool_id w = false ->
  config_isCyclic instance_pool || nonempty (config_getMissingParameters instance_pool)
  = true ->
  check_instance_pool median handle_tags P pool_id w
  = (Ok tt, with_entries (fun es => es ++ [config_error_entry pool_id (now w)]) w) /\
  check_instance_pool median handle_tags P pool_id
    (with_entries (fun es => es ++ [config_error_entry pool_id (now w)]) w)
  = (Ok tt, with_entries (fun es => es ++ [config_error_entry pool_id (now w)]) w).
Proof.
  intros Hrow Hheld Hfrozen Hconfig.
  assert (Hpk : pool_pk instance_pool = pool_id) by exact (pool_row_pk _ _ _ Hrow).
  subst pool_id. set (pool_id := pool_pk instance_pool) in *.
  set (w' := with_entries _ w).
  assert (Hreleased : forall x : World,
             locks x = locks w ->
             with_locks (List.filter (fun l => negb (l =? pool_id)))
                        (with_locks (cons pool_id) x) = x).
  { intros x Hx. apply with_locks_released. now rewrite Hx. }
  split.
  - unfold check_instance_pool, bind, gets. rewrite Hheld.
    unfold modify, try_finally, check_instance_pool_locked, Pool_get, bind, gets.
    cbn [db_pools with_locks]. unfold pool_row in Hrow.
    destruct (List.filter (fun p => pool_pk p =? pool_id) (db_pools w)) as [|p rest];
      [discriminate|].
    injection Hrow as ->. unfold ret, Entry_filter_critical, gets.
    change (db_entries (with_locks (cons pool_id) w)) with (db_entries w).
    unfold is_frozen in Hfrozen. fold pool_id. rewrite Hfrozen, Hconfig.
    unfold Entry_create, modify. cbn [now]. f_equal.
    subst w'. destruct w. unfold with_locks, with_entries, config_error_entry. simpl in *.
    rewrite Z.eqb_refl. simpl. now rewrite filter_not_held.
  - assert (Hfrozen' : is_frozen (pool_pk instance_pool) (with_locks (cons pool_id) w') = true).
    { fold pool_id. subst w'. unfold is_frozen. cbn [db_entries with_locks with_entries].
      rewrite List.filter_app. simpl. rewrite Z.eqb_refl. simpl.
      now destruct (List.filter _ (db_entries w)). }
    unfold check_instance_pool, bind, gets.
    replace (locks w') with (locks w) by reflexivity. rewrite Hheld.
    unfold modify, try_finally.
    rewrite (frozen_pool_locked median handle_tags P pool_id instance_pool
               (with_locks (cons pool_id) w') Hrow Hfrozen').
    now rewrite Hreleased.
Qed.

Lemma config_error_freezes_witness :
  check_instance_pool price_median handle_tags_plain (provider_with []) 1 world_incomplete
  = (Ok tt, with_entries (fun es => es ++ [config_error_entry 1 (now world_incomplete)])
              world_incomplete) /\
  check_instance_pool price_median handle_tags_plain (provider_with []) 1
    (with_entries (fun es => es ++ [config_error_entry 1 (now world_incomplete)])
       world_incomplete)
  = (Ok tt, with_entries (fun es => es ++ [config_error_entry 1 (now world_incomplete)])
              world_incomplete).
Proof.
  apply (config_error_freezes price_median handle_tags_plain (provider_with []) 1
           pool_incomplete world_incomplete); reflexivity.
Defined.

(** ** The refresh of a pool without instances *)

(** X19. The refresh of a pool that stores no instance asks the provider
    nothing and changes nothing: it runs to its end, and only its entry is
    recorded. *)
Theorem update_without_instances (P : Provider) (pool : InstancePool) (config : Config)
    (w : World) :
  List.filter (fun i => inst_pool i =? pool_pk pool) (db_instances w) = [] ->
  _update_pool_instances P pool config w = (Ok true, emit (EvUpdate (pool_pk pool)) w).
Proof.
  intros Hnone.
  unfold _update_pool_instances, update_regions, Instance_filter_pool, bind, modify, gets.
  cbn [db_instances emit]. rewrite Hnone. reflexivity.
Qed.

Lemma update_without_instances_witness :
  _update_pool_instances (provider_with []) pool_eight config_eight world_cheap
  = (Ok true, emit (EvUpdate (pool_pk pool_eight)) world_cheap).
Proof.
  apply (update_without_instances (provider_with []) pool_eight config_eight world_cheap).
  reflexivity.
Defined.

(** ** Provider errors that freeze a pool *)

(** X20. The report of a provider error freezes the pool only when the error
    is unclassified: a pool is frozen after the report if it was before,
    or if the message of the error names neither an exceeded spot
    instance count nor an unavailable service. *)
Theorem report_boto_error_freezes (pool : Z) (e : exn) (w : World) :
  is_frozen pool (snd (report_boto_error pool e w))
  = is_frozen pool w
    || (negb (substring_in "MaxSpotInstanceCountExceeded" (exn_str e))
        && negb (substring_in "Service Unavailable" (exn_str e))).
Proof.
  unfold report_boto_error.
  destruct (substring_in "MaxSpotInstanceCountExceeded" (exn_str e)).
  - unfold bind, Entry_filter_type, gets. cbn [negb andb].
    destruct (nonempty _); cbn [snd ret Entry_create modify].
    + now rewrite orb_false_r.
    + unfold Entry_create, modify. cbn [snd]. rewrite is_frozen_entries. simpl.
      now rewrite andb_false_r.
  - destruct (substring_in "Service Unavailable" (exn_str e));
      unfold Entry_create, modify; cbn [snd negb andb]; rewrite is_frozen_entries; simpl.
    + now rewrite andb_false_r.
    + now rewrite Z.eqb_refl.
Qed.

(** ** The count of the cores *)

Lemma count_instance_counted (instance : Instance) (L : CountLocals) (w : World)
    (size : Z) :
  instance_cores_missing L = size - total_size (running_instances L) ->
  Forall (fun i => is_active i = true) (running_instances L) ->
  exists L' w',
    count_instance instance L w = (Ok L', w') /\
    instance_cores_missing L' = size - total_size (running_instances L') /\
    Forall (fun i => is_active i = true) (running_instances L').
Proof.
  intros Hsum Hactive. unfold count_instance.
  set (i1 := if 256 <=? status_code instance
             then set_status_code instance (status_code instance - 256)
             else instance).
  assert (Hsize : inst_size i1 = inst_size instance)
    by (subst i1; now destruct (256 <=? status_code instance)).
  destruct (existsb (Z.eqb (status_code i1))
              [INSTANCE_STATE_running; INSTANCE_STATE_pending; INSTANCE_STATE_requested])
    eqn:Hrun.
  - eexists _, _. split; [reflexivity|]. cbn [instance_cores_missing running_instances].
    split.
    + rewrite total_size_snoc. lia.
    + apply Forall_app. split; [exact Hactive|]. constructor; [|constructor].
      unfold is_active. simpl in Hrun |- *.
      destruct (status_code i1 =? INSTANCE_STATE_requested),
               (status_code i1 =? INSTANCE_STATE_pending),
               (status_code i1 =? INSTANCE_STATE_running); auto.
  - destruct (existsb (Z.eqb (status_code i1))
                [INSTANCE_STATE_shutting_down; INSTANCE_STATE_terminated]).
    + eexists _, _. split; [reflexivity|]. auto.
    + eexists _, _. split; [reflexivity|].
      cbn [instance_cores_missing running_instances]. split.
      * rewrite total_size_snoc. cbn [inst_size set_status_code].
        destruct (256 <=? status_code instance); cbn [inst_size set_status_code]; lia.
      * apply Forall_app. split; [exact Hactive|]. constructor; [|constructor].
        reflexivity.
Qed.

(** X21. The count of the cores never fails, and it counts what it keeps: the
    cores missing after it are the size of the pool less the sizes of the
    instances it lists as running, and every instance listed is requested,
    pending or running, an instance of an unknown status code being listed
    as pending. *)
Theorem count_cores_missing (instances : list Instance) (size : Z) (w : World) :
  exists L w',
    for_fold instances count_instance (mkCount size []) w = (Ok L, w') /\
    instance_cores_missing L = size - total_size (running_instances L) /\
    Forall (fun i => is_active i = true) (running_instances L).
Proof.
  assert (Hgen : forall L0 w0,
             instance_cores_missing L0 = size - total_size (running_instances L0) ->
             Forall (fun i => is_active i = true) (running_instances L0) ->
             exists L w',
               for_fold instances count_instance L0 w0 = (Ok L, w') /\
               instance_cores_missing L = size - total_size (running_instances L) /\
               Forall (fun i => is_active i = true) (running_instances L)).
  { induction instances as [|instance rest IH]; intros L0 w0 Hsum Hactive.
    - exists L0, w0. auto.
    - destruct (count_instance_counted instance L0 w0 size Hsum Hactive)
        as (L1 & w1 & Hrun & Hsum1 & Hactive1).
      destruct (IH L1 w1 Hsum1 Hactive1) as (L & w' & Hrest & Hsum' & Hactive').
      exists L, w'. split; [|auto]. simpl. unfold bind. now rewrite Hrun. }
  apply Hgen; [simpl; lia|constructor].
Qed.

(** ** A pool that is disabled *)

Lemma disabled_locked (median : list float -> float)
    (handle_tags : string -> list (string * string) -> string) (P : Provider)
    (pool_id : Z) (instance_pool : InstancePool) (counted : CountLocals) (w w1 : World) :
  pool_row pool_id w = Some instance_pool ->
  is_frozen (pool_pk instance_pool) w = false ->
  config_isCyclic instance_pool = false ->
  config_getMissingParameters instance_pool = [] ->
  isEnabled instance_pool = false ->
  count_pool P instance_pool (config_flatten instance_pool) w = (Ok counted, w1) ->
  check_instance_pool_locked median handle_tags P pool_id w
  = (if nonempty (running_instances counted)
     then _terminate_pool_instances P instance_pool (running_instances counted) true
     else ret tt) w1.
Proof.
  unfold pool_row, is_frozen. intros Hrow Hfrozen Hcyclic Hmissing Henabled Hcount.
  unfold check_instance_pool_locked, Pool_get. unfold bind at 1. unfold bind at 1.
  unfold gets at 1.
  destruct (List.filter (fun p => pool_pk p =? pool_id) (db_pools w)) as [|p rest];
    [discriminate|].
  injection Hrow as ->. unfold ret at 1. unfold bind at 1.
  unfold Entry_filter_critical, gets at 1. rewrite Hfrozen, Hcyclic, Hmissing.
  cbn [orb nonempty]. unfold bind at 1. rewrite Hcount, Henabled. reflexivity.
Qed.

(** X22. A tick on a disabled pool, not frozen and of a sound configuration,
    never scales up and never cycles: after the refresh and the count it
    enters the termination of all counted instances by pool when there are
    some, and does nothing more when there are none; scale-up is not
    entered, and the row of the pool, with its [last_cycled], stays as it
    was. *)
Theorem disabled_pool_terminates (median : list float -> float)
    (handle_tags : string -> list (string * string) -> string) (P : Provider)
    (pool_id : Z) (instance_pool : InstancePool) (counted : CountLocals) (w : World) :
  pool_row pool_id w = Some instance_pool ->
  existsb (Z.eqb pool_id) (locks w) = false ->
  is_frozen (pool_pk instance_pool) w = false ->
  config_isCyclic instance_pool = false ->
  config_getMissingParameters instance_pool = [] ->
  isEnabled instance_pool = false ->
  fst (count_pool P instance_pool (config_flatten instance_pool)
         (with_locks (cons pool_id) w)) = Ok counted ->
  exists t,
    trace (snd (check_instance_pool median handle_tags P pool_id w))
    = trace (snd (count_pool P instance_pool (config_flatten instance_pool)
                    (with_locks (cons pool_id) w)))
      ++ (if nonempty (running_instances counted)
          then EvTerminate pool_id (running_instances counted) true :: t
          else []) /\
    existsb is_start_event t = false /\
    db_pools (snd (check_instance_pool median handle_tags P pool_id w)) = db_pools w.
Proof.
  intros Hrow Hheld Hfrozen Hcyclic Hmissing Henabled Hcount.
  set (wl := with_locks (cons pool_id) w) in *.
  destruct (count_pool P instance_pool (config_flatten instance_pool) wl)
    as [rc w1] eqn:Hcp.
  simpl in Hcount. subst rc. cbn [snd].
  assert (Hpk : pool_pk instance_pool = pool_id) by exact (pool_row_pk _ _ _ Hrow).
  destruct (count_pool_effects P instance_pool (config_flatten instance_pool) wl)
    as (lc & Hw1 & lc' & -> & Hdata).
  rewrite Hcp in Hw1. cbn [snd fst] in Hw1.
  assert (Hpools : db_pools w1 = db_pools w).
  { rewrite Hw1. rewrite is_data_pools; [reflexivity|]. constructor; [exact I|exact Hdata]. }
  assert (Htick : check_instance_pool median handle_tags P pool_id w
                  = try_finally
                      (if nonempty (running_instances counted)
                       then _terminate_pool_instances P instance_pool
                              (running_instances counted) true
                       else ret tt)
                      (with_locks (List.filter (fun l => negb (l =? pool_id)))) w1).
  { unfold check_instance_pool. unfold bind at 1. unfold gets at 1. rewrite Hheld.
    unfold bind at 1. unfold modify at 1. fold wl. unfold try_finally.
    now rewrite (disabled_locked median handle_tags P pool_id instance_pool counted wl w1). }
  rewrite Htick. clear Htick. unfold try_finally.
  destruct (nonempty (running_instances counted)).
  - destruct (terminate_pool_instances_effects P instance_pool (running_instances counted)
                true w1) as (l & Hw & l' & -> & Hl').
    rewrite Hpk in Hw.
    destruct (_terminate_pool_instances P instance_pool (running_instances counted) true w1)
      as [r w'] eqn:Hrun.
    cbn [fst snd] in *. subst w'.
    exists (events l' (calls w1)). split; [|split].
    + unfold with_locks. cbn [trace]. now rewrite trace_steps.
    + rewrite events_start. now apply is_start_no_start, is_report_start.
    + unfold with_locks. cbn [db_pools]. rewrite is_data_pools; [exact Hpools|].
      constructor; [exact I|now apply is_report_data].
  - exists []. cbn [ret snd]. split; [|split].
    + unfold with_locks. cbn [trace]. now rewrite app_nil_r.
    + reflexivity.
    + exact Hpools.
Qed.

Lemma disabled_pool_terminates_witness :
  exists t,
    trace (snd (check_instance_pool price_median handle_tags_plain
                  (provider_with [boto_running "i-1" "host-1"]) 1 world_disabled))
    = trace (snd (count_pool (provider_with [boto_running "i-1" "host-1"]) pool_disabled
                    (config_flatten pool_disabled) (with_locks (cons 1) world_disabled)))
      ++ (if nonempty (running_instances (mkCount 4 [instance_running]))
          then EvTerminate 1 (running_instances (mkCount 4 [instance_running])) true :: t
          else []) /\
    existsb is_start_event t = false /\
    db_pools (snd (check_instance_pool price_median handle_tags_plain
                     (provider_with [boto_running "i-1" "host-1"]) 1 world_disabled))
    = db_pools world_disabled.
Proof.
  apply (disabled_pool_terminates price_median handle_tags_plain
           (provider_with [boto_running "i-1" "host-1"]) 1 pool_disabled
           (mkCount 4 [instance_running]) world_disabled);
    vm_compute; reflexivity.
Defined.

(** ** What a termination leaves alone *)

Lemma is_call_steps (l : list Step) (w : World) :
  Forall (fun s => is_call s = true) l ->
  db_instances (steps l w) = db_instances w /\
  db_entries (steps l w) = db_entries w /\
  db_pools (steps l w) = db_pools w /\
  redis (steps l w) = redis w /\
  now (steps l w) = now w.
Proof.
  revert w. induction l as [|s l IH]; intros w Hl; [repeat split|].
  apply Forall_cons_iff in Hl as [Hs Hl]. rewrite steps_cons.
  destruct (IH (step s w) Hl) as (-> & -> & -> & -> & ->).
  destruct s; try discriminate Hs. repeat split.
Qed.

(** A connection is made, or its failure is reported in one entry. *)
Lemma connect_or_report_calls (P : Provider) (pool : Z) (region : string) :
  effects (connect_or_report P pool region)
          (fun r l => (r = Ok true /\ l = [SCall (Pconnect region)]) \/
                      (r = Ok false /\
                       exists msg, l = [SCall (Pconnect region);
                                        SEntryCreate pool unclassified true msg])).
Proof. unfold connect_or_report. eff; cbn [app]; eauto. Qed.

(** The writes of a termination: its entry, calls to the provider, and at
    most one entry at the end, when a connection failed. *)
Lemma terminate_pool_instances_calls (P : Provider) (pool : InstancePool)
    (instances : list Instance) (terminateByPool : bool) :
  effects (_terminate_pool_instances P pool instances terminateByPool)
          (fun _ l => exists cs es,
                        l = SEmit (EvTerminate (pool_pk pool) instances terminateByPool)
                            :: cs ++ es /\
                        Forall (fun s => is_call s = true) cs /\
                        (es = [] \/
                         exists msg, es = [SEntryCreate (pool_pk pool) unclassified true msg])).
Proof.
  unfold _terminate_pool_instances. apply effects_bind.
  apply (effects_modify _ (SEmit (EvTerminate (pool_pk pool) instances terminateByPool)));
    [reflexivity|].
  cbv beta iota zeta. apply effects_bind.
  set (Q := fun l : list Step =>
              exists cs es,
                l = cs ++ es /\ Forall (fun s => is_call s = true) cs /\
                (es = [] \/
                 exists msg, es = [SEntryCreate (pool_pk pool) unclassified true msg])).
  assert (Hcalls : forall cs, Forall (fun s => is_call s = true) cs -> Q cs).
  { intros cs Hcs. exists cs, []. rewrite app_nil_r. auto. }
  apply effects_conseq with (Q := fun _ l => Q l).
  - apply effects_for_each with (J := fun _ l => Forall (fun s => is_call s = true) l).
    + constructor.
    + intros region [] l1 HJ. unfold terminate_region. apply effects_bind.
      eff_use connect_or_report_calls.
      destruct H as [[-> ->]|(-> & msg & ->)]; cbn [negb].
      * eff; try apply Hcalls; cbn [app];
          repeat first [ exact HJ | apply Forall_app_intro
                       | apply Forall_cons_intro; [reflexivity|]
                       | apply List.Forall_nil ].
      * apply effects_ret.
        exists (l1 ++ [SCall (Pconnect region)]),
               [SEntryCreate (pool_pk pool) unclassified true msg].
        split; [now rewrite <- !app_assoc|]. split; [|right; eauto].
        apply Forall_app_intro; [exact HJ|]. repeat constructor.
    + intros [] l1 HJ. now apply Hcalls.
  - intros r l (cs & es & -> & Hcs & Hes).
    destruct r; cbv beta iota; [apply effects_ret|]; exists cs, es;
      (split; [simpl; now rewrite ?app_nil_r|auto]).
Qed.

(** X23. A termination changes no instance row, no pool and no cache key: it
    asks the provider, and the rows go when a later refresh no longer finds
    them. Of the status entries it leaves all and adds at most one, a
    critical unclassified entry of the pool, when a connection failed. *)
Theorem terminate_keeps_store (P : Provider) (pool : InstancePool)
    (instances : list Instance) (terminateByPool : bool) (w : World) :
  db_instances (snd (_terminate_pool_instances P pool instances terminateByPool w))
  = db_instances w /\
  db_pools (snd (_terminate_pool_instances P pool instances terminateByPool w))
  = db_pools w /\
  redis (snd (_terminate_pool_instances P pool instances terminateByPool w)) = redis w /\
  (db_entries (snd (_terminate_pool_instances P pool instances terminateByPool w))
   = db_entries w \/
   exists msg,
     db_entries (snd (_terminate_pool_instances P pool instances terminateByPool w))
     = db_entries w ++ [mkEntry (pool_pk pool) unclassified true msg (now w)]).
Proof.
  destruct (terminate_pool_instances_calls P pool instances terminateByPool w)
    as (l & -> & cs & es & -> & Hcs & Hes).
  rewrite steps_cons, steps_app.
  destruct (is_call_steps cs (step (SEmit (EvTerminate (pool_pk pool) instances
                                             terminateByPool)) w) Hcs)
    as (Hi & He & Hp & Hr & Hn).
  set (w0 := step (SEmit (EvTerminate (pool_pk pool) instances terminateByPool)) w) in *.
  destruct Hes as [->|(msg & ->)].
  - change (steps [] (steps cs w0)) with (steps cs w0). rewrite Hi, He, Hp, Hr.
    repeat split. now left.
  - change (steps [SEntryCreate (pool_pk pool) unclassified true msg] (steps cs w0))
      with (with_entries
              (fun es => es ++ [mkEntry (pool_pk pool) unclassified true msg
                                        (now (steps cs w0))])
              (steps cs w0)).
    cbn [with_entries db_instances db_pools redis db_entries].
    rewrite Hi, He, Hp, Hr, Hn. repeat split. right. exists msg. reflexivity.
Qed.

(** ** The image of a region *)

Lemma ami_cached_lookup (P : Provider) (pool : Z) (region name : string)
    (images : list (string * string)) (v : CacheValue) (w : World) :
  connect P (calls w) region = Ok tt ->
  dict_get images "image_name" = Some name ->
  cache_get (redis w) (ami_key region name) = Some v ->
  connect_and_resolve P pool region images w
  = (Ok (Some (dict_del (dict_set images "image_id" (cache_text v)) "image_name")),
     step (SCall (Pconnect region)) w).
Proof.
  intros Hconnect Hname Hcached.
  unfold connect_and_resolve, try_except, bind, provider_call, of_option, gets.
  rewrite Hconnect, Hname. cbn [ret redis]. rewrite Hcached. reflexivity.
Qed.

(** X24. When the image of a region is in the cache, a scale-up connects and
    asks the provider nothing else: the image is taken from the cache,
    which stays as it is. *)
Theorem ami_cached_is_used (P : Provider) (pool : Z) (region name : string)
    (images : list (string * string)) (v : CacheValue) (w : World) :
  connect P (calls w) region = Ok tt ->
  dict_get images "image_name" = Some name ->
  cache_get (redis w) (ami_key region name) = Some v ->
  connect_and_resolve P pool region images w
  = (Ok (Some (dict_del (dict_set images "image_id" (cache_text v)) "image_name")),
     step (SCall (Pconnect region)) w).
Proof. exact (ami_cached_lookup P pool region name images v w). Qed.

(** X25. When the image of a region is not in the cache, a scale-up asks the
    provider for it once and keeps the answer for a day; a scale-up in the
    same region with the same image name then finds it in the cache and
    only connects. *)
Theorem ami_resolved_is_cached (P : Provider) (pool : Z) (region name ami : string)
    (images : list (string * string)) (w : World) :
  connect P (calls w) region = Ok tt ->
  dict_get images "image_name" = Some name ->
  cache_get (redis w) (ami_key region name) = None ->
  resolve_image_name P (Datatypes.S (calls w)) region name = Ok ami ->
  connect_and_resolve P pool region images w
  = (Ok (Some (dict_del (dict_set images "image_id" ami) "image_name")),
     steps [SCall (Pconnect region); SCall (Presolve_image_name region name);
            SCacheSet (ami_key region name) (CBytes ami) (Some (24 * 3600))] w) /\
  forall pool' images',
    dict_get images' "image_name" = Some name ->
    connect P (Datatypes.S (Datatypes.S (calls w))) region = Ok tt ->
    connect_and_resolve P pool' region images'
      (snd (connect_and_resolve P pool region images w))
    = (Ok (Some (dict_del (dict_set images' "image_id" ami) "image_name")),
       step (SCall (Pconnect region)) (snd (connect_and_resolve P pool region images w))).
Proof.
  intros Hconnect Hname Hcached Hresolve.
  assert (Hrun : connect_and_resolve P pool region images w
                 = (Ok (Some (dict_del (dict_set images "image_id" ami) "image_name")),
                    steps [SCall (Pconnect region); SCall (Presolve_image_name region name);
                           SCacheSet (ami_key region name) (CBytes ami)
                                     (Some (24 * 3600))] w)).
  { unfold connect_and_resolve, try_except, bind, provider_call, of_option, gets.
    rewrite Hconnect, Hname. cbn [ret redis]. rewrite Hcached. cbn [calls].
    rewrite Hresolve. reflexivity. }
  split; [exact Hrun|]. intros pool' images' Hname' Hconnect'.
  rewrite Hrun. cbn [snd].
  apply (ami_cached_lookup P pool' region name images' (CBytes ami)).
  - exact Hconnect'.
  - exact Hname'.
  - change (redis (steps [SCall (Pconnect region); SCall (Presolve_image_name region name);
                          SCacheSet (ami_key region name) (CBytes ami) (Some (24 * 3600))] w))
      with (cache_set (redis w) (ami_key region name) (CBytes ami) (Some (24 * 3600))).
    unfold cache_get, cache_set.
    now rewrite (lookup_insert_eq (redis w : gmap string (CacheValue * option Z))).
Qed.

Lemma ami_cached_is_used_witness :
  connect_and_resolve (provider_with []) 1 "us-east-1"
    (_create_laniakea_images config_eight) world_ami
  = (Ok (Some (dict_del (dict_set (_create_laniakea_images config_eight)
                                  "image_id" (cache_text (CBytes "ami-7")))
                        "image_name")),
     step (SCall (Pconnect "us-east-1")) world_ami).
Proof.
  apply (ami_cached_is_used (provider_with []) 1 "us-east-1" "image"
           (_create_laniakea_images config_eight) (CBytes "ami-7") world_ami);
    vm_compute; reflexivity.
Defined.

Lemma ami_resolved_is_cached_witness :
  connect_and_resolve (provider_with []) 1 "us-east-1"
    (_create_laniakea_images config_eight) world_cheap
  = (Ok (Some (dict_del (dict_set (_create_laniakea_images config_eight) "image_id" "ami-1")
                        "image_name")),
     steps [SCall (Pconnect "us-east-1"); SCall (Presolve_image_name "us-east-1" "image");
            SCacheSet (ami_key "us-east-1" "image") (CBytes "ami-1") (Some (24 * 3600))]
           world_cheap) /\
  forall pool' images',
    dict_get images' "image_name" = Some "image" ->
    connect (provider_with []) (Datatypes.S (Datatypes.S (calls world_cheap))) "us-east-1"
    = Ok tt ->
    connect_and_resolve (provider_with []) pool' "us-east-1" images'
      (snd (connect_and_resolve (provider_with []) 1 "us-east-1"
              (_create_laniakea_images config_eight) world_cheap))
    = (Ok (Some (dict_del (dict_set images' "image_id" "ami-1") "image_name")),
       step (SCall (Pconnect "us-east-1"))
            (snd (connect_and_resolve (provider_with []) 1 "us-east-1"
                    (_create_laniakea_images config_eight) world_cheap))).
Proof.
  apply (ami_resolved_is_cached (provider_with []) 1 "us-east-1" "image" "ami-1"
           (_create_laniakea_images config_eight) world_cheap);
    vm_compute; reflexivity.
Defined.

(** ** The blacklist of zones and types *)

Lemma select_zone_blacklisted (median : list float -> float) config cache instance_type region zone
    series st st' z t :
  cache_get cache (blacklist_key z t) <> None ->
  ~ (best_zone st = Some z /\ best_type st = Some t) ->
  select_zone median config cache instance_type region zone series st = Ok st' ->
  ~ (best_zone st' = Some z /\ best_type st' = Some t).
Proof.
  unfold select_zone. intros Hbl Hst H.
  destruct (cache_get cache (blacklist_key zone instance_type)) eqn:Hkey;
    [injection H as <-; exact Hst|].
  destruct (prices_per_core instance_type series) as [[|p0 ps]|e]; try discriminate.
  destruct ((ec2_max_price config <? p0)%float); [injection H as <-; exact Hst|].
  destruct (match best_median st with
            | Some bm => (median (p0 :: ps) <? bm)%float
            | None => true
            end); injection H as <-; [|exact Hst].
  simpl. intros [Hz Ht]. injection Hz as ->. injection Ht as ->. contradiction.
Qed.

Lemma select_zones_blacklisted (median : list float -> float) config cache instance_type region
    zones st st' z t :
  cache_get cache (blacklist_key z t) <> None ->
  ~ (best_zone st = Some z /\ best_type st = Some t) ->
  select_zones median config cache instance_type region zones st = Ok st' ->
  ~ (best_zone st' = Some z /\ best_type st' = Some t).
Proof.
  intros Hbl. revert st. induction zones as [|[zone series] rest IH]; intros st Hst H;
    simpl in H.
  - injection H as <-. exact Hst.
  - destruct (select_zone median config cache instance_type region zone series st)
      as [st1|e] eqn:H1; [|discriminate].
    apply (IH st1); [|exact H]. exact (select_zone_blacklisted _ _ _ _ _ _ _ _ _ _ _ Hbl Hst H1).
Qed.

Lemma select_regions_blacklisted (median : list float -> float) config cache instance_type data
    st st' z t :
  cache_get cache (blacklist_key z t) <> None ->
  ~ (best_zone st = Some z /\ best_type st = Some t) ->
  select_regions median config cache instance_type data st = Ok st' ->
  ~ (best_zone st' = Some z /\ best_type st' = Some t).
Proof.
  intros Hbl. revert st. induction data as [|[region zones] rest IH]; intros st Hst H;
    simpl in H.
  - injection H as <-. exact Hst.
  - destruct (negb (str_in region (ec2_allowed_regions config))); [now apply (IH st)|].
    destruct (select_zones median config cache instance_type region zones st)
      as [st1|e] eqn:H1; [|discriminate].
    apply (IH st1); [|exact H].
    exact (select_zones_blacklisted _ _ _ _ _ _ _ _ _ _ Hbl Hst H1).
Qed.

Lemma select_types_blacklisted (median : list float -> float) config cache types st st' z t :
  cache_get cache (blacklist_key z t) <> None ->
  ~ (best_zone st = Some z /\ best_type st = Some t) ->
  select_types median config cache types st = Ok st' ->
  ~ (best_zone st' = Some z /\ best_type st' = Some t).
Proof.
  intros Hbl. revert st. induction types as [|t0 rest IH]; intros st Hst H; simpl in H.
  - injection H as <-. exact Hst.
  - destruct (cache_get cache (price_key t0)) as [[data|s]|]; [|discriminate|now apply (IH st)].
    destruct (select_regions median config cache t0 data st) as [st1|e] eqn:H1;
      [|discriminate].
    apply (IH st1); [|exact H].
    exact (select_regions_blacklisted _ _ _ _ _ _ _ _ _ Hbl Hst H1).
Qed.

(** The selector never returns a zone with an instance type that are
    blacklisted together. *)
Lemma best_region_zone_blacklisted (median : list float -> float) config cache z t region rejected :
  cache_get cache (blacklist_key z t) <> None ->
  best_region_zone median config cache <> Ok (region, Some z, Some t, rejected).
Proof.
  unfold best_region_zone. intros Hbl H.
  destruct (select_types median config cache (ec2_instance_types config) Selection_init)
    as [st|e] eqn:Hs; [|discriminate].
  injection H as _ Hz Ht _.
  apply (select_types_blacklisted median config cache _ _ _ z t Hbl) in Hs; [tauto|].
  simpl. intros [Hz0 _]. discriminate Hz0.
Qed.

(** X26. A spot request that the provider reports as cancelled or closed is
    taken out of the store, and its zone is blacklisted for its instance
    type for twelve hours: with the cache the refresh leaves, the selector
    of a scale-up returns this zone with this type for no configuration. *)
Theorem cancelled_request_is_blacklisted (median : list float -> float) (P : Provider)
    (pool : InstancePool) (region req_id state status launch_type : string)
    (L : UpdateLocals) (inst : Instance) (w : World) :
  dict_get (instances_by_ids L) req_id = Some inst ->
  str_in state ["cancelled"; "closed"] = true ->
  fst (update_spot_result P pool region
         (req_id, SpotInstanceRequest state status launch_type) L w) = Ok L /\
  redis (snd (update_spot_result P pool region
                (req_id, SpotInstanceRequest state status launch_type) L w))
    !! blacklist_key (ec2_zone inst) launch_type = Some (CBytes "", Some (12 * 3600)) /\
  db_instances (snd (update_spot_result P pool region
                       (req_id, SpotInstanceRequest state status launch_type) L w))
  = List.filter (fun r => negb (same_pk inst r)) (db_instances w) /\
  forall config region' rejected,
    best_region_zone median config
      (redis (snd (update_spot_result P pool region
                     (req_id, SpotInstanceRequest state status launch_type) L w)))
    <> Ok (region', Some (ec2_zone inst), Some launch_type, rejected).
Proof.
  intros Hinst Hstate.
  assert (Hrun : update_spot_result P pool region
                   (req_id, SpotInstanceRequest state status launch_type) L w
                 = (Ok L,
                    steps [SCacheSet (blacklist_key (ec2_zone inst) launch_type)
                                     (CBytes "") (Some (12 * 3600));
                           SInstanceDelete inst] w)).
  { unfold update_spot_result, bind, of_option. rewrite Hinst. cbn [ret].
    rewrite Hstate. reflexivity. }
  rewrite Hrun. cbn [fst snd].
  change (redis (steps [SCacheSet (blacklist_key (ec2_zone inst) launch_type)
                                  (CBytes "") (Some (12 * 3600));
                        SInstanceDelete inst] w))
    with (cache_set (redis w) (blacklist_key (ec2_zone inst) launch_type)
                    (CBytes "") (Some (12 * 3600))).
  assert (Hkey : cache_set (redis w) (blacklist_key (ec2_zone inst) launch_type)
                   (CBytes "") (Some (12 * 3600))
                 !! blacklist_key (ec2_zone inst) launch_type
                 = Some (CBytes "", Some (12 * 3600))).
  { unfold cache_set.
    now rewrite (lookup_insert_eq (redis w : gmap string (CacheValue * option Z))). }
  repeat split; [exact Hkey|].
  intros config region' rejected. apply best_region_zone_blacklisted.
  unfold cache_get. rewrite Hkey. discriminate.
Qed.

Lemma cancelled_request_is_blacklisted_witness :
  fst (update_spot_result (provider_with []) pool_eight "eu-west-1"
         ("sir-01", SpotInstanceRequest "cancelled" "capacity-not-available" "c4.xlarge")
         (mkLocals [("eu-west-1", ["sir-01"])] [("sir-01", instance_requested)] [] false)
         world_requested)
  = Ok (mkLocals [("eu-west-1", ["sir-01"])] [("sir-01", instance_requested)] [] false) /\
  redis (snd (update_spot_result (provider_with []) pool_eight "eu-west-1"
                ("sir-01", SpotInstanceRequest "cancelled" "capacity-not-available"
                             "c4.xlarge")
                (mkLocals [("eu-west-1", ["sir-01"])] [("sir-01", instance_requested)] []
                          false)
                world_requested))
    !! blacklist_key (ec2_zone instance_requested) "c4.xlarge"
  = Some (CBytes "", Some (12 * 3600)) /\
  db_instances (snd (update_spot_result (provider_with []) pool_eight "eu-west-1"
                       ("sir-01", SpotInstanceRequest "cancelled" "capacity-not-available"
                                    "c4.xlarge")
                       (mkLocals [("eu-west-1", ["sir-01"])] [("sir-01", instance_requested)]
                                 [] false)
                       world_requested))
  = List.filter (fun r => negb (same_pk instance_requested r)) (db_instances world_requested) /\
  forall config region' rejected,
    best_region_zone price_median config
      (redis (snd (update_spot_result (provider_with []) pool_eight "eu-west-1"
                     ("sir-01", SpotInstanceRequest "cancelled" "capacity-not-available"
                                  "c4.xlarge")
                     (mkLocals [("eu-west-1", ["sir-01"])] [("sir-01", instance_requested)]
                               [] false)
                     world_requested)))
    <> Ok (region', Some (ec2_zone instance_requested), Some "c4.xlarge", rejected).
Proof.
  apply (cancelled_request_is_blacklisted price_median (provider_with []) pool_eight
           "eu-west-1" "sir-01" "cancelled" "capacity-not-available" "c4.xlarge"
           (mkLocals [("eu-west-1", ["sir-01"])] [("sir-01", instance_requested)] [] false)
           instance_requested world_requested); reflexivity.
Defined.

(** ** Userdata that does not compile *)

Lemma filter_none_matching {A} (f : A -> bool) (l : list A) :
  List.filter f l = [] -> List.filter (fun x => negb (f x)) l = l.
Proof.
  induction l as [|x l IH]; simpl; [reflexivity|].
  destruct (f x); [discriminate|]. intros H. simpl. now rewrite IH.
Qed.

(** X27. A scale-up whose userdata compiles to nothing, with a region chosen:
    the price-too-low entries of the pool are cleared, one critical
    config-error entry is written, and [RuntimeError] is raised; the
    provider is not asked and no instance is stored. *)
Theorem start_userdata_failure (median : list float -> float)
    (handle_tags : string -> list (string * string) -> string) (P : Provider)
    (pool : InstancePool) (config : Config) (count : Z) (sizes : Sizes)
    (region : string) (zone : option string) (t : string) (rejected : list (string * float))
    (cores : Z) (w : World) :
  filter_sizes (ec2_instance_types config) count (mkSizes [] None []) = Ok sizes ->
  best_region_zone median (set_ec2_instance_types config (eligible_types sizes)) (redis w)
  = Ok (Some region, zone, Some t, rejected) ->
  region <> "" ->
  CORES_PER_INSTANCE !! t = Some cores ->
  (forall macros, handle_tags (ec2_userdata config) macros = "") ->
  fst (_start_pool_instances median handle_tags P pool config count w)
  = Raise (RuntimeError "start_pool_instances: Failed to compile userdata") /\
  calls (snd (_start_pool_instances median handle_tags P pool config count w)) = calls w /\
  db_instances (snd (_start_pool_instances median handle_tags P pool config count w))
  = db_instances w /\
  db_entries (snd (_start_pool_instances median handle_tags P pool config count w))
  = List.filter (fun e => negb (entry_is (pool_pk pool) price_too_low e)) (db_entries w)
    ++ [mkEntry (pool_pk pool) config_error true
                [MStr "Configuration error: Failed to compile userdata"] (now w)].
Proof.
  intros Hsizes Hbest Hregion Hcores Htags.
  unfold _start_pool_instances, bind, modify, of_res, try_except, _get_best_region_zone,
    bind, gets, of_res, of_option, ret.
  rewrite Hsizes. fold (eligible_types sizes). cbn [redis emit].
  rewrite Hbest. cbn [set_ec2_instance_types]. rewrite Hcores.
  unfold Entry_filter_type, gets. cbn [db_entries truthy negb].
  apply String.eqb_neq in Hregion. rewrite Hregion. cbn [negb].
  rewrite Htags. cbn [String.eqb].
  set (w0 := emit (EvStart (pool_pk pool) count) w).
  change (db_entries w) with (db_entries w0). change (db_instances w) with (db_instances w0).
  change (calls w) with (calls w0). change (now w) with (now w0).
  destruct (nonempty (List.filter (entry_is (pool_pk pool) price_too_low) (db_entries w0)))
    eqn:Hlow.
  - unfold Entry_delete_type, Entry_create, modify, raise.
    cbn [fst snd with_entries db_entries db_instances calls now]. auto.
  - unfold Entry_create, modify, raise.
    cbn [fst snd with_entries db_entries db_instances calls now].
    rewrite filter_none_matching; [auto|].
    destruct (List.filter (entry_is (pool_pk pool) price_too_low) (db_entries w0));
      [reflexivity|discriminate Hlow].
Qed.

Lemma start_userdata_failure_witness :
  fst (_start_pool_instances price_median handle_tags_fails (provider_with []) pool_eight
         config_eight 8 world_cheap)
  = Raise (RuntimeError "start_pool_instances: Failed to compile userdata") /\
  calls (snd (_start_pool_instances price_median handle_tags_fails (provider_with [])
                pool_eight config_eight 8 world_cheap)) = calls world_cheap /\
  db_instances (snd (_start_pool_instances price_median handle_tags_fails (provider_with [])
                       pool_eight config_eight 8 world_cheap))
  = db_instances world_cheap /\
  db_entries (snd (_start_pool_instances price_median handle_tags_fails (provider_with [])
                     pool_eight config_eight 8 world_cheap))
  = List.filter (fun e => negb (entry_is (pool_pk pool_eight) price_too_low e))
                (db_entries world_cheap)
    ++ [mkEntry (pool_pk pool_eight) config_error true
                [MStr "Configuration error: Failed to compile userdata"] (now world_cheap)].
Proof.
  apply (start_userdata_failure price_median handle_tags_fails (provider_with []) pool_eight
           config_eight 8 (mkSizes ["c4.large"] (Some 2) ["c4.large"; "c4.xlarge"])
           "us-east-1" (Some "us-east-1a") "c4.xlarge" [] 4 world_cheap).
  - vm_compute. reflexivity.
  - vm_compute. reflexivity.
  - discriminate.
  - vm_compute. reflexivity.
  - reflexivity.
Defined.

(** ** Rules for the world after a task *)

Lemma wp_conseq {A} (m : M A) (Q Q' : res A -> World -> Prop) (w : World) :
  wp m Q w -> (forall r w', Q r w' -> Q' r w') -> wp m Q' w.
Proof. unfold wp. auto. Qed.

Lemma wp_ret {A} (a : A) (Q : res A -> World -> Prop) (w : World) :
  Q (Ok a) w -> wp (ret a) Q w.
Proof. auto. Qed.

Lemma wp_raise {A} (e : exn) (Q : res A -> World -> Prop) (w : World) :
  Q (Raise e) w -> wp (raise e) Q w.
Proof. auto. Qed.

Lemma wp_gets {A} (f : World -> A) (Q : res A -> World -> Prop) (w : World) :
  Q (Ok (f w)) w -> wp (gets f) Q w.
Proof. auto. Qed.

Lemma wp_of_res {A} (r : res A) (Q : res A -> World -> Prop) (w : World) :
  Q r w -> wp (of_res r) Q w.
Proof. auto. Qed.

Lemma wp_of_option {A} (e : exn) (o : option A) (Q : res A -> World -> Prop) (w : World) :
  match o with
  | Some a => Q (Ok a) w
  | None => Q (Raise e) w
  end ->
  wp (of_option e o) Q w.
Proof. destruct o; auto. Qed.

Lemma wp_modify (f : World -> World) (s : Step) (Q : res unit -> World -> Prop) (w : World) :
  (forall w', f w' = step s w') -> Q (Ok tt) (step s w) -> wp (modify f) Q w.
Proof. intros Hf H. unfold wp, modify. simpl. now rewrite Hf. Qed.

Lemma wp_provider_call {A} (c : ProviderCall) (answer : nat -> res A)
    (Q : res A -> World -> Prop) (w : World) :
  Q (answer (calls w)) (step (SCall c) w) -> wp (provider_call c answer) Q w.
Proof. auto. Qed.

Lemma wp_bind {A B} (m : M A) (k : A -> M B) (Q : res B -> World -> Prop) (w : World) :
  wp m (fun r w' => match r with
                    | Ok a => wp (k a) Q w'
                    | Raise e => Q (Raise e) w'
                    end) w ->
  wp (bind m k) Q w.
Proof. unfold wp, bind. now destruct (m w) as [[a|e] w']. Qed.

Lemma wp_try_except {A} (m : M A) (h : exn -> option (M A)) (Q : res A -> World -> Prop)
    (w : World) :
  wp m (fun r w' => match r with
                    | Ok a => Q (Ok a) w'
                    | Raise e => match h e with
                                 | Some k => wp k Q w'
                                 | None => Q (Raise e) w'
                                 end
                    end) w ->
  wp (try_except m h) Q w.
Proof.
  unfold wp, try_except. destruct (m w) as [[a|e] w']; simpl; [auto|].
  now destruct (h e).
Qed.

(** A loop keeps an invariant [J] of its locals and of the world; [E]
    holds of the world in which it raises. *)
Lemma wp_for_fold {X S} (J : S -> World -> Prop) (E : World -> Prop)
    (body : X -> S -> M S) (l : list X) (s0 : S) (Q : res S -> World -> Prop) (w : World) :
  J s0 w ->
  (forall x s w1, In x l -> J s w1 ->
     wp (body x s) (fun r w2 => match r with
                                | Ok s' => J s' w2
                                | Raise _ => E w2
                                end) w1) ->
  (forall s w1, J s w1 -> Q (Ok s) w1) ->
  (forall e w1, E w1 -> Q (Raise e) w1) ->
  wp (for_fold l body s0) Q w.
Proof.
  intros H0 Hbody Hend Hraise. revert s0 w H0.
  induction l as [|x rest IH]; intros s0 w H0; simpl.
  - now apply Hend.
  - apply wp_bind. eapply wp_conseq; [apply Hbody; [now left|exact H0]|].
    intros [s'|e] w2 H; cbv beta iota; [|now apply Hraise].
    apply IH; [|exact H]. intros x' s w1 Hin. apply Hbody. now right.
Qed.

Lemma wp_for_each {X S R} (J : S -> World -> Prop) (E : World -> Prop)
    (body : X -> S -> M (flow S R)) (l : list X) (s0 : S)
    (Q : res (S + R) -> World -> Prop) (w : World) :
  J s0 w ->
  (forall x s w1, In x l -> J s w1 ->
     wp (body x s) (fun r w2 => match r with
                                | Ok (Next s') => J s' w2
                                | Ok (Return _) => E w2
                                | Raise _ => E w2
                                end) w1) ->
  (forall s w1, J s w1 -> Q (Ok (inl s)) w1) ->
  (forall v w1, E w1 -> Q (Ok (inr v)) w1) ->
  (forall e w1, E w1 -> Q (Raise e) w1) ->
  wp (for_each l body s0) Q w.
Proof.
  intros H0 Hbody Hend Hreturn Hraise. revert s0 w H0.
  induction l as [|x rest IH]; intros s0 w H0; simpl.
  - now apply Hend.
  - apply wp_bind. eapply wp_conseq; [apply Hbody; [now left|exact H0]|].
    intros [[s'|v]|e] w2 H; cbv beta iota; [|now apply Hreturn|now apply Hraise].
    apply IH; [|exact H]. intros x' s w1 Hin. apply Hbody. now right.
Qed.

(** One rule, by the shape of the task. *)
Ltac wp_step :=
  lazymatch goal with
  | |- wp (bind _ _) _ _ => apply wp_bind
  | |- wp (ret _) _ _ => apply wp_ret
  | |- wp (raise _) _ _ => apply wp_raise
  | |- wp (gets _) _ _ => apply wp_gets
  | |- wp timezone_now _ _ => apply wp_gets
  | |- wp (Instance_filter_pool _) _ _ => apply wp_gets
  | |- wp (Instance_filter_ec2_id _) _ _ => apply wp_gets
  | |- wp (Entry_filter_type _ _) _ _ => apply wp_gets
  | |- wp (Entry_filter_critical _) _ _ => apply wp_gets
  | |- wp (of_res _) _ _ => apply wp_of_res
  | |- wp (of_option _ _) _ _ => apply wp_of_option
  | |- wp (provider_call _ _) _ _ => apply wp_provider_call
  | |- wp (try_except _ _) _ _ => apply wp_try_except
  | |- wp (Instance_save ?i) _ _ =>
      apply (wp_modify _ (SInstanceSave i)); [reflexivity|]
  | |- wp (Instance_delete ?i) _ _ =>
      apply (wp_modify _ (SInstanceDelete i)); [reflexivity|]
  | |- wp (Instance_create ?p ?i ?r ?z ?c ?s) _ _ =>
      apply (wp_modify _ (SInstanceCreate p i r z c s)); [reflexivity|]
  | |- wp (Entry_create ?p ?t ?c ?m) _ _ =>
      apply (wp_modify _ (SEntryCreate p t c m)); [reflexivity|]
  | |- wp (Entry_delete_type ?p ?t) _ _ =>
      apply (wp_modify _ (SEntryDelete p t)); [reflexivity|]
  | |- wp (Pool_save ?p) _ _ =>
      apply (wp_modify _ (SPoolSave p)); [reflexivity|]
  | |- wp (modify (emit ?e)) _ _ =>
      apply (wp_modify _ (SEmit e)); [reflexivity|]
  | |- wp (modify (with_redis (fun c => cache_set c ?k ?v ?x))) _ _ =>
      apply (wp_modify _ (SCacheSet k v x)); [reflexivity|]
  | |- wp (if ?b then _ else _) _ _ => destruct b eqn:?
  | |- wp (match ?x with _ => _ end) _ _ => destruct x eqn:?
  | |- wp (let (_, _) := ?x in _) _ _ => destruct x eqn:?
  | |- wp (let _ := _ in _) _ _ => cbv zeta
  | |- match (if ?b then _ else _) with _ => _ end => destruct b eqn:?
  | |- match (match ?e with RuntimeError _ => _ | _ => _ end) with _ => _ end =>
      destruct e
  | |- match ?r with Ok _ => _ | Raise _ => _ end => destruct r eqn:?
  | |- match ?o with Some _ => _ | None => _ end => destruct o eqn:?
  end; cbv beta iota.

Ltac wp_run := repeat wp_step.

(** ** The instances of the other pools *)

Lemma own_instance_set_status_code (pool : Z) (others : list Instance) (i : Instance) (c : Z) :
  own_instance pool others i -> own_instance pool others (set_status_code i c).
Proof. auto. Qed.

Lemma own_instance_set_hostname (pool : Z) (others : list Instance) (i : Instance) h :
  own_instance pool others i -> own_instance pool others (set_hostname i h).
Proof. auto. Qed.

Lemma own_instance_set_ec2_instance_id (pool : Z) (others : list Instance) (i : Instance) id :
  own_instance pool others i -> own_instance pool others (set_ec2_instance_id i id).
Proof. auto. Qed.

Lemma other_instances_pks (pool : Z) (rows : list Instance) (r : Instance) :
  In r rows -> inst_pool r <> pool ->
  In (inst_pk r) (map inst_pk (other_instances pool rows)).
Proof.
  intros Hin Hne. apply in_map. apply filter_In. split; [exact Hin|].
  apply negb_true_iff. now apply Z.eqb_neq.
Qed.

(** The refresh and the count write to rows of the pool only. *)
Lemma rows_owned_step (pool : Z) (others : list Instance) (s : Step) (w : World) :
  own_write pool others s -> rows_owned pool others w -> rows_owned pool others (step s w).
Proof.
  intros Hs [Hkept Hown]. destruct s; try (split; [exact Hkept|exact Hown]);
    [| |destruct Hs].
  - (* a row is saved *)
    destruct Hs as [Hpool Hpk]. unfold rows_owned, others_kept in *.
    cbn [step Instance_save modify snd with_instances db_instances].
    assert (Hother : forall r, In r (db_instances w) -> inst_pool r <> pool ->
                               same_pk i r = false).
    { intros r Hin Hne. unfold same_pk. apply Z.eqb_neq. intros E. apply Hpk.
      rewrite E, <- Hkept. now apply other_instances_pks. }
    destruct (existsb (same_pk i) (db_instances w)).
    + split.
      * rewrite <- Hkept. clear Hkept Hown.
        induction (db_instances w) as [|r rows IH]; [reflexivity|]. simpl.
        destruct (Z.eqb_spec (inst_pool r) pool) as [E|Hne]; simpl.
        -- destruct (same_pk i r); simpl.
           ++ rewrite Hpool, Z.eqb_refl. simpl. apply IH. intros r' Hin. apply Hother.
              now right.
           ++ rewrite E, Z.eqb_refl. simpl. apply IH. intros r' Hin. apply Hother.
              now right.
        -- rewrite (Hother r (or_introl eq_refl) Hne). simpl.
           apply Z.eqb_neq in Hne. rewrite Hne. simpl. f_equal.
           apply IH. intros r' Hin. apply Hother. now right.
      * intros r Hin Hr. apply in_map_iff in Hin as (r0 & E & Hin0).
        destruct (same_pk i r0); subst r; [now split|]. now apply Hown.
    + split.
      * unfold other_instances. rewrite List.filter_app. simpl.
        rewrite Hpool, Z.eqb_refl. simpl. rewrite app_nil_r. exact Hkept.
      * intros r Hin Hr. apply in_app_or in Hin as [Hin|[<-|[]]]; [now apply Hown|].
        now split.
  - (* a row is deleted *)
    destruct Hs as [Hpool Hpk]. unfold rows_owned, others_kept in *.
    cbn [step Instance_delete modify snd with_instances db_instances].
    split.
    + rewrite <- Hkept.
      assert (Hother : forall r, In r (db_instances w) -> inst_pool r <> pool ->
                                 same_pk i r = false).
      { intros r Hin Hne. unfold same_pk. apply Z.eqb_neq. intros E. apply Hpk.
        rewrite E, <- Hkept. now apply other_instances_pks. }
      clear Hkept Hown. induction (db_instances w) as [|r rows IH]; [reflexivity|]. simpl.
      destruct (Z.eqb_spec (inst_pool r) pool) as [E|Hne]; simpl.
      * destruct (same_pk i r); simpl.
        -- apply IH. intros r' Hin. apply Hother. now right.
        -- rewrite E, Z.eqb_refl. simpl. apply IH. intros r' Hin. apply Hother.
           now right.
      * rewrite (Hother r (or_introl eq_refl) Hne). simpl.
        apply Z.eqb_neq in Hne. rewrite Hne. simpl. f_equal.
        apply IH. intros r' Hin. apply Hother. now right.
    + intros r Hin Hr. apply filter_In in Hin as [Hin _]. now apply Hown.
Qed.

(** After the count, rows of the pool are made and no row is changed. *)
Lemma others_kept_step (pool : Z) (others : list Instance) (s : Step) (w : World) :
  new_write pool s -> others_kept pool others w -> others_kept pool others (step s w).
Proof.
  intros Hs Hkept. destruct s; try exact Hkept; try (destruct Hs; fail).
  simpl in Hs. subst pool0. unfold others_kept, other_instances in *.
  cbn [step Instance_create modify snd db_instances].
  rewrite List.filter_app. simpl. rewrite Z.eqb_refl. simpl. now rewrite app_nil_r.
Qed.

Lemma rows_owned_kept (pool : Z) (others : list Instance) (w : World) :
  rows_owned pool others w -> others_kept pool others w.
Proof. now intros [H _]. Qed.

(** ** The refresh writes to the rows of its pool *)

Lemma dict_get_Forall {V} (C : V -> Prop) (d : list (string * V)) (k : string) (v : V) :
  Forall C (map snd d) -> dict_get d k = Some v -> C v.
Proof.
  induction d as [|[k0 v0] r IH]; simpl; [discriminate|].
  intros H Hget. apply Forall_cons_iff in H as [H0 Hr].
  destruct (String.eqb k0 k); [now injection Hget as <-|auto].
Qed.

Lemma dict_set_Forall {V} (C : V -> Prop) (d : list (string * V)) (k : string) (v : V) :
  Forall C (map snd d) -> C v -> Forall C (map snd (dict_set d k v)).
Proof.
  intros H Hv. induction d as [|[k0 v0] r IH]; simpl; [now repeat constructor|].
  simpl in H. apply Forall_cons_iff in H as [H0 Hr].
  destruct (String.eqb k0 k); simpl; constructor; auto.
Qed.

Lemma dict_del_Forall {V} (C : V -> Prop) (d : list (string * V)) (k : string) :
  Forall C (map snd d) -> Forall C (map snd (dict_del d k)).
Proof.
  intros H. induction d as [|[k0 v0] r IH]; simpl; [constructor|].
  simpl in H. apply Forall_cons_iff in H as [H0 Hr].
  destruct (String.eqb k0 k); simpl; [exact Hr|constructor; auto].
Qed.

Lemma list_remove_Forall (C : Instance -> Prop) (x : Instance) (l l' : list Instance) :
  Forall C l -> list_remove x l = Ok l' -> Forall C l'.
Proof.
  revert l'. induction l as [|y r IH]; intros l' H Hrm; simpl in Hrm; [discriminate|].
  apply Forall_cons_iff in H as [H0 Hr].
  destruct (same_pk y x); [now injection Hrm as <-|].
  destruct (list_remove x r) as [r'|e]; [|discriminate].
  injection Hrm as <-. constructor; auto.
Qed.

Lemma instances_by_ids_Forall (C : Instance -> Prop) (rows : list Instance) :
  Forall C rows -> Forall C (map snd (_get_instances_by_ids rows)).
Proof.
  unfold _get_instances_by_ids.
  assert (Hgen : forall d, Forall C (map snd d) -> Forall C rows ->
                           Forall C (map snd (fold_left
                                                (fun d instance =>
                                                   dict_set d (ec2_instance_id instance)
                                                            instance) rows d))).
  { induction rows as [|r rows IH]; intros d Hd Hrows; [exact Hd|].
    apply Forall_cons_iff in Hrows as [Hr Hrows]. simpl.
    apply IH; [|exact Hrows]. now apply dict_set_Forall. }
  intros H. apply Hgen; [constructor|exact H].
Qed.

Lemma filter_Forall {A} (C : A -> Prop) (f : A -> bool) (l : list A) :
  Forall C l -> Forall C (List.filter f l).
Proof.
  rewrite !List.Forall_forall. intros H x Hx. apply filter_In in Hx as [Hx _]. auto.
Qed.

Create HintDb own.

#[local] Hint Resolve own_instance_set_status_code own_instance_set_hostname
  own_instance_set_ec2_instance_id dict_set_Forall dict_del_Forall filter_Forall
  instances_by_ids_Forall : own.

(** What is known of the instances taken from the locals. *)
Ltac own_facts :=
  repeat match goal with
         | Hids : Forall (own_instance ?p ?o) (map snd ?d),
           H : dict_get ?d _ = Some ?i |- _ =>
             lazymatch goal with
             | _ : own_instance p o i |- _ => fail
             | _ => pose proof (dict_get_Forall _ _ _ _ Hids H)
             end
         | Hleft : Forall (own_instance ?p ?o) ?l,
           H : list_remove _ ?l = Ok ?l' |- _ =>
             lazymatch goal with
             | _ : Forall (own_instance p o) l' |- _ => fail
             | _ => pose proof (list_remove_Forall _ _ _ _ Hleft H)
             end
         end.

(** The leaves: the world is written by steps on rows of the pool, and
    the locals hold instances of the pool. *)
Ltac own_ok :=
  own_facts;
  repeat match goal with
         | |- _ /\ _ => split
         | |- True => exact I
         | |- rows_owned _ _ (step _ _) =>
             apply rows_owned_step; [solve [cbn; auto with own]|]
         | |- locals_owned _ _ _ =>
             split; cbn [instances_by_ids instances_left]
         end;
  auto with own.

Lemma update_spot_result_owned (P : Provider) (pool : InstancePool)
    (others : list Instance) (region : string) (rr : string * SpotResult)
    (L : UpdateLocals) (w : World) :
  rows_owned (pool_pk pool) others w ->
  locals_owned (pool_pk pool) others L ->
  wp (update_spot_result P pool region rr L)
     (fun r w' => rows_owned (pool_pk pool) others w' /\
                  match r with
                  | Ok L' => locals_owned (pool_pk pool) others L'
                  | Raise _ => True
                  end) w.
Proof.
  intros Hw [Hids Hleft]. unfold update_spot_result. destruct rr as [req_id result].
  wp_run; own_ok.
Qed.

Lemma update_boto_instance_owned (pool : InstancePool) (others : list Instance)
    (region : string) (b : BotoInstance) (L : UpdateLocals) (w : World) :
  rows_owned (pool_pk pool) others w ->
  locals_owned (pool_pk pool) others L ->
  wp (update_boto_instance pool region b L)
     (fun r w' => rows_owned (pool_pk pool) others w' /\
                  match r with
                  | Ok L' => locals_owned (pool_pk pool) others L'
                  | Raise _ => True
                  end) w.
Proof.
  intros Hw [Hids Hleft]. unfold update_boto_instance.
  wp_run; own_ok.
Qed.

Lemma report_boto_error_owned (pool : Z) (others : list Instance) (e : exn) (w : World) :
  rows_owned pool others w ->
  wp (report_boto_error pool e) (fun _ w' => rows_owned pool others w') w.
Proof. intros Hw. unfold report_boto_error. wp_run; own_ok. Qed.

Lemma connect_or_report_owned (P : Provider) (pool : Z) (others : list Instance)
    (region : string) (w : World) :
  rows_owned pool others w ->
  wp (connect_or_report P pool region) (fun _ w' => rows_owned pool others w') w.
Proof. intros Hw. unfold connect_or_report. wp_run; own_ok. Qed.

(** A task that keeps the rows, then the rest. *)
Ltac wp_then lem :=
  apply wp_bind; eapply wp_conseq; [apply lem; eauto|];
  let r := fresh "r" in let w' := fresh "w" in let H := fresh "Hw" in
  intros r w' H; cbv beta iota.

Lemma update_region_owned (P : Provider) (pool : InstancePool) (config : Config)
    (others : list Instance) (region : string) (L : UpdateLocals) (w : World) :
  rows_owned (pool_pk pool) others w ->
  locals_owned (pool_pk pool) others L ->
  wp (update_region P pool config region L)
     (fun r w' => rows_owned (pool_pk pool) others w' /\
                  match r with
                  | Ok (Next L') => locals_owned (pool_pk pool) others L'
                  | _ => True
                  end) w.
Proof.
  intros Hw HL. unfold update_region.
  wp_then connect_or_report_owned. destruct r as [connected|e]; [|now split].
  destruct (negb connected); [now apply wp_ret|].
  apply wp_try_except.
  apply wp_conseq with
    (Q := fun r w' => rows_owned (pool_pk pool) others w' /\
                      match r with
                      | Ok (Next L') => locals_owned (pool_pk pool) others L'
                      | _ => True
                      end).
  - assert (Hloop : forall X (body : X -> UpdateLocals -> M UpdateLocals) l L1 w1
                           (Q : res UpdateLocals -> World -> Prop),
               rows_owned (pool_pk pool) others w1 ->
               locals_owned (pool_pk pool) others L1 ->
               (forall x L2 w2, rows_owned (pool_pk pool) others w2 ->
                                locals_owned (pool_pk pool) others L2 ->
                                wp (body x L2)
                                   (fun r w' => rows_owned (pool_pk pool) others w' /\
                                                match r with
                                                | Ok L' => locals_owned (pool_pk pool) others L'
                                                | Raise _ => True
                                                end) w2) ->
               (forall r w', rows_owned (pool_pk pool) others w' /\
                             match r with
                             | Ok L' => locals_owned (pool_pk pool) others L'
                             | Raise _ => True
                             end -> Q r w') ->
               wp (for_fold l body L1) Q w1).
    { intros X body l L1 w1 Q Hw1 HL1 Hbody HQ.
      apply (wp_for_fold (fun L2 w2 => rows_owned (pool_pk pool) others w2 /\
                                       locals_owned (pool_pk pool) others L2)
                         (rows_owned (pool_pk pool) others)).
      - now split.
      - intros x s w2 _ [Hw2 HL2]. eapply wp_conseq; [now apply Hbody|].
        intros [L'|e] w' [H1 H2]; auto.
      - intros s w2 H. now apply HQ.
      - intros e w2 H. now apply HQ. }
    wp_run; try (own_ok; fail).
    + apply Hloop; [own_ok|exact HL| |].
      * intros [req_id result] L2 w2 Hw2 HL2. now apply update_spot_result_owned.
      * intros [L2|e] w2 [Hw2 HL2]; [|now split]. wp_run; [|own_ok].
        apply Hloop; [own_ok|exact HL2| |].
        -- intros b L3 w3 Hw3 HL3. now apply update_boto_instance_owned.
        -- intros [L3|e] w3 [Hw3 HL3]; [|now split]. now apply wp_ret.
    + apply Hloop; [own_ok|exact HL| |].
      * intros b L3 w3 Hw3 HL3. now apply update_boto_instance_owned.
      * intros [L3|e] w3 [Hw3 HL3]; [|now split]. now apply wp_ret.
  - intros [[L'|[]]|e] w' [Hw' HL']; cbv beta iota; [now split|now split|].
    destruct (is_boto_error e); [|now split].
    wp_then report_boto_error_owned. destruct r; [now apply wp_ret|now split].
Qed.

Lemma pool_rows_owned (pool : Z) (others : list Instance) (w : World) :
  rows_owned pool others w ->
  Forall (own_instance pool others)
         (List.filter (fun i => inst_pool i =? pool) (db_instances w)).
Proof.
  intros [_ Hown]. apply List.Forall_forall. intros r Hr.
  apply filter_In in Hr as [Hin Hpool]. apply Hown; [exact Hin|]. now apply Z.eqb_eq.
Qed.

Lemma update_regions_owned (P : Provider) (pool : InstancePool) (config : Config)
    (others : list Instance) (w : World) :
  rows_owned (pool_pk pool) others w ->
  wp (update_regions P pool config)
     (fun r w' => rows_owned (pool_pk pool) others w' /\
                  match r with
                  | Ok (inl L) => locals_owned (pool_pk pool) others L
                  | _ => True
                  end) w.
Proof.
  intros Hw. unfold update_regions. apply wp_bind, wp_gets. cbv beta iota zeta.
  pose proof (pool_rows_owned _ _ _ Hw) as Hrows.
  apply (wp_for_each (fun L w' => rows_owned (pool_pk pool) others w' /\
                                  locals_owned (pool_pk pool) others L)
                     (rows_owned (pool_pk pool) others)).
  - split; [exact Hw|]. split; cbn [instances_by_ids instances_left]; auto with own.
  - intros region L w1 _ [Hw1 HL1]. eapply wp_conseq; [apply update_region_owned; eassumption|].
    intros [[L'|[]]|e] w2 [Hw2 HL2]; auto.
  - auto.
  - auto.
  - auto.
Qed.

Lemma update_finish_owned (pool : InstancePool) (others : list Instance)
    (L : UpdateLocals) (w : World) :
  rows_owned (pool_pk pool) others w ->
  locals_owned (pool_pk pool) others L ->
  wp (update_finish pool L) (fun _ w' => rows_owned (pool_pk pool) others w') w.
Proof.
  intros Hw [_ Hleft]. unfold update_finish. apply wp_bind.
  apply (wp_for_fold (fun _ w' => rows_owned (pool_pk pool) others w')
                     (rows_owned (pool_pk pool) others)).
  - exact Hw.
  - intros x [] w1 Hin Hw1. rewrite List.Forall_forall in Hleft.
    wp_run. apply rows_owned_step; [|exact Hw1]. now apply Hleft.
  - intros [] w1 Hw1. wp_run; own_ok.
  - auto.
Qed.

Lemma update_pool_instances_owned (P : Provider) (pool : InstancePool) (config : Config)
    (others : list Instance) (w : World) :
  rows_owned (pool_pk pool) others w ->
  wp (_update_pool_instances P pool config)
     (fun _ w' => rows_owned (pool_pk pool) others w') w.
Proof.
  intros Hw. unfold _update_pool_instances. wp_step. wp_step.
  apply wp_bind. eapply wp_conseq; [apply (update_regions_owned P pool config others); own_ok|].
  intros [[L|[]]|e] w1 [Hw1 HL1]; cbv beta iota; [|now apply wp_ret|exact Hw1].
  wp_then update_finish_owned. destruct r; [now apply wp_ret|exact Hw0].
Qed.

Lemma count_pool_owned (P : Provider) (pool : InstancePool) (config : Config)
    (others : list Instance) (w : World) :
  rows_owned (pool_pk pool) others w ->
  wp (count_pool P pool config) (fun _ w' => rows_owned (pool_pk pool) others w') w.
Proof.
  intros Hw. unfold count_pool. wp_then update_pool_instances_owned.
  destruct r as [_|e]; [|exact Hw0].
  apply wp_bind, wp_gets. cbv beta iota.
  pose proof (pool_rows_owned _ _ _ Hw0) as Hrows. rewrite List.Forall_forall in Hrows.
  apply (wp_for_fold (fun _ w' => rows_owned (pool_pk pool) others w')
                     (rows_owned (pool_pk pool) others)).
  - exact Hw0.
  - intros x L w1 Hin Hw1. apply Hrows in Hin. unfold count_instance.
    cbv zeta. destruct (256 <=? status_code x); wp_run; own_ok.
  - auto.
  - auto.
Qed.

(** ** After the count, rows are made and none is changed *)

Lemma report_boto_error_new (pool : Z) (e : exn) :
  effects (report_boto_error pool e) (fun _ l => Forall (new_write pool) l).
Proof. unfold report_boto_error. eff; writes_ok. Qed.

Lemma connect_or_report_new (P : Provider) (pool : Z) (region : string) :
  effects (connect_or_report P pool region) (fun _ l => Forall (new_write pool) l).
Proof. unfold connect_or_report. eff; writes_ok. Qed.

Lemma terminate_pool_instances_new (P : Provider) (pool : InstancePool)
    (instances : list Instance) (terminateByPool : bool) :
  effects (_terminate_pool_instances P pool instances terminateByPool)
          (fun _ l => Forall (new_write (pool_pk pool)) l).
Proof.
  unfold _terminate_pool_instances. apply effects_bind_all; [eff; writes_ok|]. intros _.
  cbv zeta. apply effects_bind_all; [|intros; apply effects_ret; constructor].
  apply effects_for_each_all. intros region []. unfold terminate_region.
  apply effects_bind_all; [apply connect_or_report_new|]. intros connected.
  destruct connected; cbn [negb]; [|apply effects_ret; constructor].
  eff; writes_ok.
Qed.

Lemma connect_and_resolve_new (P : Provider) (pool : Z) (region : string)
    (images : list (string * string)) :
  effects (connect_and_resolve P pool region images)
          (fun _ l => Forall (new_write pool) l).
Proof. unfold connect_and_resolve. eff; writes_ok. Qed.

Lemma request_spot_instances_new (P : Provider) (pool : InstancePool) (config : Config)
    (region zone instance_type : string) (count cores : Z)
    (images : list (string * string)) :
  effects (request_spot_instances P pool config region zone instance_type count cores images)
          (fun _ l => Forall (new_write (pool_pk pool)) l).
Proof.
  unfold request_spot_instances. apply effects_try_except.
  eapply effects_conseq with (Q := fun _ l => Forall (new_write (pool_pk pool)) l).
  - apply effects_bind_all; [eff; writes_ok|]. intros requests.
    apply effects_for_fold_all. intros. eff; writes_ok.
  - intros [a|e] l H; cbv beta iota; [exact H|].
    destruct (is_boto_error e); [|exact H].
    eff_use report_boto_error_new. writes_ok.
Qed.

Lemma start_pool_instances_new (median : list float -> float)
    (handle_tags : string -> list (string * string) -> string) (P : Provider)
    (pool : InstancePool) (config : Config) (count : Z) :
  effects (_start_pool_instances median handle_tags P pool config count)
          (fun _ l => Forall (new_write (pool_pk pool)) l).
Proof.
  unfold _start_pool_instances, _get_best_region_zone.
  repeat first [ eff_step
               | eff_use connect_and_resolve_new
               | eff_use request_spot_instances_new ];
    writes_ok.
Qed.

Lemma scale_pool_new (median : list float -> float)
    (handle_tags : string -> list (string * string) -> string) (P : Provider)
    (pool : InstancePool) (config : Config) (missing : Z) :
  effects (scale_pool median handle_tags P pool config missing)
          (fun _ l => Forall (new_write (pool_pk pool)) l).
Proof.
  unfold scale_pool. destruct (0 <? missing); [apply start_pool_instances_new|].
  destruct (missing <? 0); [|apply effects_ret; constructor].
  apply effects_bind_all; [eff; writes_ok|]. intros rows. cbv zeta.
  destruct (nonempty _); [|apply effects_ret; constructor].
  apply effects_bind_all; [eff; writes_ok|]. intros _.
  apply terminate_pool_instances_new.
Qed.

Lemma cycle_pool_new (P : Provider) (pool : InstancePool) (config : Config)
    (instances : list Instance) :
  effects (cycle_pool P pool config instances)
          (fun r l => Forall (new_write (pool_pk pool)) l /\
                      match r with
                      | Ok pool' => pool_pk pool' = pool_pk pool
                      | Raise _ => True
                      end).
Proof.
  unfold cycle_pool. apply effects_bind, effects_gets. intros t. cbv beta iota.
  destruct (needs_cycle pool config t); [|apply effects_ret; split; [constructor|reflexivity]].
  apply effects_bind, effects_gets. intros t'. cbv beta iota zeta.
  apply effects_bind.
  eff_use (terminate_pool_instances_new P (set_last_cycled pool (Some t')) instances true).
  change (pool_pk (set_last_cycled pool (Some t'))) with (pool_pk pool) in H.
  destruct r as [[]|e]; [|split; [exact H|exact I]].
  eff. split; [|reflexivity]. writes_ok.
Qed.

(** What is left of a tick when the cores are counted. *)
Lemma after_count_new (median : list float -> float)
    (handle_tags : string -> list (string * string) -> string) (P : Provider)
    (instance_pool : InstancePool) (config : Config) (counted : CountLocals) :
  effects (if negb (isEnabled instance_pool) then
             if nonempty (running_instances counted)
             then _terminate_pool_instances P instance_pool (running_instances counted) true
             else ret tt
           else
             instance_pool' <- cycle_pool P instance_pool config (running_instances counted) ;;
             scale_pool median handle_tags P instance_pool' config
                        (instance_cores_missing counted))
          (fun _ l => Forall (new_write (pool_pk instance_pool)) l).
Proof.
  destruct (isEnabled instance_pool); cbn [negb].
  - apply effects_bind. eff_use cycle_pool_new. destruct H as [Hl Hpk].
    destruct r as [pool'|e]; [|exact Hl].
    eff_use scale_pool_new. rewrite Hpk in H. writes_ok.
  - destruct (nonempty _); [|apply effects_ret; constructor].
    apply terminate_pool_instances_new.
Qed.

Lemma new_write_kept (pool : Z) (others : list Instance) (l : list Step) (w : World) :
  Forall (new_write pool) l -> others_kept pool others w ->
  others_kept pool others (steps l w).
Proof.
  revert w. induction l as [|s l IH]; intros w Hl Hw; [exact Hw|].
  apply Forall_cons_iff in Hl as [Hs Hl]. rewrite steps_cons.
  apply IH; [exact Hl|]. now apply others_kept_step.
Qed.

Lemma effects_new_wp {A} (pool : Z) (others : list Instance) (m : M A) (w : World) :
  effects m (fun _ l => Forall (new_write pool) l) ->
  others_kept pool others w ->
  wp m (fun _ w' => others_kept pool others w') w.
Proof.
  intros Hm Hw. destruct (Hm w) as (l & Hl & Hnew). unfold wp. rewrite Hl.
  now apply new_write_kept.
Qed.

Lemma wp_Pool_get (pk : Z) (Q : res InstancePool -> World -> Prop) (w : World) :
  (forall p, pool_pk p = pk -> Q (Ok p) w) ->
  Q (Raise DoesNotExist) w ->
  wp (Pool_get pk) Q w.
Proof.
  intros Hok Hno. unfold wp, Pool_get, bind, gets.
  destruct (List.filter (fun p => pool_pk p =? pk) (db_pools w)) as [|p rest] eqn:Hf;
    [exact Hno|].
  simpl. apply Hok.
  assert (Hin : In p (List.filter (fun p => pool_pk p =? pk) (db_pools w)))
    by (rewrite Hf; now left).
  apply filter_In in Hin as [_ Hpk]. now apply Z.eqb_eq.
Qed.

Lemma check_instance_pool_locked_kept (median : list float -> float)
    (handle_tags : string -> list (string * string) -> string) (P : Provider)
    (pool_id : Z) (others : list Instance) (w : World) :
  rows_owned pool_id others w ->
  wp (check_instance_pool_locked median handle_tags P pool_id)
     (fun _ w' => others_kept pool_id others w') w.
Proof.
  intros Hw. pose proof (rows_owned_kept _ _ _ Hw) as Hkept.
  unfold check_instance_pool_locked. apply wp_bind, wp_Pool_get; [|exact Hkept].
  intros instance_pool <-. apply wp_bind, wp_gets. cbv beta iota.
  destruct (nonempty _); [now apply wp_ret|].
  destruct (_ || _); [wp_run; exact Hkept|]. cbv zeta.
  wp_then count_pool_owned. destruct r as [counted|e]; [|now apply rows_owned_kept].
  apply effects_new_wp; [apply after_count_new|now apply rows_owned_kept].
Qed.

Lemma unique_key_row (rows : list Instance) (r r' : Instance) :
  NoDup (map inst_pk rows) -> In r rows -> In r' rows -> inst_pk r = inst_pk r' -> r = r'.
Proof.
  induction rows as [|x rows IH]; simpl; [tauto|].
  intros Hnd Hr Hr' E. apply NoDup_cons in Hnd as [Hx Hnd].
  rewrite list_elem_of_In in Hx.
  destruct Hr as [->|Hr], Hr' as [->|Hr']; [reflexivity| | |now apply IH].
  - exfalso. apply Hx. rewrite E. now apply in_map.
  - exfalso. apply Hx. rewrite <- E. now apply in_map.
Qed.

Lemma rows_owned_start (pool : Z) (w : World) :
  NoDup (map inst_pk (db_instances w)) ->
  rows_owned pool (other_instances pool (db_instances w)) w.
Proof.
  intros Hnd. split; [reflexivity|]. intros r Hin Hpool. split; [exact Hpool|].
  intros Hpk. apply in_map_iff in Hpk as (r' & E & Hr').
  apply filter_In in Hr' as [Hin' Hne].
  assert (Heq : r' = r) by (now apply (unique_key_row (db_instances w))).
  subst r'. rewrite Hpool, Z.eqb_refl in Hne. discriminate.
Qed.

(** X28. A tick on a pool leaves the instances of the other pools alone: when
    the primary keys of the instance rows are distinct, the rows of the
    other pools are after the tick what they were before, in their order,
    however the tick ends. *)
Theorem tick_keeps_other_instances (median : list float -> float)
    (handle_tags : string -> list (string * string) -> string) (P : Provider)
    (pool_id : Z) (w : World) :
  NoDup (map inst_pk (db_instances w)) ->
  other_instances pool_id
    (db_instances (snd (check_instance_pool median handle_tags P pool_id w)))
  = other_instances pool_id (db_instances w).
Proof.
  intros Hnd. unfold check_instance_pool, bind, gets. cbn [fst snd].
  destruct (existsb (Z.eqb pool_id) (locks w)); [reflexivity|].
  unfold modify, try_finally. cbn [fst snd].
  pose proof (check_instance_pool_locked_kept median handle_tags P pool_id
                (other_instances pool_id (db_instances w))
                (with_locks (cons pool_id) w) (rows_owned_start pool_id w Hnd)) as H.
  unfold wp in H.
  destruct (check_instance_pool_locked median handle_tags P pool_id
              (with_locks (cons pool_id) w)) as [r w'].
  exact H.
Qed.

Lemma tick_keeps_other_instances_witness :
  other_instances 1
    (db_instances (snd (check_instance_pool price_median handle_tags_plain
                          (provider_with [boto_shutting_down]) 1 world_shared)))
  = [instance_of_second].
Proof.
  apply (tick_keeps_other_instances price_median handle_tags_plain
           (provider_with [boto_shutting_down]) 1 world_shared).
  apply (bool_decide_unpack (NoDup (map inst_pk (db_instances world_shared)))).
  vm_compute. exact I.
Defined.
